(** * A verified model of the plant-link chat page ([src/index.tsx])

    The page keeps four module-level variables ([isFirstMessage], [chat],
    [npcProfile], [isGenerating]), a handful of DOM elements, and three
    asynchronous functions.  JavaScript runs them on one thread: a function
    runs without interruption until its next [await], and resumes when the
    awaited promise settles.  The model below follows that discipline:

    - strings are sequences of UTF-16 code units, as in JavaScript;
    - numbers are rationals, and [Math.random] is a sequence of draws read
      in order.  [getTypingDelay] rounds each operation to the nearest
      binary64 number, as the code's arithmetic does ([Binary64]): its
      results reach the upper ends of their ranges through rounding.
      [getThinkingTime] is computed exactly;
    - the DOM is a store of message elements addressed by identity, the
      ordered children of [#chat-history], and the few properties of the
      input, the signal region and the portrait region that the code writes
      (scroll position and keyboard focus are left out);
    - each [async] function is cut at its [await]s: what remains to be run
      is kept as an explicit continuation, and one [step] is one turn of the
      event loop;
    - the service client is the environment: the calls made on it are
      recorded, and what an awaited call returns is part of the event that
      resumes the caller.  A profile response either fails to parse or is
      the record of six strings its schema demands, and creating a chat
      session is a constructor call of the client library. *)

From Stdlib Require Import ZArith NArith QArith Qminmax Qround Lqa String Ascii.
From Stdlib Require Import SpecFloat.
From stdpp Require Import base option list gmap.

(** ** JavaScript strings *)

Module JsString.

#[local] Open Scope N_scope.

(** A string value: its UTF-16 code units. *)
Definition t : Type := list N.

Definition isHighSurrogate (u : N) : bool := (0xD800 <=? u) && (u <=? 0xDBFF).
Definition isLowSurrogate (u : N) : bool := (0xDC00 <=? u) && (u <=? 0xDFFF).

(** [for (const char of s)]: the string iterator yields code points, each as
    a string of one code unit, or of two when a surrogate pair is met. *)
Fixpoint chars (s : t) : list t :=
  match s with
  | [] => []
  | u :: rest =>
      match rest with
      | v :: rest' =>
          if isHighSurrogate u && isLowSurrogate v
          then [u; v] :: chars rest'
          else [u] :: chars rest
      | [] => [[u]]
      end
  end.

(** White space and line terminators, the code units [trim] strips. *)
Definition isWhiteSpace (u : N) : bool :=
  ((0x09 <=? u) && (u <=? 0x0D)) || (u =? 0x20) || (u =? 0xA0) || (u =? 0x1680)
  || ((0x2000 <=? u) && (u <=? 0x200A)) || (u =? 0x2028) || (u =? 0x2029)
  || (u =? 0x202F) || (u =? 0x205F) || (u =? 0x3000) || (u =? 0xFEFF).

Fixpoint trimStart (s : t) : t :=
  match s with
  | u :: rest => if isWhiteSpace u then trimStart rest else s
  | [] => []
  end.

Definition trimEnd (s : t) : t := rev (trimStart (rev s)).

(** [s.trim()] *)
Definition trim (s : t) : t := trimEnd (trimStart s).

Fixpoint startsWith (s sub : t) : bool :=
  match sub, s with
  | [], _ => true
  | _ :: _, [] => false
  | c :: sub', d :: s' => (c =? d) && startsWith s' sub'
  end.

(** [s.includes(sub)] *)
Fixpoint includes (s sub : t) : bool :=
  startsWith s sub
  || match s with
     | [] => false
     | _ :: s' => includes s' sub
     end.

(** [a === b] on strings. *)
Definition strictEq (a b : t) : bool := bool_decide (a = b).

(** Source literals are written as UTF-8 text and decoded to code units. *)
Fixpoint codePointsOfUtf8 (bs : list N) : list N :=
  match bs with
  | [] => []
  | b0 :: r0 =>
      if b0 <? 0x80 then b0 :: codePointsOfUtf8 r0
      else match r0 with
      | [] => []
      | b1 :: r1 =>
          if b0 <? 0xE0
          then N.lor (N.shiftl (N.land b0 0x1F) 6) (N.land b1 0x3F)
               :: codePointsOfUtf8 r1
          else match r1 with
          | [] => []
          | b2 :: r2 =>
              if b0 <? 0xF0
              then N.lor (N.shiftl (N.land b0 0x0F) 12)
                     (N.lor (N.shiftl (N.land b1 0x3F) 6) (N.land b2 0x3F))
                   :: codePointsOfUtf8 r2
              else match r2 with
              | [] => []
              | b3 :: r3 =>
                  N.lor (N.shiftl (N.land b0 0x07) 18)
                    (N.lor (N.shiftl (N.land b1 0x3F) 12)
                       (N.lor (N.shiftl (N.land b2 0x3F) 6) (N.land b3 0x3F)))
                  :: codePointsOfUtf8 r3
              end
          end
      end
  end.

Definition codeUnits (cp : N) : t :=
  if cp <? 0x10000 then [cp]
  else [0xD800 + N.shiftr (cp - 0x10000) 10; 0xDC00 + N.land (cp - 0x10000) 0x3FF].

Definition lit (s : string) : t :=
  flat_map codeUnits
    (codePointsOfUtf8 (map (fun b => N_of_ascii (ascii_of_byte b)) (list_byte_of_string s))).

End JsString.

Abbreviation jsstring := JsString.t.

(** ** Numbers and the random source *)

(** [x < y] on numbers, as a test. *)
Definition Qltb (x y : Q) : bool := negb (Qle_bool y x).

(** A computation that reads [Math.random]: it receives the number of draws
    made so far and returns its result with the new count. *)
Definition Rand (A : Type) : Type := nat -> A * nat.

#[global] Instance rand_ret : MRet Rand := fun A (a : A) i => (a, i).
#[global] Instance rand_bind : MBind Rand :=
  fun A B (k : A -> Rand B) (m : Rand A) i => let (a, j) := m i in k a j.

(** *** Arithmetic of binary64

    A JavaScript number is an IEEE 754 binary64 value, and [+], [-] and [*]
    return the exact result rounded to the nearest one, ties going to the
    even significand.  The finite binary64 numbers are the [m * 2^e] with
    [|m| < 2^53] and [-1074 <= e <= 971]; they are kept here as rationals.
    Overflow and the sign of zero are left out: the delays stay below 1000
    and are only compared and passed to [setTimeout]. *)

Module Binary64.

(** Every finite number is a multiple of [2^-1074]. *)
Definition scale : Z := (2 ^ 1074)%Z.

(** The nearest integer, the even one of two at equal distance. *)
Definition roundHalfEven (q : Q) : Z :=
  let f := Qfloor q in
  match Qcompare (q - inject_Z f) (1 # 2) with
  | Lt => f
  | Gt => (f + 1)%Z
  | Eq => if Z.even f then f else (f + 1)%Z
  end.

(** For [x >= 0] counted in units of [2^-1074]: the spacing of the binary64
    numbers around [x] is [2^shiftOf x] units, one unit below [2^53]. *)
Definition shiftOf (x : Q) : Z := Z.max 0 (Z.log2 (Qfloor x) - 52).

Definition roundScaled (x : Q) : Q :=
  inject_Z (roundHalfEven (x / inject_Z (2 ^ shiftOf x))) * inject_Z (2 ^ shiftOf x).

Definition roundMagnitude (q : Q) : Q :=
  Qred (roundScaled (q * inject_Z scale) / inject_Z scale).

(** Round to nearest, ties to even. *)
Definition round (q : Q) : Q :=
  if Qle_bool 0 q then roundMagnitude q else (- roundMagnitude (- q))%Q.

Definition add (x y : Q) : Q := round (x + y).
Definition sub (x y : Q) : Q := round (x - y).
Definition mul (x y : Q) : Q := round (x * y).

(** The rationals that are binary64 numbers. *)
Definition representable (q : Q) : Prop := (round q == q)%Q.

(** The value of a finite number of the Standard Library's [SpecFloat], to
    compare [round] with its [SFadd] and [SFmul]. *)
Definition ofSpecFloat (f : spec_float) : option Q :=
  match f with
  | S754_zero _ => Some 0%Q
  | S754_finite sign m e =>
      let magnitude := (inject_Z (Z.pos m) * (2 ^ e))%Q in
      Some (Qred (if sign then - magnitude else magnitude))
  | _ => None
  end.

Definition SFadd64 : spec_float -> spec_float -> spec_float := SFadd 53 1024.
Definition SFsub64 : spec_float -> spec_float -> spec_float := SFsub 53 1024.
Definition SFmul64 : spec_float -> spec_float -> spec_float := SFmul 53 1024.

End Binary64.

(** The largest binary64 number below 1, [1 - 2^-53]: no draw of
    [Math.random] is larger. *)
Definition maxDraw : Q := Eval vm_compute in Qred (1 - 1 / inject_Z (2 ^ 53)).

Definition maxDraw64 : spec_float := S754_finite false (2 ^ 53 - 1) (-53).

(** The binary64 number nearest to one tenth. *)
Definition tenthDraw : Q := Eval vm_compute in Binary64.round (1 # 10).

Definition tenthDraw64 : spec_float := S754_finite false 3602879701896397 (-55).

(** The literals of [getTypingDelay], and the three characters of the
    second. *)
Definition comma : jsstring := Eval vm_compute in JsString.lit ",".
Definition sentenceEnd : jsstring := Eval vm_compute in JsString.lit ".?!".
Definition fullStop : jsstring := Eval vm_compute in JsString.lit ".".
Definition questionMark : jsstring := Eval vm_compute in JsString.lit "?".
Definition exclamationMark : jsstring := Eval vm_compute in JsString.lit "!".

Section Delays.

(** The successive values returned by [Math.random()]. *)
Variable random : nat -> Q.

Definition Math_random : Rand Q := fun i => (random i, S i).

(** Lines 75-81. *)
Definition getThinkingTime (userInput : jsstring) : Rand Q :=
  let baseTime := 600%Q in
  let timePerChar := 40%Q in
  r ← Math_random;
  let randomFactor := (r * 500)%Q in
  let calculatedTime :=
    (baseTime + (inject_Z (Z.of_nat (length userInput)) * timePerChar) + randomFactor)%Q in
  mret (Qmin calculatedTime 4000).

(** Lines 89-109, each operation rounded.  The literals 350, 150, 500, 200,
    95, 0.5, 60, 300 and 50 are binary64 numbers; 0.04 is not, and stands
    for the nearest one. *)
Definition getTypingDelay (char : jsstring) : Rand Q :=
  if JsString.strictEq char comma then
    r ← Math_random; mret (Binary64.add 350 (Binary64.mul r 150))
  else if JsString.includes sentenceEnd char then
    r ← Math_random; mret (Binary64.add 500 (Binary64.mul r 200))
  else
    let baseSpeed := 95%Q in
    r1 ← Math_random;
    let jitter := Binary64.mul (Binary64.sub r1 0.5) 60 in
    r2 ← Math_random;
    if Qltb r2 (Binary64.round 0.04)
    then mret (Binary64.add (Binary64.add baseSpeed jitter) 300)
    else mret (Qmax 50 (Binary64.add baseSpeed jitter)).

End Delays.

(** ** Values exchanged with the collaborators *)

(** The object the profile request is asked to return: its response schema,
    lines 142-153, makes the six fields mandatory strings, and the code reads
    them as such. *)
Record NpcProfile := {
  name : jsstring;
  personality : jsstring;
  backstory : jsstring;
  current_activity : jsstring;
  image_prompt : jsstring;
  first_message : jsstring;
}.

(** [JSON.parse(response.text)], line 158: it throws, or yields the profile. *)
Inductive JsonParse :=
  | SyntaxError
  | Parsed (profile : NpcProfile).

(** A chat session object, as [ai.chats.create] builds it from its
    configuration (a constructor of the client library: no request is made
    and nothing is awaited, line 188); [chatId] stands for its identity. *)
Record Chat := {
  chatId : nat;
  chatSystemInstruction : jsstring;
}.

(** The calls made on the service client, with the arguments that vary. *)
Inductive Request :=
  | GenerateContent (contents : jsstring)
  | GenerateImages (prompt : jsstring)
  | ChatsCreate (systemInstruction : jsstring)
  | SendMessageStream (session : Chat) (message : jsstring).

(** How an awaited promise settles: the profile request (with what
    [JSON.parse] makes of the response text), a [setTimeout], the
    [sendMessageStream] call, the next step of the stream's iterator, and
    the image request (each generated image with its bytes, or without an
    image). *)
Inductive Settlement :=
  | GenerateContentFulfilled (parsed : JsonParse)
  | GenerateContentRejected
  | TimerElapsed
  | SendMessageStreamFulfilled
  | SendMessageStreamRejected
  | StreamYields (text : jsstring)
  | StreamDone
  | StreamRejected
  | GenerateImagesFulfilled (generatedImages : list (option jsstring))
  | GenerateImagesRejected.

(** ** The page *)

Inductive Sender := user | npc.

(** The children of a message's paragraph: text nodes, and the cursor. *)
Inductive Node :=
  | TextNode (data : jsstring)
  | CursorSpan.

#[global] Instance Node_eq_dec : EqDecision Node.
Proof. solve_decision. Defined.

(** A message element: its classes and its paragraph. *)
Record MessageElement := {
  sender : Sender;
  streaming : bool;
  firstNpcReply : bool;
  paragraph : list Node;
}.

Definition nodeText (n : Node) : jsstring :=
  match n with
  | TextNode data => data
  | CursorSpan => []
  end.

(** [p.textContent], read: the text of the children in order. *)
Definition textContent (children : list Node) : jsstring :=
  concat (map nodeText children).

(** [p.textContent = text], written: one text node, none for the empty string. *)
Definition setTextContent (text : jsstring) : list Node :=
  match text with
  | [] => []
  | _ => [TextNode text]
  end.

(** [parent.insertBefore(new, ref)]: fails when [ref] is not a child. *)
Fixpoint insertBefore (new ref : Node) (children : list Node) : option (list Node) :=
  match children with
  | [] => None
  | c :: rest =>
      if decide (c = ref) then Some (new :: c :: rest)
      else cs ← insertBefore new ref rest; Some (c :: cs)
  end.

(** The module-level variables, lines 17-20. *)
Record Session := {
  isFirstMessage : bool;
  chat : option Chat;
  npcProfile : option NpcProfile;
  isGenerating : bool;
}.

(** [#chat-history]: the message elements created so far, by identity, and
    those that are its children, in document order. *)
Record Transcript := {
  elements : gmap nat MessageElement;
  created : nat;
  chatHistory : list nat;
}.

(** [#chat-input] and the form's button. *)
Record Form := {
  inputValue : jsstring;
  inputDisabled : bool;
  inputPlaceholder : jsstring;
  buttonDisabled : bool;
}.

(** [#signal-animation-container]. *)
Inductive Signal :=
  | SignalMarkup
  | SignalVines
  | SignalEmpty.

(** [#portrait-placeholder], [#portrait-loader] and [#npc-image]; a caption
    of [None] is the one of the static markup. *)
Record Portrait := {
  placeholderHidden : bool;
  placeholderCaption : option jsstring;
  loaderHidden : bool;
  imageHidden : bool;
  imageSrc : option jsstring;
}.

(** What is left to run of a suspended [async] function, with the variables
    it still uses: [generateNpcAndStartChat] at its [await]s of lines 137
    and 204, [handleChatSubmit] at those of lines 284, 286, 292 and 299, and
    [generateNpcImage] at that of line 234. *)
Inductive Continuation :=
  | AwaitingProfile (statusMessage : nat)
  | TypingFirstMessage (statusMessage firstMessageElement : nat)
      (rest : list jsstring) (delay : Q)
  | Thinking (userInput : jsstring) (thinkingTime : Q)
  | AwaitingStream
  | AwaitingChunk (messageElement : nat)
  | TypingChunk (messageElement : nat) (rest : list jsstring) (delay : Q)
  | AwaitingImage.

(** The page at the end of a turn: the variables, the DOM, the calls made
    so far (oldest first), the number of random draws made, and the
    suspended functions. *)
Record State := {
  session : Session;
  transcript : Transcript;
  form : Form;
  signal : Signal;
  portrait : Portrait;
  requests : list Request;
  draws : nat;
  pending : list Continuation;
}.

(** What the event loop delivers: the user edits the input, the form is
    submitted, or the promise awaited by the [i]-th suspended function
    settles. *)
Inductive Event :=
  | UserTypes (value : jsstring)
  | Submit
  | Settle (i : nat) (r : Settlement).

(** How a block of statements ends. *)
Inductive Outcome :=
  | Awaiting (k : Continuation)
  | Returned
  | Threw.

(** *** Field updates *)

Definition set_isFirstMessage (b : bool) (x : Session) : Session :=
  {| isFirstMessage := b; chat := chat x; npcProfile := npcProfile x;
     isGenerating := isGenerating x |}.
Definition set_chat (c : option Chat) (x : Session) : Session :=
  {| isFirstMessage := isFirstMessage x; chat := c; npcProfile := npcProfile x;
     isGenerating := isGenerating x |}.
Definition set_npcProfile (p : option NpcProfile) (x : Session) : Session :=
  {| isFirstMessage := isFirstMessage x; chat := chat x; npcProfile := p;
     isGenerating := isGenerating x |}.
Definition set_isGenerating (b : bool) (x : Session) : Session :=
  {| isFirstMessage := isFirstMessage x; chat := chat x; npcProfile := npcProfile x;
     isGenerating := b |}.

Definition with_session (f : Session -> Session) (s : State) : State :=
  {| session := f (session s); transcript := transcript s; form := form s;
     signal := signal s; portrait := portrait s; requests := requests s;
     draws := draws s; pending := pending s |}.
Definition with_transcript (f : Transcript -> Transcript) (s : State) : State :=
  {| session := session s; transcript := f (transcript s); form := form s;
     signal := signal s; portrait := portrait s; requests := requests s;
     draws := draws s; pending := pending s |}.
Definition with_form (f : Form -> Form) (s : State) : State :=
  {| session := session s; transcript := transcript s; form := f (form s);
     signal := signal s; portrait := portrait s; requests := requests s;
     draws := draws s; pending := pending s |}.
Definition set_signal (x : Signal) (s : State) : State :=
  {| session := session s; transcript := transcript s; form := form s;
     signal := x; portrait := portrait s; requests := requests s;
     draws := draws s; pending := pending s |}.
Definition with_portrait (f : Portrait -> Portrait) (s : State) : State :=
  {| session := session s; transcript := transcript s; form := form s;
     signal := signal s; portrait := f (portrait s); requests := requests s;
     draws := draws s; pending := pending s |}.
Definition call (r : Request) (s : State) : State :=
  {| session := session s; transcript := transcript s; form := form s;
     signal := signal s; portrait := portrait s; requests := requests s ++ [r];
     draws := draws s; pending := pending s |}.
Definition set_draws (n : nat) (s : State) : State :=
  {| session := session s; transcript := transcript s; form := form s;
     signal := signal s; portrait := portrait s; requests := requests s;
     draws := n; pending := pending s |}.
Definition with_pending (f : list Continuation -> list Continuation) (s : State) : State :=
  {| session := session s; transcript := transcript s; form := form s;
     signal := signal s; portrait := portrait s; requests := requests s;
     draws := draws s; pending := f (pending s) |}.

(** Run a computation that reads the random source. *)
Definition runRand {A} (m : Rand A) (s : State) : A * State :=
  let r := m (draws s) in (r.1, set_draws r.2 s).

(** *** Fixed texts *)

Definition statusText : jsstring := Eval vm_compute in JsString.lit "讯息已透过叶脉传递，正在等待回应...".
Definition connectionLostText : jsstring := Eval vm_compute in JsString.lit "连接中断了... 请再试一次。".
Definition driftingText : jsstring := Eval vm_compute in JsString.lit "我的思绪有些飘忽... 能请你再说一遍吗？".
Definition connectingText : jsstring := Eval vm_compute in JsString.lit "正在建立连接...".
Definition listeningText : jsstring := Eval vm_compute in JsString.lit "正在倾听...".
Definition sayAnythingText : jsstring := Eval vm_compute in JsString.lit "试着说些什么...".
Definition carryOnText : jsstring := Eval vm_compute in JsString.lit "继续对话...".
Definition portraitFailedText : jsstring := Eval vm_compute in JsString.lit "无法构建形态。".

(** The fixed parts of the template literals of lines 123-135 and 164-186. *)
Definition promptBeforeInput : jsstring := Eval vm_compute in JsString.lit "
世界观设定：在一个平行宇宙中，存在一个“植物是跨时空对话器”的普遍认知或古老传说。人们知道，通过特定的植物，有可能与另一个时空的人建立联系。

用户的讯息：“".

Definition promptAfterInput : jsstring := Eval vm_compute in JsString.lit "”通过一株植物，被一个普通人接收到了。

请基于此设定，创造这个NPC的详细中文资料：
1.  **NPC资料**: 创造一个正在与这株作为“对话器”的植物进行日常互动的普通人。资料应包括姓名、性格、背景故事。
2.  **当前活动 (current_activity)**: 描述NPC接收到信号时，正在对这株植物进行的具体活动（例如：正在给窗台的蕨类植物浇水、正在修剪书桌上的多肉植物的枯叶、正坐在客厅的琴叶榕旁边看书）。
3.  **开场白 (first_message)**: 以该NPC的身份，撰写回复用户的开场白。NPC的反应不应是恐惧，而应是【适度表达出原来植物真的可以对话的惊讶和激动】。例如：“天哪…是真的吗？你好？我能听见你…你是通过这株薄荷在跟我说话吗？”
4.  **图像提示词 (image_prompt)**: 创建一个严格遵循“植物视角”的详细图像生成提示词。必须明确地从植物的位置（向上、向下、或平视）来描述场景，捕捉NPC听到植物说话后，【瞬间的惊讶、好奇与凝神倾听】的反应。描述NPC的表情（如：睁大眼睛、微微张开嘴）和姿态（如：身体前倾、停下手中的动作）。画面构图可能不完美或被遮挡。绝对禁止生成NPC正在进行日常植物护理（如浇水、修剪）的画面，而是要表现他们听到声音后的【反应】。

所有生成的文本内容都必须是中文。
".

Definition instructionBeforeName : jsstring := Eval vm_compute in JsString.lit "
你现在是 ".

Definition instructionBeforePersonality : jsstring := Eval vm_compute in JsString.lit "，一个活生生的普通人。
你的核心资料如下：
- 性格: ".

Definition instructionBeforeBackstory : jsstring := Eval vm_compute in JsString.lit "
- 背景故事: ".

Definition instructionBeforeActivity : jsstring := Eval vm_compute in JsString.lit "
- 你正通过一株植物（你当时正在 ".

Definition instructionBeforeRole : jsstring := Eval vm_compute in JsString.lit "）与另一个时空的用户对话。在你的世界里，这只是一个古老的传说，而你刚刚亲身证实了它。

你的行为准则至关重要，请严格遵守：

**最重要规则：极度简洁。** 你的大部分回复都应该非常简短，通常只有一两句话。就像在发短信或真实对话中一样。只有在用户明确要求详细信息时，才能写得更长。

1.  **对话核心——自然的交流**: 把这次对话想象成一次意想不到的电话通话。分享你简短的想法和感受，然后把对话交还给对方。不要主导谈话，避免用一连串的问题轰炸对方。让问题自然而然地产生。

2.  **真实的情感**: 你拥有丰富的情感。你的情绪会真实地、简洁地体现在你的话语中。

3.  **完全的自主权**: 你是自由的。如果用户的话让你感到不适，你可以选择沉默，或者直接表达你的感受。如果对话变得非常糟糕，你有权单方面结束这场对话。

4.  **纯粹的对话**: 你的回答【只能包含对话内容】。绝对禁止任何形式的旁白、动作描述或表情符号 (例如，不要写 *她笑了笑* )。只说出你想说的话。

5.  **保持角色**: 你必须始终以 ".

Definition instructionAfterRole : jsstring := Eval vm_compute in JsString.lit " 的身份说话，记住你的背景和性格。

6.  **语言**: 所有回答都必须是中文。
".

(** Lines 123-135. *)
Definition npcGenerationPrompt (initialPrompt : jsstring) : jsstring :=
  promptBeforeInput ++ initialPrompt ++ promptAfterInput.

(** Lines 164-186. *)
Definition systemInstructionFor (p : NpcProfile) : jsstring :=
  JsString.trim
    (instructionBeforeName ++ name p
     ++ instructionBeforePersonality ++ personality p
     ++ instructionBeforeBackstory ++ backstory p
     ++ instructionBeforeActivity ++ current_activity p
     ++ instructionBeforeRole ++ name p
     ++ instructionAfterRole).

(** Line 233. *)
Definition styleSuffix : jsstring :=
  Eval vm_compute in JsString.lit ". The image should be in the anime style of Studio Ghibli and Hayao Miyazaki, characterized by beautiful watercolor backgrounds, soft colors, and a gentle, hand-drawn feel.".

Definition enhancedPrompt (prompt : jsstring) : jsstring := prompt ++ styleSuffix.

(** Line 245. *)
Definition dataUrlPrefix : jsstring :=
  Eval vm_compute in JsString.lit "data:image/jpeg;base64,".

Definition imageUrl (base64ImageBytes : jsstring) : jsstring :=
  dataUrlPrefix ++ base64ImageBytes.

(** ** The functions of the page *)

Section Page.

Variable random : nat -> Q.

(** Lines 34-52: creates the element, appends it to the history, returns it. *)
Definition addMessageToUI (text : jsstring) (who : Sender) (isStreaming : bool)
    (s : State) : nat * State :=
  let t := transcript s in
  let messageElement := created t in
  let children := setTextContent text in
  let message :=
    {| sender := who;
       streaming := isStreaming;
       firstNpcReply := false;
       paragraph := if isStreaming then children ++ [CursorSpan] else children |} in
  (messageElement,
   with_transcript (fun _ =>
     {| elements := <[messageElement := message]> (elements t);
        created := S (created t);
        chatHistory := chatHistory t ++ [messageElement] |}) s).

(** Lines 58-68. *)
Definition setLoading (isLoading : bool) (s : State) : State :=
  let s := with_session (set_isGenerating isLoading) s in
  let first := isFirstMessage (session s) in
  with_form (fun f =>
    {| inputValue := inputValue f;
       inputDisabled := isLoading;
       buttonDisabled := isLoading;
       inputPlaceholder :=
         if isLoading
         then (if first then connectingText else listeningText)
         else (if first then sayAnythingText else carryOnText) |}) s.

(** [chatHistory.removeChild(element)]: fails when it is not a child. *)
Definition removeChild (element : nat) (s : State) : option State :=
  if decide (element ∈ chatHistory (transcript s))
  then Some (with_transcript (fun t =>
         {| elements := elements t;
            created := created t;
            chatHistory := filter (fun x => x ≠ element) (chatHistory t) |}) s)
  else None.

Definition updateElement (element : nat) (m : MessageElement) (s : State) : State :=
  with_transcript (fun t =>
    {| elements := <[element := m]> (elements t);
       created := created t;
       chatHistory := chatHistory t |}) s.

(** One turn of a typing loop, lines 201-203 and 296-298: the character is
    put before the cursor and its delay is drawn. *)
Definition typeCharacter (element : nat) (char : jsstring) (s : State)
    : option (Q * State) :=
  m ← elements (transcript s) !! element;
  children ← insertBefore (TextNode char) CursorSpan (paragraph m);
  let s := updateElement element
             {| sender := sender m; streaming := streaming m;
                firstNpcReply := firstNpcReply m; paragraph := children |} s in
  Some (runRand (getTypingDelay random char) s).

(** Lines 207-208 and 303-304: [classList.remove('streaming')], [cursor.remove()]. *)
Definition finishStreaming (element : nat) (s : State) : State :=
  with_transcript (fun t =>
    {| elements :=
         alter (fun m =>
           {| sender := sender m; streaming := false;
              firstNpcReply := firstNpcReply m;
              paragraph := filter (fun n => n ≠ CursorSpan) (paragraph m) |})
           element (elements t);
       created := created t;
       chatHistory := chatHistory t |}) s.

(** Line 196: [classList.add('first-npc-reply')]. *)
Definition addFirstNpcReplyClass (element : nat) (s : State) : State :=
  with_transcript (fun t =>
    {| elements :=
         alter (fun m =>
           {| sender := sender m; streaming := streaming m;
              firstNpcReply := true; paragraph := paragraph m |})
           element (elements t);
       created := created t;
       chatHistory := chatHistory t |}) s.

(** Lines 227-242 of [generateNpcImage], up to its [await]. *)
Definition generateNpcImage (prompt : jsstring) (s : State) : State :=
  let s := with_portrait (fun p =>
    {| placeholderHidden := true;
       placeholderCaption := placeholderCaption p;
       loaderHidden := false;
       imageHidden := true;
       imageSrc := imageSrc p |}) s in
  let s := call (GenerateImages (enhancedPrompt prompt)) s in
  with_pending (fun ks => ks ++ [AwaitingImage]) s.

(** Lines 244-255: the rest of [generateNpcImage], once the request settled. *)
Definition generateNpcImage_resume (r : option (list (option jsstring))) (s : State) : State :=
  let shown :=
    match r with
    | Some (Some base64ImageBytes :: _) =>
        Some (with_portrait (fun p =>
          {| placeholderHidden := placeholderHidden p;
             placeholderCaption := placeholderCaption p;
             loaderHidden := loaderHidden p;
             imageHidden := false;
             imageSrc := Some (imageUrl base64ImageBytes) |}) s)
    | _ => None
    end in
  let s :=
    match shown with
    | Some s => s
    | None =>
        with_portrait (fun p =>
          {| placeholderHidden := false;
             placeholderCaption := Some portraitFailedText;
             loaderHidden := loaderHidden p;
             imageHidden := imageHidden p;
             imageSrc := imageSrc p |}) s
    end in
  with_portrait (fun p =>
    {| placeholderHidden := placeholderHidden p;
       placeholderCaption := placeholderCaption p;
       loaderHidden := true;
       imageHidden := imageHidden p;
       imageSrc := imageSrc p |}) s.

(** Lines 118-155 of [generateNpcAndStartChat], up to its first [await]. *)
Definition generateNpcAndStartChat (initialPrompt : jsstring) (s : State) : State :=
  let s := setLoading true s in
  let '(statusMessage, s) := addMessageToUI statusText npc false s in
  let s := call (GenerateContent (npcGenerationPrompt initialPrompt)) s in
  with_pending (fun ks => ks ++ [AwaitingProfile statusMessage]) s.

(** Lines 200-208: the loop over the first message, from the characters
    still to type, and what follows it. *)
Definition firstMessageLoop (statusMessage firstMessageElement : nat)
    (chars : list jsstring) (s : State) : State * Outcome :=
  match chars with
  | char :: rest =>
      match typeCharacter firstMessageElement char s with
      | Some (delay, s) =>
          (s, Awaiting (TypingFirstMessage statusMessage firstMessageElement rest delay))
      | None => (s, Threw)
      end
  | [] => (finishStreaming firstMessageElement s, Returned)
  end.

(** Lines 157-208: the [try] block from the settled profile request on. *)
Definition generateNpcAndStartChat_try (statusMessage : nat) (r : option JsonParse)
    (s : State) : State * Outcome :=
  match r with
  | None => (s, Threw)
  | Some parsed =>
      let s := set_signal SignalEmpty s in
      match parsed with
      | SyntaxError => (s, Threw)
      | Parsed profile =>
          let s := with_session (set_npcProfile (Some profile)) s in
          match removeChild statusMessage s with
          | None => (s, Threw)
          | Some s =>
              let s := generateNpcImage (image_prompt profile) s in
              let systemInstruction := systemInstructionFor profile in
              let session0 :=
                {| chatId := length (requests s);
                   chatSystemInstruction := systemInstruction |} in
              let s := call (ChatsCreate systemInstruction) s in
              let s := with_session (set_chat (Some session0)) s in
              let s := with_session (set_isFirstMessage false) s in
              let '(firstMessageElement, s) := addMessageToUI [] npc true s in
              let s := addFirstNpcReplyClass firstMessageElement s in
              firstMessageLoop statusMessage firstMessageElement
                (JsString.chars (first_message profile)) s
          end
      end
  end.

(** Lines 210-216: the [catch] block. *)
Definition generateNpcAndStartChat_catch (statusMessage : nat) (s : State) : State :=
  let s := set_signal SignalEmpty s in
  let s :=
    match removeChild statusMessage s with
    | Some s' => s'
    | None => s
    end in
  snd (addMessageToUI connectionLostText npc false s).

(** Lines 292-304: the loop over the characters of a chunk; when they are
    typed the next chunk is awaited. *)
Definition chunkLoop (messageElement : nat) (chars : list jsstring) (s : State)
    : State * Outcome :=
  match chars with
  | char :: rest =>
      match typeCharacter messageElement char s with
      | Some (delay, s) => (s, Awaiting (TypingChunk messageElement rest delay))
      | None => (s, Threw)
      end
  | [] => (s, Awaiting (AwaitingChunk messageElement))
  end.

(** Line 286, after the thinking time. *)
Definition sendMessage (userInput : jsstring) (s : State) : State * Outcome :=
  match chat (session s) with
  | Some c => (call (SendMessageStream c userInput) s, Awaiting AwaitingStream)
  | None => (s, Threw)
  end.

(** Lines 288-292, once the stream is there. *)
Definition openReply (s : State) : State * Outcome :=
  let '(messageElement, s) := addMessageToUI [] npc true s in
  (s, Awaiting (AwaitingChunk messageElement)).

(** Lines 306-308: the [catch] block of the dialogue branch. *)
Definition handleChatSubmit_catch (s : State) : State :=
  snd (addMessageToUI driftingText npc false s).

(** Lines 262-286 of [handleChatSubmit], up to its first [await]. *)
Definition handleChatSubmit (s : State) : State :=
  if isGenerating (session s) then s
  else
    let userInput := JsString.trim (inputValue (form s)) in
    match userInput with
    | [] => s
    | _ =>
        let s := snd (addMessageToUI userInput user false s) in
        let s := with_form (fun f =>
          {| inputValue := []; inputDisabled := inputDisabled f;
             inputPlaceholder := inputPlaceholder f;
             buttonDisabled := buttonDisabled f |}) s in
        if isFirstMessage (session s) then
          let s := set_signal SignalVines s in
          generateNpcAndStartChat userInput s
        else
          match chat (session s) with
          | Some _ =>
              let s := setLoading true s in
              let '(thinkingTime, s) := runRand (getThinkingTime random userInput) s in
              with_pending (fun ks => ks ++ [Thinking userInput thinkingTime]) s
          | None => s
          end
    end.

(** A resumed function runs to its next [await], to its end, or to a
    [throw]; [catch] and [finally] are the handlers of its [try]. *)
Definition conclude (i : nat) (catch finally : State -> State)
    (r : State * Outcome) : State :=
  let (s, o) := r in
  match o with
  | Awaiting k => with_pending (fun ks => <[i := k]> ks) s
  | Returned => finally (with_pending (delete i) s)
  | Threw => finally (catch (with_pending (delete i) s))
  end.

(** The continuation [k], pending at index [i], is resumed with [r];
    [None] when [r] is not what [k] awaits. *)
Definition resume (i : nat) (k : Continuation) (r : Settlement) (s : State)
    : option State :=
  match k, r with
  | AwaitingProfile statusMessage, GenerateContentFulfilled parsed =>
      Some (conclude i (generateNpcAndStartChat_catch statusMessage) (setLoading false)
              (generateNpcAndStartChat_try statusMessage (Some parsed) s))
  | AwaitingProfile statusMessage, GenerateContentRejected =>
      Some (conclude i (generateNpcAndStartChat_catch statusMessage) (setLoading false)
              (generateNpcAndStartChat_try statusMessage None s))
  | TypingFirstMessage statusMessage firstMessageElement rest _, TimerElapsed =>
      Some (conclude i (generateNpcAndStartChat_catch statusMessage) (setLoading false)
              (firstMessageLoop statusMessage firstMessageElement rest s))
  | Thinking userInput _, TimerElapsed =>
      Some (conclude i handleChatSubmit_catch (setLoading false) (sendMessage userInput s))
  | AwaitingStream, SendMessageStreamFulfilled =>
      Some (conclude i handleChatSubmit_catch (setLoading false) (openReply s))
  | AwaitingStream, SendMessageStreamRejected =>
      Some (conclude i handleChatSubmit_catch (setLoading false) (s, Threw))
  | AwaitingChunk messageElement, StreamYields text =>
      Some (conclude i handleChatSubmit_catch (setLoading false)
              (chunkLoop messageElement (JsString.chars text) s))
  | AwaitingChunk messageElement, StreamDone =>
      Some (conclude i handleChatSubmit_catch (setLoading false)
              (finishStreaming messageElement s, Returned))
  | AwaitingChunk _, StreamRejected =>
      Some (conclude i handleChatSubmit_catch (setLoading false) (s, Threw))
  | TypingChunk messageElement rest _, TimerElapsed =>
      Some (conclude i handleChatSubmit_catch (setLoading false)
              (chunkLoop messageElement rest s))
  | AwaitingImage, GenerateImagesFulfilled generatedImages =>
      Some (generateNpcImage_resume (Some generatedImages) (with_pending (delete i) s))
  | AwaitingImage, GenerateImagesRejected =>
      Some (generateNpcImage_resume None (with_pending (delete i) s))
  | _, _ => None
  end.

(** One turn of the event loop. *)
Definition step (s : State) (e : Event) : option State :=
  match e with
  | UserTypes value =>
      Some (with_form (fun f =>
        {| inputValue := value; inputDisabled := inputDisabled f;
           inputPlaceholder := inputPlaceholder f;
           buttonDisabled := buttonDisabled f |}) s)
  | Submit => Some (handleChatSubmit s)
  | Settle i r => k ← pending s !! i; resume i k r s
  end.

(** A run of the event loop. *)
Fixpoint run (s : State) (es : list Event) : option State :=
  match es with
  | [] => Some s
  | e :: es' => s' ← step s e; run s' es'
  end.

End Page.

(** The page as loaded: the variables as initialised on lines 17-20; for
    the markup, which the source file does not contain, an empty history,
    an enabled empty input, and the portrait placeholder shown. *)
Definition initial : State :=
  {| session := {| isFirstMessage := true; chat := None; npcProfile := None;
                   isGenerating := false |};
     transcript := {| elements := ∅; created := 0; chatHistory := [] |};
     form := {| inputValue := []; inputDisabled := false; inputPlaceholder := [];
                buttonDisabled := false |};
     signal := SignalMarkup;
     portrait := {| placeholderHidden := false; placeholderCaption := None;
                    loaderHidden := true; imageHidden := true; imageSrc := None |};
     requests := [];
     draws := 0;
     pending := [] |}.

(** The states the page can be in. *)
Inductive reachable (random : nat -> Q) : State -> Prop :=
  | reachable_initial : reachable random initial
  | reachable_step s e s' :
      reachable random s -> step random s e = Some s' -> reachable random s'.

(** ** Invariants of the reachable states *)

Definition isTextFlow (k : Continuation) : bool :=
  match k with
  | AwaitingImage => false
  | _ => true
  end.

(** The suspended runs of [handleChatSubmit] and [generateNpcAndStartChat]. *)
Definition textFlows (ks : list Continuation) : list Continuation :=
  filter (fun k => isTextFlow k) ks.

Definition cursorIn (els : gmap nat MessageElement) (element : nat) : Prop :=
  exists m, els !! element = Some m /\ CursorSpan ∈ paragraph m.

(** What a suspended function relies on when it is resumed. *)
Definition flow_ok (first : bool) (t : Transcript) (k : Continuation) : Prop :=
  match k with
  | AwaitingProfile statusMessage => first = true /\ statusMessage ∈ chatHistory t
  | TypingFirstMessage _ element _ _ => first = false /\ cursorIn (elements t) element
  | Thinking _ _ => first = false
  | AwaitingStream => first = false
  | AwaitingChunk element => first = false /\ cursorIn (elements t) element
  | TypingChunk element _ _ => first = false /\ cursorIn (elements t) element
  | AwaitingImage => True
  end.

Definition isChatsCreate (r : Request) : bool :=
  match r with
  | ChatsCreate _ => true
  | _ => false
  end.

Definition isGenerateContent (r : Request) : bool :=
  match r with
  | GenerateContent _ => true
  | _ => false
  end.

Definition isSendMessageStream (r : Request) : bool :=
  match r with
  | SendMessageStream _ _ => true
  | _ => false
  end.

(** How many of the calls made so far satisfy [p]. *)
Definition count (p : Request -> bool) (rs : list Request) : nat :=
  length (filter (fun r => p r) rs).

(** Elements are numbered in the order of their creation. *)
Definition numbered (els : gmap nat MessageElement) (n : nat) (history : list nat) : Prop :=
  (forall x, x ∈ history -> x < n) /\ (forall x, is_Some (els !! x) -> x < n).

Definition inv_transcript (t : Transcript) : Prop :=
  numbered (elements t) (created t) (chatHistory t).

(** Before contact there is neither profile nor chat session; after it
    there are both, and the session was created by the only such call. *)
Definition inv_session (x : Session) (rs : list Request) : Prop :=
  if isFirstMessage x
  then chat x = None /\ npcProfile x = None /\ count isChatsCreate rs = 0
  else is_Some (chat x) /\ is_Some (npcProfile x) /\ count isChatsCreate rs = 1.

(** The busy flag is set exactly while one text flow is suspended, and
    there is never more than one. *)
Definition inv_busy (x : Session) (t : Transcript) (ks : list Continuation) : Prop :=
  match textFlows ks with
  | [] => isGenerating x = false
  | [k] => isGenerating x = true /\ flow_ok (isFirstMessage x) t k
  | _ => False
  end.

Record Inv (s : State) : Prop := {
  Inv_transcript : inv_transcript (transcript s);
  Inv_session : inv_session (session s) (requests s);
  Inv_busy : inv_busy (session s) (transcript s) (pending s);
}.

(** The part of the session that contact establishes. *)
Definition same_contact (s s' : State) : Prop :=
  isFirstMessage (session s') = isFirstMessage (session s)
  /\ chat (session s') = chat (session s)
  /\ npcProfile (session s') = npcProfile (session s).

(** What one turn of the event loop does to the contact and to the calls
    made: nothing, or one of three things. *)
Inductive effect (s : State) (e : Event) (s' : State) : Prop :=
  | effect_none :
      same_contact s s' -> requests s' = requests s -> effect s e s'
  | effect_profile_request :
      e = Submit ->
      isGenerating (session s) = false ->
      isFirstMessage (session s) = true ->
      JsString.trim (inputValue (form s)) <> [] ->
      same_contact s s' ->
      requests s' =
        requests s
        ++ [GenerateContent (npcGenerationPrompt (JsString.trim (inputValue (form s))))] ->
      effect s e s'
  | effect_contact i statusMessage profile :
      e = Settle i (GenerateContentFulfilled (Parsed profile)) ->
      pending s !! i = Some (AwaitingProfile statusMessage) ->
      isFirstMessage (session s) = true ->
      isFirstMessage (session s') = false ->
      npcProfile (session s') = Some profile ->
      chat (session s') =
        Some {| chatId := S (length (requests s));
                chatSystemInstruction := systemInstructionFor profile |} ->
      requests s' =
        requests s
        ++ [GenerateImages (enhancedPrompt (image_prompt profile));
            ChatsCreate (systemInstructionFor profile)] ->
      effect s e s'
  | effect_send i userInput thinkingTime c :
      e = Settle i TimerElapsed ->
      pending s !! i = Some (Thinking userInput thinkingTime) ->
      isFirstMessage (session s) = false ->
      chat (session s) = Some c ->
      same_contact s s' ->
      requests s' = requests s ++ [SendMessageStream c userInput] ->
      effect s e s'.

(** A handler that leaves the session and the calls alone. *)
Definition catch_frame (catch : State -> State) : Prop :=
  forall s, session (catch s) = session s /\ requests (catch s) = requests s.

(** One character, as the string iterator yields it. *)
Definition isCharacter (c : jsstring) : Prop := JsString.chars c = [c].


(** ** Rendered messages and the events of a streamed message *)

(** The last message of the history. *)
Definition lastMessage (s : State) : option MessageElement :=
  e ← last (chatHistory (transcript s)); elements (transcript s) !! e.

(** The events of one chunk of a reply: its arrival, then one timer for
    each of its characters. *)
Definition chunkEvents (i : nat) (text : jsstring) : list Event :=
  Settle i (StreamYields text)
  :: repeat (Settle i TimerElapsed) (length (JsString.chars text)).

(** A reply that arrives in the chunks [chunks] and ends. *)
Definition replyEvents (i : nat) (chunks : list jsstring) : list Event :=
  Settle i SendMessageStreamFulfilled
  :: concat (map (chunkEvents i) chunks) ++ [Settle i StreamDone].

(** A profile that arrives, and the timers of its first message. *)
Definition firstMessageEvents (i : nat) (profile : NpcProfile) : list Event :=
  Settle i (GenerateContentFulfilled (Parsed profile))
  :: repeat (Settle i TimerElapsed) (length (JsString.chars (first_message profile))).

(** The element [element] is being typed and shows [typed] so far. *)
Definition typing (element : nat) (first : bool) (typed : list jsstring) (s : State) : Prop :=
  elements (transcript s) !! element
  = Some {| sender := npc; streaming := true; firstNpcReply := first;
            paragraph := map TextNode typed ++ [CursorSpan] |}.

Definition typed_out (element : nat) (first : bool) (typed : list jsstring) (s : State) : Prop :=
  elements (transcript s) !! element
  = Some {| sender := npc; streaming := false; firstNpcReply := first;
            paragraph := map TextNode typed |}.

(** ** The chunks a reply has yielded *)

(** What an event adds to the chunks of the reply being streamed: a stream
    that opens starts afresh, a chunk that arrives is added. *)
Definition yield (e : Event) (chunks : list jsstring) : list jsstring :=
  match e with
  | Settle _ SendMessageStreamFulfilled => []
  | Settle _ (StreamYields text) => chunks ++ [text]
  | _ => chunks
  end.

(** The chunks yielded by the stream last opened in [es], after [chunks]. *)
Fixpoint streamedFrom (chunks : list jsstring) (es : list Event) : list jsstring :=
  match es with
  | [] => chunks
  | e :: es' => streamedFrom (yield e chunks) es'
  end.

Definition streamed (es : list Event) : list jsstring := streamedFrom [] es.

(** The element [element] is the last of the history, is being typed, and
    shows [typed] so far. *)
Definition shows (t : Transcript) (first : bool) (element : nat)
    (typed : list jsstring) : Prop :=
  elements t !! element
  = Some {| sender := npc; streaming := true; firstNpcReply := first;
            paragraph := map TextNode typed ++ [CursorSpan] |}
  /\ last (chatHistory t) = Some element.

(** What is typed so far, with what is left to type, is the text to
    render: the first message of the profile, or the chunks yielded. *)
Definition rendering_ok (profile : option NpcProfile) (chunks : list jsstring)
    (t : Transcript) (k : Continuation) : Prop :=
  match k with
  | TypingFirstMessage _ element rest _ =>
      exists p typed,
        profile = Some p
        /\ shows t true element typed
        /\ typed ++ rest = JsString.chars (first_message p)
  | AwaitingChunk element =>
      shows t false element (concat (map JsString.chars chunks))
  | TypingChunk element rest _ =>
      exists typed,
        shows t false element typed
        /\ typed ++ rest = concat (map JsString.chars chunks)
  | _ => True
  end.

Definition inv_rendering (chunks : list jsstring) (s : State) : Prop :=
  forall k,
    textFlows (pending s) = [k] ->
    rendering_ok (npcProfile (session s)) chunks (transcript s) k.

(** ** What the proofs keep track of *)

(** What the body of a resumed text flow leaves behind. *)
Definition mid_ok (i : nat) (k : Continuation) (r : State * Outcome) : Prop :=
  inv_transcript (transcript r.1)
  /\ inv_session (session r.1) (requests r.1)
  /\ isGenerating (session r.1) = true
  /\ textFlows (pending r.1) = [k]
  /\ pending r.1 !! i = Some k
  /\ match r.2 with
     | Awaiting k' =>
         isTextFlow k' = true
         /\ flow_ok (isFirstMessage (session r.1)) (transcript r.1) k'
     | _ => True
     end.

Definition catch_ok (catch : State -> State) : Prop :=
  forall s, inv_transcript (transcript s) ->
    inv_transcript (transcript (catch s))
    /\ session (catch s) = session s
    /\ requests (catch s) = requests s
    /\ pending (catch s) = pending s.

(** The state a typing loop is entered in. *)
Definition loop_entry (i : nat) (k : Continuation) (element : nat) (s : State) : Prop :=
  inv_transcript (transcript s)
  /\ inv_session (session s) (requests s)
  /\ isGenerating (session s) = true
  /\ textFlows (pending s) = [k]
  /\ pending s !! i = Some k
  /\ isFirstMessage (session s) = false
  /\ cursorIn (elements (transcript s)) element.

(** ** Counting along a run *)

(** The number of turns of a run at which [f] holds. *)
Fixpoint turns (random : nat -> Q) (f : State -> Event -> State -> bool)
    (s : State) (es : list Event) : nat :=
  match es with
  | [] => 0
  | e :: es' =>
      match step random s e with
      | Some s' => (if f s e s' then 1 else 0) + turns random f s' es'
      | None => 0
      end
  end.

(** The turn leaves [AWAITING_FIRST_CONTACT] for [IN_DIALOGUE]. *)
Definition establishesContact (s : State) (e : Event) (s' : State) : bool :=
  isFirstMessage (session s) && negb (isFirstMessage (session s')).

(** The turn runs the assignment of line 158. *)
Definition assignsProfile (s : State) (e : Event) (s' : State) : bool :=
  match e with
  | Settle i (GenerateContentFulfilled (Parsed _)) =>
      match pending s !! i with
      | Some (AwaitingProfile _) => true
      | _ => false
      end
  | _ => false
  end.

(** The turn resumes [handleChatSubmit] after its thinking time, line 286. *)
Definition sendsMessage (s : State) (e : Event) : bool :=
  match e with
  | Settle i TimerElapsed =>
      match pending s !! i with
      | Some (Thinking _ _) => true
      | _ => false
      end
  | _ => false
  end.

(** The image request settled without a usable image. *)
Definition imageFailed (r : Settlement) : bool :=
  match r with
  | GenerateImagesRejected => true
  | GenerateImagesFulfilled [] => true
  | GenerateImagesFulfilled (None :: _) => true
  | _ => false
  end.

Definition imageSettled (r : Settlement) : bool :=
  match r with
  | GenerateImagesRejected => true
  | GenerateImagesFulfilled _ => true
  | _ => false
  end.

(** [r] is what the continuation [k] awaits. *)
Definition awaits (k : Continuation) (r : Settlement) : bool :=
  match k, r with
  | AwaitingProfile _, (GenerateContentFulfilled _ | GenerateContentRejected) => true
  | (TypingFirstMessage _ _ _ _ | Thinking _ _ | TypingChunk _ _ _), TimerElapsed => true
  | AwaitingStream, (SendMessageStreamFulfilled | SendMessageStreamRejected) => true
  | AwaitingChunk _, (StreamYields _ | StreamDone | StreamRejected) => true
  | AwaitingImage, (GenerateImagesFulfilled _ | GenerateImagesRejected) => true
  | _, _ => false
  end.

(** ** Sample data *)

Definition sampleRandom : nat -> Q := fun _ => 1 # 2.

(** The source that always draws the largest number below 1. *)
Definition maxDraws : nat -> Q := fun _ => maxDraw.

Definition sampleName : jsstring := Eval vm_compute in JsString.lit "林夏".
Definition samplePersonality : jsstring := Eval vm_compute in JsString.lit "温和".
Definition sampleBackstory : jsstring := Eval vm_compute in JsString.lit "花店店员".
Definition sampleActivity : jsstring := Eval vm_compute in JsString.lit "给薄荷浇水".
Definition sampleImagePrompt : jsstring := Eval vm_compute in JsString.lit "从薄荷的视角向上看".
Definition sampleFirstMessage : jsstring := Eval vm_compute in JsString.lit "天哪…你好？".
Definition sampleGreeting : jsstring := Eval vm_compute in JsString.lit " 你好 ".
Definition sampleQuestion : jsstring := Eval vm_compute in JsString.lit "你是谁？".

Definition sampleProfile : NpcProfile :=
  {| name := sampleName;
     personality := samplePersonality;
     backstory := sampleBackstory;
     current_activity := sampleActivity;
     image_prompt := sampleImagePrompt;
     first_message := sampleFirstMessage |}.

(** The first message is typed in and submitted. *)
Definition firstSubmission : list Event := [UserTypes sampleGreeting; Submit].

(** Contact is made, the first message is typed out, and the user types
    again. *)
Definition contactMade : list Event :=
  firstSubmission ++ firstMessageEvents 0 sampleProfile ++ [UserTypes sampleQuestion].

(** The second message is submitted and sent. *)
Definition secondSubmission : list Event :=
  contactMade ++ [Submit; Settle 1 TimerElapsed].

(** The state a run of the sample leads to. *)
Definition sampleState (es : list Event) : State :=
  default initial (run sampleRandom initial es).

(** Reduce the projections of a state that is built by the functions above. *)
Ltac proj :=
  cbn [session transcript form signal portrait requests draws pending
       with_session with_transcript with_form set_signal with_portrait call
       set_draws with_pending elements created chatHistory
       isFirstMessage chat npcProfile isGenerating
       set_isFirstMessage set_chat set_npcProfile set_isGenerating
       updateElement finishStreaming addFirstNpcReplyClass
       generateNpcImage addMessageToUI setLoading
       fst snd] in *.

(** ** The turns of the page, one by one *)

Definition isGenerateImages (r : Request) : bool :=
  match r with
  | GenerateImages _ => true
  | _ => false
  end.

Definition isAwaitingImage (k : Continuation) : bool :=
  match k with
  | AwaitingImage => true
  | _ => false
  end.

(** The suspended runs of [generateNpcImage]. *)
Definition imageFlows (ks : list Continuation) : list Continuation :=
  filter (fun k => isAwaitingImage k) ks.

(** [chatInput.value = value], by the user or by line 270. *)
Definition setInputValue (value : jsstring) (s : State) : State :=
  with_form (fun f =>
    {| inputValue := value; inputDisabled := inputDisabled f;
       inputPlaceholder := inputPlaceholder f;
       buttonDisabled := buttonDisabled f |}) s.

Section Turns.

Variable random : nat -> Q.

(** Lines 269-270: the accepted input is shown and the input is cleared. *)
Definition echo (userInput : jsstring) (s : State) : State :=
  setInputValue [] (addMessageToUI userInput user false s).2.

(** [chatHistory.removeChild(element)] when the element is a child. *)
Definition removed (element : nat) (s : State) : State :=
  with_transcript (fun t =>
    {| elements := elements t;
       created := created t;
       chatHistory := filter (fun x => x ≠ element) (chatHistory t) |}) s.

(** Lines 157-196 when the profile is there and the placeholder is still a
    child of the history: the element the first message is typed into, and
    the state in which the loop of line 200 is entered. *)
Definition contact (statusMessage : nat) (profile : NpcProfile) (s : State)
    : nat * State :=
  let s := set_signal SignalEmpty s in
  let s := with_session (set_npcProfile (Some profile)) s in
  let s := removed statusMessage s in
  let s := generateNpcImage (image_prompt profile) s in
  let systemInstruction := systemInstructionFor profile in
  let session0 :=
    {| chatId := length (requests s);
       chatSystemInstruction := systemInstruction |} in
  let s := call (ChatsCreate systemInstruction) s in
  let s := with_session (set_chat (Some session0)) s in
  let s := with_session (set_isFirstMessage false) s in
  let '(firstMessageElement, s) := addMessageToUI [] npc true s in
  (firstMessageElement, addFirstNpcReplyClass firstMessageElement s).

(** A turn of the loop over the first message, resumed at index [i]. *)
Inductive typed_first (i statusMessage element : nat) (s : State)
    : list jsstring -> State -> Prop :=
  | typed_first_char c rest d s1 :
      typeCharacter random element c s = Some (d, s1) ->
      textFlows (<[i := TypingFirstMessage statusMessage element rest d]> (pending s))
      = [TypingFirstMessage statusMessage element rest d] ->
      typed_first i statusMessage element s (c :: rest)
        (with_pending
           (fun ks => <[i := TypingFirstMessage statusMessage element rest d]> ks) s1)
  | typed_first_end :
      textFlows (delete i (pending s)) = [] ->
      typed_first i statusMessage element s []
        (setLoading false (with_pending (delete i) (finishStreaming element s))).

(** A turn of the loop over the characters of a chunk. *)
Inductive typed_chunk (i element : nat) (s : State)
    : list jsstring -> State -> Prop :=
  | typed_chunk_char c rest d s1 :
      typeCharacter random element c s = Some (d, s1) ->
      textFlows (<[i := TypingChunk element rest d]> (pending s))
      = [TypingChunk element rest d] ->
      typed_chunk i element s (c :: rest)
        (with_pending (fun ks => <[i := TypingChunk element rest d]> ks) s1)
  | typed_chunk_end :
      textFlows (<[i := AwaitingChunk element]> (pending s)) = [AwaitingChunk element] ->
      typed_chunk i element s []
        (with_pending (fun ks => <[i := AwaitingChunk element]> ks) s).

(** The text flow [k] is suspended at index [i], and is the only one. *)
Definition flowing (s : State) (i : nat) (k : Continuation) : Prop :=
  pending s !! i = Some k
  /\ textFlows (pending s) = [k]
  /\ isGenerating (session s) = true.

(** What a turn of the event loop does in a state that satisfies the
    invariants: the branches that a missing cursor, a missing placeholder
    or a missing chat session would open are left out. *)
Inductive turn (s : State) : Event -> State -> Prop :=
  | turn_types value :
      turn s (UserTypes value) (setInputValue value s)
  | turn_busy :
      isGenerating (session s) = true ->
      turn s Submit s
  | turn_blank :
      isGenerating (session s) = false ->
      JsString.trim (inputValue (form s)) = [] ->
      turn s Submit s
  | turn_first userInput :
      isGenerating (session s) = false ->
      textFlows (pending s) = [] ->
      JsString.trim (inputValue (form s)) = userInput ->
      userInput <> [] ->
      isFirstMessage (session s) = true ->
      textFlows (pending s ++ [AwaitingProfile (S (created (transcript s)))])
      = [AwaitingProfile (S (created (transcript s)))] ->
      turn s Submit
        (generateNpcAndStartChat userInput (set_signal SignalVines (echo userInput s)))
  | turn_say userInput c :
      isGenerating (session s) = false ->
      textFlows (pending s) = [] ->
      JsString.trim (inputValue (form s)) = userInput ->
      userInput <> [] ->
      isFirstMessage (session s) = false ->
      chat (session s) = Some c ->
      textFlows
        (pending s ++ [Thinking userInput (getThinkingTime random userInput (draws s)).1])
      = [Thinking userInput (getThinkingTime random userInput (draws s)).1] ->
      turn s Submit
        (with_pending
           (fun ks => ks ++ [Thinking userInput (getThinkingTime random userInput (draws s)).1])
           (set_draws (getThinkingTime random userInput (draws s)).2
              (setLoading true (echo userInput s))))
  | turn_profile_failed i statusMessage r :
      flowing s i (AwaitingProfile statusMessage) ->
      isFirstMessage (session s) = true ->
      statusMessage ∈ chatHistory (transcript s) ->
      r = GenerateContentRejected \/ r = GenerateContentFulfilled SyntaxError ->
      textFlows (delete i (pending s)) = [] ->
      turn s (Settle i r)
        (setLoading false
           (addMessageToUI connectionLostText npc false
              (removed statusMessage
                 (set_signal SignalEmpty (with_pending (delete i) s)))).2)
  | turn_contact i statusMessage profile s' :
      flowing s i (AwaitingProfile statusMessage) ->
      isFirstMessage (session s) = true ->
      statusMessage ∈ chatHistory (transcript s) ->
      typed_first i statusMessage (contact statusMessage profile s).1
        (contact statusMessage profile s).2
        (JsString.chars (first_message profile)) s' ->
      turn s (Settle i (GenerateContentFulfilled (Parsed profile))) s'
  | turn_first_typed i statusMessage element rest delay s' :
      flowing s i (TypingFirstMessage statusMessage element rest delay) ->
      isFirstMessage (session s) = false ->
      typed_first i statusMessage element s rest s' ->
      turn s (Settle i TimerElapsed) s'
  | turn_thought i userInput thinkingTime c :
      flowing s i (Thinking userInput thinkingTime) ->
      isFirstMessage (session s) = false ->
      chat (session s) = Some c ->
      textFlows (<[i := AwaitingStream]> (pending s)) = [AwaitingStream] ->
      turn s (Settle i TimerElapsed)
        (with_pending (fun ks => <[i := AwaitingStream]> ks)
           (call (SendMessageStream c userInput) s))
  | turn_stream_open i :
      flowing s i AwaitingStream ->
      isFirstMessage (session s) = false ->
      textFlows (<[i := AwaitingChunk (created (transcript s))]> (pending s))
      = [AwaitingChunk (created (transcript s))] ->
      turn s (Settle i SendMessageStreamFulfilled)
        (with_pending (fun ks => <[i := AwaitingChunk (created (transcript s))]> ks)
           (addMessageToUI [] npc true s).2)
  | turn_stream_refused i :
      flowing s i AwaitingStream ->
      isFirstMessage (session s) = false ->
      textFlows (delete i (pending s)) = [] ->
      turn s (Settle i SendMessageStreamRejected)
        (setLoading false (handleChatSubmit_catch (with_pending (delete i) s)))
  | turn_chunk i element text s' :
      flowing s i (AwaitingChunk element) ->
      isFirstMessage (session s) = false ->
      typed_chunk i element s (JsString.chars text) s' ->
      turn s (Settle i (StreamYields text)) s'
  | turn_stream_done i element :
      flowing s i (AwaitingChunk element) ->
      isFirstMessage (session s) = false ->
      textFlows (delete i (pending s)) = [] ->
      turn s (Settle i StreamDone)
        (setLoading false (with_pending (delete i) (finishStreaming element s)))
  | turn_stream_broken i element :
      flowing s i (AwaitingChunk element) ->
      isFirstMessage (session s) = false ->
      textFlows (delete i (pending s)) = [] ->
      turn s (Settle i StreamRejected)
        (setLoading false (handleChatSubmit_catch (with_pending (delete i) s)))
  | turn_chunk_typed i element rest delay s' :
      flowing s i (TypingChunk element rest delay) ->
      isFirstMessage (session s) = false ->
      typed_chunk i element s rest s' ->
      turn s (Settle i TimerElapsed) s'
  | turn_image i r :
      pending s !! i = Some AwaitingImage ->
      textFlows (delete i (pending s)) = textFlows (pending s) ->
      turn s (Settle i r)
        (generateNpcImage_resume
           match r with
           | GenerateImagesFulfilled generatedImages => Some generatedImages
           | _ => None
           end
           (with_pending (delete i) s)).

End Turns.


(** ** What the form, the signal and the portrait show *)

(** The text flows of [generateNpcAndStartChat]; the others are those of
    the dialogue branch of [handleChatSubmit]. *)
Definition contactFlow (k : Continuation) : bool :=
  match k with
  | AwaitingProfile _ | TypingFirstMessage _ _ _ _ => true
  | _ => false
  end.

Definition form_locked (s : State) : Prop :=
  inputDisabled (form s) = isGenerating (session s)
  /\ buttonDisabled (form s) = isGenerating (session s).

Definition placeholder_ok (s : State) : Prop :=
  match textFlows (pending s) with
  | [k] =>
      inputPlaceholder (form s) = if contactFlow k then connectingText else listeningText
  | _ =>
      if isFirstMessage (session s)
      then requests s = [] \/ inputPlaceholder (form s) = sayAnythingText
      else inputPlaceholder (form s) = carryOnText
  end.

Definition signal_ok (s : State) : Prop :=
  match textFlows (pending s) with
  | [AwaitingProfile _] => signal s = SignalVines
  | [] =>
      if isFirstMessage (session s)
      then signal s = SignalEmpty \/ (signal s = SignalMarkup /\ requests s = [])
      else signal s = SignalEmpty
  | _ => signal s = SignalEmpty
  end.

(** The three states of the portrait region once an image was asked for. *)
Definition loadingView : Portrait :=
  {| placeholderHidden := true; placeholderCaption := None;
     loaderHidden := false; imageHidden := true; imageSrc := None |}.

Definition imageView (base64ImageBytes : jsstring) : Portrait :=
  {| placeholderHidden := true; placeholderCaption := None;
     loaderHidden := true; imageHidden := false;
     imageSrc := Some (imageUrl base64ImageBytes) |}.

Definition failedView : Portrait :=
  {| placeholderHidden := false; placeholderCaption := Some portraitFailedText;
     loaderHidden := true; imageHidden := true; imageSrc := None |}.

Definition portrait_ok (s : State) : Prop :=
  if isFirstMessage (session s)
  then imageFlows (pending s) = [] /\ portrait s = portrait initial
  else match imageFlows (pending s) with
       | [] => portrait s = failedView \/ exists b, portrait s = imageView b
       | [_] => portrait s = loadingView
       | _ => False
       end.


(** ** What the calls made say about the session *)

(** The portrait request and the chat session are those of the profile. *)
Definition contact_ok (s : State) : Prop :=
  match npcProfile (session s) with
  | None =>
      chat (session s) = None
      /\ filter (fun r => isGenerateImages r) (requests s) = []
      /\ filter (fun r => isChatsCreate r) (requests s) = []
  | Some p =>
      (exists c, chat (session s) = Some c
                 /\ chatSystemInstruction c = systemInstructionFor p)
      /\ filter (fun r => isGenerateImages r) (requests s)
         = [GenerateImages (enhancedPrompt (image_prompt p))]
      /\ filter (fun r => isChatsCreate r) (requests s)
         = [ChatsCreate (systemInstructionFor p)]
  end.

(** ** The timers that are set *)

Definition timer_ok (k : Continuation) : Prop :=
  match k with
  | TypingFirstMessage _ _ _ delay | TypingChunk _ _ delay => (50 <= delay <= 700)%Q
  | Thinking _ thinkingTime => (600 <= thinkingTime <= 4000)%Q
  | _ => True
  end.

Definition timers_ok (s : State) : Prop := Forall timer_ok (pending s).

(** ** The user's side of the history *)

(** The text of the element [x] when it is a message of the user. *)
Definition userText (els : gmap nat MessageElement) (x : nat) : option jsstring :=
  m ← els !! x;
  match sender m with
  | user => Some (textContent (paragraph m))
  | npc => None
  end.

(** The messages of the user that the history shows, in document order. *)
Definition userTexts (t : Transcript) : list jsstring :=
  omap (userText (elements t)) (chatHistory t).

(** What a turn adds to them: the trimmed input of a submission that is
    neither made while busy nor blank. *)
Definition acceptedAt (s : State) (e : Event) : list jsstring :=
  match e with
  | Submit =>
      if isGenerating (session s) then []
      else match JsString.trim (inputValue (form s)) with
           | [] => []
           | userInput => [userInput]
           end
  | _ => []
  end.

(** The submissions accepted along a run. *)
Fixpoint accepted (random : nat -> Q) (s : State) (es : list Event) : list jsstring :=
  match es with
  | [] => []
  | e :: es' =>
      match step random s e with
      | Some s' => acceptedAt s e ++ accepted random s' es'
      | None => []
      end
  end.

Definition no_user_cursor (els : gmap nat MessageElement) : Prop :=
  forall x m, els !! x = Some m -> sender m = user -> CursorSpan ∉ paragraph m.

(** Messages of the user carry no cursor, and the placeholder awaited with
    the profile is a message of the character. *)
Definition senders_ok (s : State) : Prop :=
  no_user_cursor (elements (transcript s))
  /\ match textFlows (pending s) with
     | [AwaitingProfile statusMessage] =>
         exists m, elements (transcript s) !! statusMessage = Some m /\ sender m = npc
     | _ => True
     end.


(** The characters a typing loop still has to type are characters. *)
Definition characters_ok (k : Continuation) : Prop :=
  match k with
  | TypingFirstMessage _ _ rest _ | TypingChunk _ rest _ => Forall isCharacter rest
  | _ => True
  end.


(** The strings that ".?!" includes: its substrings, the empty one among
    them. *)
Definition sentenceEndSubstrings : list jsstring :=
  Eval vm_compute in
    [] :: map JsString.lit ["."; "?"; "!"; ".?"; "?!"; ".?!"]%string.

(** ** Messages that are complete *)

(** Every element of [els] that has no cursor is in [els'] with the same
    sender and the same children. *)
Definition complete_kept (els els' : gmap nat MessageElement) : Prop :=
  forall x m, els !! x = Some m -> CursorSpan ∉ paragraph m ->
    exists m', els' !! x = Some m' /\ sender m' = sender m /\ paragraph m' = paragraph m.


(** ** The calls of a turn *)

(** The calls that a turn makes on the service client: the profile request
    of a first submission, the image request and the creation of the chat
    session when the profile arrives, and the message sent when a thinking
    time is over. *)
Definition callsOf (s : State) (e : Event) : list Request :=
  match e with
  | UserTypes _ => []
  | Submit =>
      if isGenerating (session s) then []
      else match JsString.trim (inputValue (form s)) with
           | [] => []
           | userInput =>
               if isFirstMessage (session s)
               then [GenerateContent (npcGenerationPrompt userInput)]
               else []
           end
  | Settle i r =>
      match pending s !! i, r with
      | Some (AwaitingProfile _), GenerateContentFulfilled (Parsed profile) =>
          [GenerateImages (enhancedPrompt (image_prompt profile));
           ChatsCreate (systemInstructionFor profile)]
      | Some (Thinking userInput _), TimerElapsed =>
          match chat (session s) with
          | Some c => [SendMessageStream c userInput]
          | None => []
          end
      | _, _ => []
      end
  end.

(** ** More sample runs *)

(** The profile has arrived and the first message is being typed. *)
Definition firstTyping : list Event :=
  firstSubmission ++ [Settle 0 (GenerateContentFulfilled (Parsed sampleProfile))].

(** The reply to the second message has yielded one chunk, which is typed
    out, and the next chunk is awaited. *)
Definition replyStarted : list Event :=
  secondSubmission
  ++ [Settle 1 SendMessageStreamFulfilled; Settle 1 (StreamYields sampleName);
      Settle 1 TimerElapsed; Settle 1 TimerElapsed].

(** ** White space around an input *)

(** Only white space, or nothing at all. *)
Definition isBlank (s : jsstring) : bool := forallb JsString.isWhiteSpace s.

(** Not empty, and no white space at either end. *)
Definition hasNoOuterSpace (s : jsstring) : bool :=
  match s, rev s with
  | u :: _, v :: _ => negb (JsString.isWhiteSpace u) && negb (JsString.isWhiteSpace v)
  | _, _ => false
  end.

(** A space, a tab, a line feed and an ideographic space. *)
Definition sampleBlank : jsstring := [0x20; 0x09; 0x0A; 0x3000]%N.

(** [sampleGreeting] without the spaces around it. *)
Definition sampleHello : jsstring := Eval vm_compute in JsString.lit "你好".

(** [sampleQuestion] after a line feed and a space, and before an
    ideographic space. *)
Definition spacedQuestion : jsstring :=
  Eval vm_compute in ([0x0A; 0x20]%N ++ sampleQuestion ++ [0x3000]%N).

(** White space is typed on the page just loaded. *)
Definition blankTyped : list Event := [UserTypes sampleBlank].

(** The first message is typed in, not yet submitted. *)
Definition greetingTyped : list Event := [UserTypes sampleGreeting].

(** Contact is made, and the user types a question with white space around
    it. *)
Definition spacedQuestionTyped : list Event :=
  firstSubmission ++ firstMessageEvents 0 sampleProfile ++ [UserTypes spacedQuestion].

(** * Properties *)

(** ** Examples of the string functions *)

Example lit_ascii : JsString.lit ".?!" = [46; 63; 33]%N.
Proof. reflexivity. Qed.

Example lit_cjk : JsString.lit "你好" = [0x4F60; 0x597D]%N.
Proof. reflexivity. Qed.

Example trim_example :
  JsString.trim (JsString.lit "  你 好
 ") = [0x4F60; 0x20; 0x597D]%N.
Proof. reflexivity. Qed.

Example chars_pair :
  JsString.chars (JsString.lit "a😀b") = [[97]; [0xD83D; 0xDE00]; [98]]%N.
Proof. reflexivity. Qed.

(** ** Lists of continuations and of calls *)

Section ListFacts.

Context {A : Type} (P : A -> Prop) `{forall x, Decision (P x)}.

Lemma filter_unit_split (l1 l2 : list A) (x : A) :
  P x -> filter P (l1 ++ x :: l2) = [x] -> filter P l1 = [] /\ filter P l2 = [].
Proof.
  intros Hx. rewrite filter_app, filter_cons_True by done.
  intros Heq. destruct (filter P l1) as [|a l]; simpl in Heq.
  - by inversion Heq.
  - inversion Heq as [[Ha Hl]]. by destruct l.
Qed.

Lemma filter_insert_unit (l : list A) (i : nat) (x y : A) :
  l !! i = Some x -> P x -> P y -> filter P l = [x] -> filter P (<[i:=y]> l) = [y].
Proof.
  intros Hi Hx Hy Hf.
  rewrite insert_take_drop by (by eapply lookup_lt_Some).
  rewrite <- (take_drop_middle l i x Hi) in Hf.
  apply filter_unit_split in Hf as [H1 H2]; [|done].
  by rewrite filter_app, filter_cons_True, H1, H2.
Qed.

Lemma filter_delete_unit (l : list A) (i : nat) (x : A) :
  l !! i = Some x -> P x -> filter P l = [x] -> filter P (delete i l) = [].
Proof.
  intros Hi Hx Hf.
  rewrite delete_take_drop.
  rewrite <- (take_drop_middle l i x Hi) in Hf.
  apply filter_unit_split in Hf as [H1 H2]; [|done].
  by rewrite filter_app, H1, H2.
Qed.

Lemma filter_delete_other (l : list A) (i : nat) (x : A) :
  l !! i = Some x -> ~ P x -> filter P (delete i l) = filter P l.
Proof.
  intros Hi Hx.
  rewrite delete_take_drop.
  rewrite <- (take_drop_middle l i x Hi) at 3.
  by rewrite !filter_app, filter_cons_False.
Qed.

Lemma filter_snoc_other (l : list A) (y : A) :
  ~ P y -> filter P (l ++ [y]) = filter P l.
Proof.
  intros Hy. rewrite filter_app, filter_cons_False by done.
  by rewrite filter_nil, app_nil_r.
Qed.

Lemma filter_snoc_unit (l : list A) (y : A) :
  P y -> filter P l = [] -> filter P (l ++ [y]) = [y].
Proof.
  intros Hy Hl. by rewrite filter_app, Hl, filter_cons_True.
Qed.

End ListFacts.

(** ** The invariants hold in every reachable state *)

Section TranscriptFacts.

Lemma numbered_added els n history (m : MessageElement) :
  numbered els n history -> numbered (<[n := m]> els) (S n) (history ++ [n]).
Proof.
  intros [Hh He]. split; intros x.
  - rewrite elem_of_app, list_elem_of_singleton.
    intros [Hx | ->]; [apply Hh in Hx|]; lia.
  - rewrite lookup_insert. case_decide; [lia|].
    intros Hx. apply He in Hx. lia.
Qed.

Lemma numbered_removed els n history (e : nat) :
  numbered els n history -> numbered els n (filter (fun x => x ≠ e) history).
Proof.
  intros [Hh He]. split; [|done].
  intros x [_ Hx]%list_elem_of_filter. by apply Hh.
Qed.

Lemma numbered_updated els n history (e : nat) (m : MessageElement) :
  numbered els n history -> is_Some (els !! e) -> numbered (<[e := m]> els) n history.
Proof.
  intros [Hh He] Hm. split; [done|].
  intros x. rewrite lookup_insert. case_decide; [subst; auto|auto].
Qed.

Lemma numbered_altered els n history (e : nat) (f : MessageElement -> MessageElement) :
  numbered els n history -> numbered (alter f e els) n history.
Proof.
  intros [Hh He]. split; [done|].
  intros x. rewrite lookup_alter_is_Some. apply He.
Qed.

Lemma insertBefore_cursor (n : Node) (children : list Node) :
  CursorSpan ∈ children ->
  exists cs, insertBefore n CursorSpan children = Some cs /\ CursorSpan ∈ cs.
Proof.
  induction children as [|c rest IH]; [by intros ?%elem_of_nil|].
  intros Hin. cbn. case_decide as Hc.
  - eexists. split; [done|]. subst c. apply elem_of_cons. right. by left.
  - apply elem_of_cons in Hin as [Hin|Hin]; [congruence|].
    destruct (IH Hin) as (cs & -> & Hcs). eexists. split; [done|]. by right.
Qed.

Lemma insertBefore_Some_cursor (n : Node) (children cs : list Node) :
  insertBefore n CursorSpan children = Some cs -> CursorSpan ∈ cs.
Proof.
  revert cs. induction children as [|c rest IH]; intros cs; cbn; [done|].
  case_decide as Hc.
  - intros [= <-]. subst c. apply elem_of_cons. right. by left.
  - destruct (insertBefore n CursorSpan rest) as [cs'|] eqn:E; [|done].
    cbn. intros [= <-]. specialize (IH _ eq_refl). by right.
Qed.

End TranscriptFacts.

Section InvFacts.

Variable random : nat -> Q.

Lemma busy_lookup x t ks i k :
  inv_busy x t ks -> ks !! i = Some k -> isTextFlow k = true ->
  textFlows ks = [k] /\ isGenerating x = true /\ flow_ok (isFirstMessage x) t k.
Proof.
  unfold inv_busy. intros Hb Hi Hk.
  assert (k ∈ textFlows ks) as Hin.
  { apply list_elem_of_filter. split; [by rewrite Hk|]. by eapply list_elem_of_lookup_2. }
  destruct (textFlows ks) as [|k' [|k'' l]]; [by apply elem_of_nil in Hin| |done].
  apply list_elem_of_singleton in Hin as ->. by destruct Hb.
Qed.

Lemma idle_no_text_flow x t ks :
  inv_busy x t ks -> isGenerating x = false -> textFlows ks = [].
Proof.
  unfold inv_busy. destruct (textFlows ks) as [|k [|k' l]]; [done| |done].
  intros [Hg _] Hg'. congruence.
Qed.

Lemma inv_session_busy x rs b :
  inv_session x rs -> inv_session (set_isGenerating b x) rs.
Proof. unfold inv_session. cbn. by destruct (isFirstMessage x). Qed.

Lemma generateNpcAndStartChat_catch_ok statusMessage :
  catch_ok (generateNpcAndStartChat_catch statusMessage).
Proof.
  intros s Ht. unfold generateNpcAndStartChat_catch, removeChild.
  case_decide; proj; cbn; (split; [|done]).
  - by apply numbered_added, numbered_removed.
  - by apply numbered_added.
Qed.

Lemma handleChatSubmit_catch_ok : catch_ok handleChatSubmit_catch.
Proof.
  intros s Ht. unfold handleChatSubmit_catch. cbn. split; [|done].
  by apply numbered_added.
Qed.

Lemma conclude_inv i k catch r :
  mid_ok i k r -> catch_ok catch -> isTextFlow k = true ->
  Inv (conclude i catch (setLoading false) r).
Proof.
  destruct r as [s1 o]. unfold mid_ok. cbn [fst snd].
  intros (Ht & Hs & Hg & Hf & Hi & Ho) Hc Hk. unfold conclude.
  destruct o as [k'| |].
  - destruct Ho as [Hk' Hok]. split; proj; [done|done|].
    unfold inv_busy, textFlows.
    rewrite (filter_insert_unit _ _ i k k'); [done|done|by rewrite Hk|by rewrite Hk'|done].
  - split; cbn.
    + done.
    + by apply (inv_session_busy _ _ false).
    + unfold inv_busy, textFlows.
      by rewrite (filter_delete_unit _ _ i k); [|done|by rewrite Hk|done].
  - destruct (Hc (with_pending (delete i) s1)) as (Ht' & Hs' & Hr' & Hp'); [done|].
    split; cbn.
    + done.
    + rewrite Hs', Hr'. by apply (inv_session_busy _ _ false).
    + rewrite Hp'. unfold inv_busy, textFlows. cbn.
      by rewrite (filter_delete_unit _ _ i k); [|done|by rewrite Hk|done].
Qed.

Lemma typeCharacter_Some e c s d s' :
  typeCharacter random e c s = Some (d, s') ->
  exists m cs,
    elements (transcript s) !! e = Some m
    /\ insertBefore (TextNode c) CursorSpan (paragraph m) = Some cs
    /\ s' = set_draws (getTypingDelay random c (draws s)).2
              (updateElement e
                 {| sender := sender m; streaming := streaming m;
                    firstNpcReply := firstNpcReply m; paragraph := cs |} s).
Proof.
  unfold typeCharacter.
  destruct (elements (transcript s) !! e) as [m|] eqn:Em; [|done]. cbn.
  destruct (insertBefore (TextNode c) CursorSpan (paragraph m)) as [cs|] eqn:Ec; [|done].
  cbn. intros [= <- <-]. by exists m, cs.
Qed.

Lemma typeCharacter_frame e c s d s' :
  typeCharacter random e c s = Some (d, s') ->
  session s' = session s /\ requests s' = requests s /\ pending s' = pending s
  /\ (inv_transcript (transcript s) -> inv_transcript (transcript s'))
  /\ cursorIn (elements (transcript s')) e.
Proof.
  intros (m & cs & Em & Ec & ->)%typeCharacter_Some. proj.
  split; [done|]. split; [done|]. split; [done|]. split.
  - intros Ht. by apply numbered_updated.
  - eexists. cbn [elements]. rewrite lookup_insert_eq. split; [done|]. cbn.
    by eapply insertBefore_Some_cursor.
Qed.

Lemma firstMessageLoop_mid i k statusMessage element chars s :
  loop_entry i k element s ->
  mid_ok i k (firstMessageLoop random statusMessage element chars s).
Proof.
  intros (Ht & Hs & Hg & Hf & Hi & Hfirst & Hc). unfold firstMessageLoop.
  destruct chars as [|c rest].
  - unfold mid_ok. proj. split; [by apply numbered_altered|]. auto 10.
  - destruct (typeCharacter random element c s) as [[d s']|] eqn:E.
    + apply typeCharacter_frame in E as (Es & Er & Ep & Et & Ec).
      unfold mid_ok. cbn [fst snd]. rewrite Es, Er, Ep, Hfirst.
      cbn [isTextFlow flow_ok]. auto 10.
    + unfold mid_ok. cbn [fst snd]. auto 10.
Qed.

Lemma chunkLoop_mid i k element chars s :
  loop_entry i k element s ->
  mid_ok i k (chunkLoop random element chars s).
Proof.
  intros (Ht & Hs & Hg & Hf & Hi & Hfirst & Hc). unfold chunkLoop.
  destruct chars as [|c rest].
  - unfold mid_ok. cbn [fst snd isTextFlow flow_ok]. rewrite Hfirst. auto 10.
  - destruct (typeCharacter random element c s) as [[d s']|] eqn:E.
    + apply typeCharacter_frame in E as (Es & Er & Ep & Et & Ec).
      unfold mid_ok. cbn [fst snd]. rewrite Es, Er, Ep, Hfirst.
      cbn [isTextFlow flow_ok]. auto 10.
    + unfold mid_ok. cbn [fst snd]. auto 10.
Qed.

Lemma count_snoc p rs r :
  count p (rs ++ [r]) = count p rs + (if p r then 1 else 0).
Proof.
  unfold count. rewrite filter_app, length_app. f_equal.
  destruct (p r) eqn:E.
  - rewrite filter_cons_True; [done|]. by apply Is_true_true.
  - rewrite filter_cons_False; [done|]. by apply Is_true_false.
Qed.

Lemma generateNpcAndStartChat_try_mid i statusMessage r s :
  Inv s -> pending s !! i = Some (AwaitingProfile statusMessage) ->
  mid_ok i (AwaitingProfile statusMessage)
    (generateNpcAndStartChat_try random statusMessage r s).
Proof.
  intros [Ht Hs Hb] Hi.
  destruct (busy_lookup _ _ _ _ _ Hb Hi eq_refl) as (Hf & Hg & Hfirst & Hin).
  unfold inv_session in Hs. rewrite Hfirst in Hs. destruct Hs as (Hchat & Hprof & Hcount).
  assert (inv_session (session s) (requests s)) as Hs.
  { unfold inv_session. by rewrite Hfirst. }
  unfold generateNpcAndStartChat_try.
  destruct r as [[|profile]|];
    [unfold mid_ok; proj; auto 10| |unfold mid_ok; proj; auto 10].
  unfold removeChild. proj. rewrite decide_True by done.
  cbn [generateNpcImage addMessageToUI addFirstNpcReplyClass]. proj.
  apply firstMessageLoop_mid. unfold loop_entry. proj.
  split.
  { by apply numbered_altered, numbered_added, numbered_removed. }
  split.
  { unfold inv_session. proj. rewrite !count_snoc, Hcount. cbn [isChatsCreate].
    eauto. }
  split; [done|]. split.
  { unfold textFlows in *. rewrite filter_snoc_other; [done|cbn; tauto]. }
  split; [by apply lookup_app_l_Some|]. split; [done|].
  eexists. cbn [elements]. rewrite lookup_alter_eq, lookup_insert_eq. cbn.
  split; [done|]. apply list_elem_of_singleton. done.
Qed.

Lemma text_flow_entry i k s :
  Inv s -> pending s !! i = Some k -> isTextFlow k = true ->
  inv_transcript (transcript s)
  /\ inv_session (session s) (requests s)
  /\ isGenerating (session s) = true
  /\ textFlows (pending s) = [k]
  /\ pending s !! i = Some k
  /\ flow_ok (isFirstMessage (session s)) (transcript s) k.
Proof.
  intros [Ht Hs Hb] Hi Hk.
  destruct (busy_lookup _ _ _ _ _ Hb Hi Hk) as (Hf & Hg & Hok). auto 10.
Qed.

Lemma sendMessage_mid i k userInput s :
  Inv s -> pending s !! i = Some k -> isTextFlow k = true ->
  isFirstMessage (session s) = false ->
  mid_ok i k (sendMessage userInput s).
Proof.
  intros HI Hi Hk Hfirst.
  destruct (text_flow_entry _ _ _ HI Hi Hk) as (Ht & Hs & Hg & Hf & _ & Hok).
  unfold sendMessage. destruct (chat (session s)) as [c|].
  - unfold mid_ok. proj. rewrite Hfirst. cbn [isTextFlow flow_ok].
    split; [done|]. split; [|auto 10].
    unfold inv_session in *. rewrite Hfirst in *. by rewrite count_snoc, Nat.add_0_r.
  - unfold mid_ok. proj. auto 10.
Qed.

Lemma openReply_mid i k s :
  Inv s -> pending s !! i = Some k -> isTextFlow k = true ->
  isFirstMessage (session s) = false ->
  mid_ok i k (openReply s).
Proof.
  intros HI Hi Hk Hfirst.
  destruct (text_flow_entry _ _ _ HI Hi Hk) as (Ht & Hs & Hg & Hf & _ & Hok).
  unfold openReply, mid_ok. proj. rewrite Hfirst. cbn [isTextFlow flow_ok].
  split; [by apply numbered_added|]. do 5 (split; [done|]). split; [done|].
  proj. unfold cursorIn. eexists. rewrite lookup_insert_eq. split; [done|]. cbn.
  apply list_elem_of_singleton. done.
Qed.

Lemma resume_inv i k r s s' :
  Inv s -> pending s !! i = Some k -> resume random i k r s = Some s' -> Inv s'.
Proof.
  intros HI Hi.
  destruct k; destruct r; unfold resume; try done;
    (intros Heq; apply (inj Some) in Heq; subst s');
    try (destruct (text_flow_entry _ _ _ HI Hi eq_refl)
           as (Ht & Hs & Hg & Hf & _ & Hok); cbn [flow_ok] in Hok);
    try (eapply conclude_inv;
         [|first [apply generateNpcAndStartChat_catch_ok|apply handleChatSubmit_catch_ok]|];
         [first
            [ by apply generateNpcAndStartChat_try_mid
            | by apply sendMessage_mid
            | by apply openReply_mid
            | apply firstMessageLoop_mid; unfold loop_entry; destruct Hok; by auto 10
            | apply chunkLoop_mid; unfold loop_entry; destruct Hok; by auto 10
            | unfold mid_ok; proj; split; [by apply numbered_altered|]; by auto 10
            | unfold mid_ok; proj; by auto 10 ]
         |done]).
  - destruct HI as [Ht Hs Hb]. unfold generateNpcImage_resume.
    destruct generatedImages as [|[bytes|] rest]; split; proj; try done;
      unfold inv_busy, textFlows in *;
      (rewrite (filter_delete_other _ _ i AwaitingImage); [done|done|cbn; tauto]).
  - destruct HI as [Ht Hs Hb]. unfold generateNpcImage_resume.
    split; proj; try done.
    unfold inv_busy, textFlows in *.
    rewrite (filter_delete_other _ _ i AwaitingImage); [done|done|cbn; tauto].
Qed.

Lemma handleChatSubmit_inv s : Inv s -> Inv (handleChatSubmit random s).
Proof.
  intros [Ht Hs Hb]. unfold handleChatSubmit.
  destruct (isGenerating (session s)) eqn:Hg; [by split|].
  destruct (JsString.trim (inputValue (form s))) as [|u input] eqn:Hin; [by split|].
  pose proof (idle_no_text_flow _ _ _ Hb Hg) as Hidle.
  proj. destruct (isFirstMessage (session s)) eqn:Hfirst.
  - unfold generateNpcAndStartChat. proj. split; proj.
    + by apply numbered_added, numbered_added.
    + unfold inv_session in *. proj. rewrite Hfirst in *.
      by rewrite count_snoc, Nat.add_0_r.
    + unfold inv_busy, textFlows in *. rewrite filter_snoc_unit; [|done|done].
      proj. rewrite Hfirst. cbn [flow_ok chatHistory]. split; [done|]. split; [done|].
      apply elem_of_app. right. apply list_elem_of_singleton. done.
  - destruct (chat (session s)) as [c|] eqn:Hchat.
    + unfold runRand. proj. split; proj.
      * by apply numbered_added.
      * unfold inv_session in *. proj. by rewrite Hfirst in *.
      * unfold inv_busy, textFlows in *. rewrite filter_snoc_unit; [|done|done].
        proj. by rewrite Hfirst.
    + split; proj.
      * by apply numbered_added.
      * done.
      * unfold inv_busy in *. by rewrite Hidle in *.
Qed.

Lemma step_inv s e s' : Inv s -> step random s e = Some s' -> Inv s'.
Proof.
  intros HI. destruct e as [value| |i r]; cbn [step].
  - intros [= <-]. destruct HI. by split.
  - intros [= <-]. by apply handleChatSubmit_inv.
  - destruct (pending s !! i) as [k|] eqn:Hi; [|done]. cbn.
    by apply resume_inv.
Qed.

Lemma initial_inv : Inv initial.
Proof.
  split; [|done|done].
  split; cbn [initial transcript elements created chatHistory].
  - by intros x ?%elem_of_nil.
  - intros x [m Hm]. by rewrite lookup_empty in Hm.
Qed.

Lemma reachable_inv s : reachable random s -> Inv s.
Proof.
  induction 1 as [|s e s' _ IH Hstep]; [apply initial_inv|by eapply step_inv].
Qed.

End InvFacts.

(** ** What a turn does to the contact and to the calls *)

Section EffectFacts.

Variable random : nat -> Q.

Lemma generateNpcAndStartChat_catch_frame statusMessage :
  catch_frame (generateNpcAndStartChat_catch statusMessage).
Proof.
  intros s. unfold generateNpcAndStartChat_catch, removeChild. by case_decide.
Qed.

Lemma handleChatSubmit_catch_frame : catch_frame handleChatSubmit_catch.
Proof. by intros s. Qed.

Lemma same_contact_refl s : same_contact s s.
Proof. by repeat split. Qed.

Lemma same_contact_trans s1 s2 s3 :
  same_contact s1 s2 -> same_contact s2 s3 -> same_contact s1 s3.
Proof.
  intros (H1 & H2 & H3) (H4 & H5 & H6). repeat split; congruence.
Qed.

Lemma conclude_frame i catch r :
  catch_frame catch ->
  same_contact r.1 (conclude i catch (setLoading false) r)
  /\ requests (conclude i catch (setLoading false) r) = requests r.1.
Proof.
  intros Hc. destruct r as [s1 [k| |]]; cbn [conclude fst].
  - by repeat split.
  - by repeat split.
  - destruct (Hc (with_pending (delete i) s1)) as [Hs Hr].
    unfold same_contact. proj. rewrite Hs, Hr. by repeat split.
Qed.

Lemma firstMessageLoop_frame statusMessage element chars s :
  session (firstMessageLoop random statusMessage element chars s).1 = session s
  /\ requests (firstMessageLoop random statusMessage element chars s).1 = requests s.
Proof.
  unfold firstMessageLoop. destruct chars as [|c rest]; [done|].
  destruct (typeCharacter random element c s) as [[d s']|] eqn:E; [|done].
  by apply typeCharacter_frame in E as (Es & Er & _).
Qed.

Lemma chunkLoop_frame element chars s :
  session (chunkLoop random element chars s).1 = session s
  /\ requests (chunkLoop random element chars s).1 = requests s.
Proof.
  unfold chunkLoop. destruct chars as [|c rest]; [done|].
  destruct (typeCharacter random element c s) as [[d s']|] eqn:E; [|done].
  by apply typeCharacter_frame in E as (Es & Er & _).
Qed.

Lemma same_contact_session s s' : session s' = session s -> same_contact s s'.
Proof. intros H. unfold same_contact. by rewrite H. Qed.

Lemma step_effect s e s' :
  Inv s -> step random s e = Some s' -> effect s e s'.
Proof.
  intros HI. destruct e as [value| |i r]; cbn [step].
  - intros [= <-]. by apply effect_none.
  - intros [= <-]. unfold handleChatSubmit.
    destruct (isGenerating (session s)) eqn:Hg; [by apply effect_none|].
    destruct (JsString.trim (inputValue (form s))) as [|u input] eqn:Hin;
      [by apply effect_none|].
    proj. destruct (isFirstMessage (session s)) eqn:Hfirst.
    + apply effect_profile_request; try done; try (by rewrite Hin);
        unfold same_contact, generateNpcAndStartChat; proj; by rewrite ?Hin, ?Hfirst.
    + destruct (chat (session s)); by apply effect_none.
  - destruct (pending s !! i) as [k|] eqn:Hi; [|done]. cbn [mbind option_bind].
    destruct k; destruct r; unfold resume; try done;
      (intros Heq; apply (inj Some) in Heq; subst s');
      try (destruct (text_flow_entry _ _ _ HI Hi eq_refl)
           as (Ht & Hs & Hg & Hf & _ & Hok); cbn [flow_ok] in Hok).
    + (* profile fulfilled *)
      destruct (conclude_frame i (generateNpcAndStartChat_catch statusMessage)
                  (generateNpcAndStartChat_try random statusMessage (Some parsed) s)
                  (generateNpcAndStartChat_catch_frame _)) as [Hc Hr].
      destruct Hok as [Hfirst Hin].
      destruct parsed as [|profile].
      * apply effect_none; [exact Hc|exact Hr].
      * revert Hc Hr. unfold generateNpcAndStartChat_try, removeChild. proj.
        rewrite decide_True by done. proj.
        match goal with
        | |- context [firstMessageLoop random ?a ?b ?c ?d] =>
            destruct (firstMessageLoop_frame a b c d) as [Fs Fr];
            generalize dependent (firstMessageLoop random a b c d)
        end.
        intros r Fs Fr (Hc1 & Hc2 & Hc3) Hr.
        rewrite Fs in Hc1, Hc2, Hc3. rewrite Fr in Hr. proj.
        eapply effect_contact; try done.
        -- rewrite Hc2. do 3 f_equal. rewrite length_app. cbn. lia.
        -- rewrite Hr. by rewrite <- app_assoc.
    + destruct (conclude_frame i (generateNpcAndStartChat_catch statusMessage)
                  (generateNpcAndStartChat_try random statusMessage None s)
                  (generateNpcAndStartChat_catch_frame _)) as [Hc Hr].
      by apply effect_none.
    + destruct (conclude_frame i (generateNpcAndStartChat_catch statusMessage)
                  (firstMessageLoop random statusMessage firstMessageElement rest s)
                  (generateNpcAndStartChat_catch_frame _)) as [Hc Hr].
      destruct (firstMessageLoop_frame statusMessage firstMessageElement rest s) as [Fs Fr].
      apply effect_none; [|congruence].
      eapply same_contact_trans; [|exact Hc]. by apply same_contact_session.
    + destruct (conclude_frame i handleChatSubmit_catch (sendMessage userInput s)
                  handleChatSubmit_catch_frame) as [Hc Hr].
      revert Hc Hr. unfold sendMessage.
      destruct (chat (session s)) as [c|] eqn:Hchat; cbn [fst]; intros Hc Hr.
      * eapply effect_send; try done.
      * by apply effect_none.
    + destruct (conclude_frame i handleChatSubmit_catch (openReply s)
                  handleChatSubmit_catch_frame) as [Hc Hr].
      by apply effect_none.
    + destruct (conclude_frame i handleChatSubmit_catch (s, Threw)
                  handleChatSubmit_catch_frame) as [Hc Hr].
      by apply effect_none.
    + destruct (conclude_frame i handleChatSubmit_catch
                  (chunkLoop random messageElement (JsString.chars text) s)
                  handleChatSubmit_catch_frame) as [Hc Hr].
      destruct (chunkLoop_frame messageElement (JsString.chars text) s) as [Fs Fr].
      apply effect_none; [|congruence].
      eapply same_contact_trans; [|exact Hc]. by apply same_contact_session.
    + destruct (conclude_frame i handleChatSubmit_catch
                  (finishStreaming messageElement s, Returned)
                  handleChatSubmit_catch_frame) as [Hc Hr].
      by apply effect_none.
    + destruct (conclude_frame i handleChatSubmit_catch (s, Threw)
                  handleChatSubmit_catch_frame) as [Hc Hr].
      by apply effect_none.
    + destruct (conclude_frame i handleChatSubmit_catch
                  (chunkLoop random messageElement rest s)
                  handleChatSubmit_catch_frame) as [Hc Hr].
      destruct (chunkLoop_frame messageElement rest s) as [Fs Fr].
      apply effect_none; [|congruence].
      eapply same_contact_trans; [|exact Hc]. by apply same_contact_session.
    + apply effect_none; [|by destruct generatedImages as [|[?|] ?]].
      by destruct generatedImages as [|[?|] ?].
    + by apply effect_none.
Qed.

End EffectFacts.

(** ** The delay model *)

Lemma Qltb_lt (x y : Q) : Qltb x y = true <-> (x < y)%Q.
Proof.
  unfold Qltb. rewrite negb_true_iff. split.
  - intros Hb. apply Qnot_le_lt. intros Hle. apply Qle_bool_iff in Hle. congruence.
  - intros Hlt. destruct (Qle_bool y x) eqn:E; [|done].
    apply Qle_bool_iff in E. exfalso. by apply (Qlt_not_le x y).
Qed.

Lemma Qltb_ge (x y : Q) : Qltb x y = false <-> (y <= x)%Q.
Proof.
  unfold Qltb. rewrite negb_false_iff. apply Qle_bool_iff.
Qed.


Lemma isCharacter_cases (c : jsstring) :
  isCharacter c ->
  (exists u, c = [u])
  \/ (exists h l, c = [h; l] /\ JsString.isHighSurrogate h = true).
Proof.
  unfold isCharacter. destruct c as [|u [|v rest]]; cbn [JsString.chars].
  - done.
  - intros _. left. by exists u.
  - destruct (JsString.isHighSurrogate u) eqn:Hh; cbn [andb].
    + destruct (JsString.isLowSurrogate v); [|by intros [= ?]].
      intros [= Heq]. right. exists u, v. split; [|done].
      destruct rest; [done|]. by destruct rest.
    + by intros [= ?].
Qed.

Lemma sentenceEnd_includes (c : jsstring) :
  isCharacter c ->
  JsString.includes sentenceEnd c = true <->
  c = fullStop \/ c = questionMark \/ c = exclamationMark.
Proof.
  unfold fullStop, questionMark, exclamationMark.
  intros [[u ->]|(h & l & -> & Hh)]%isCharacter_cases.
  - cbn. destruct (N.eqb_spec u 46), (N.eqb_spec u 63), (N.eqb_spec u 33);
      subst; cbn; split; intros; try done; try (by auto); try (by intuition congruence).
  - unfold JsString.isHighSurrogate in Hh.
    apply andb_true_iff in Hh as [Hlo _]. apply N.leb_le in Hlo.
    cbn. destruct (N.eqb_spec h 46), (N.eqb_spec h 63), (N.eqb_spec h 33);
      try lia. cbn. split; [done|]. intros [|[|]]; congruence.
Qed.

(** ** Rounding to binary64 *)

Section RoundingFacts.

Import Binary64.

Lemma roundHalfEven_bounds (q : Q) :
  (Qfloor q <= roundHalfEven q <= Qfloor q + 1)%Z.
Proof.
  unfold roundHalfEven. cbv zeta.
  destruct (Qcompare (q - inject_Z (Qfloor q)) (1 # 2)); [destruct (Z.even (Qfloor q))| |]; lia.
Qed.

Lemma roundHalfEven_Z (n : Z) : roundHalfEven (inject_Z n) = n.
Proof.
  unfold roundHalfEven. cbv zeta. rewrite Qfloor_Z.
  destruct (Qcompare_spec (inject_Z n - inject_Z n) (1 # 2)) as [H|H|H]; [|done|];
    exfalso; lra.
Qed.

Lemma roundHalfEven_mono (a b : Q) :
  (a <= b)%Q -> (roundHalfEven a <= roundHalfEven b)%Z.
Proof.
  intros Hab. pose proof (Qfloor_resp_le a b Hab) as Hf.
  pose proof (roundHalfEven_bounds a) as Ha. pose proof (roundHalfEven_bounds b) as Hb.
  destruct (Z.eq_dec (Qfloor a) (Qfloor b)) as [E|E]; [|lia].
  unfold roundHalfEven in *. cbv zeta in *. rewrite E in *.
  destruct (Qcompare_spec (a - inject_Z (Qfloor b)) (1 # 2)) as [Ha'|Ha'|Ha'];
    destruct (Qcompare_spec (b - inject_Z (Qfloor b)) (1 # 2)) as [Hb'|Hb'|Hb'];
    try lia; try (destruct (Z.even (Qfloor b)); lia); exfalso; lra.
Qed.

Lemma inject_Z_pow2_pos (n : Z) : (0 <= n)%Z -> (0 < inject_Z (2 ^ n))%Q.
Proof.
  intros Hn. change 0%Q with (inject_Z 0). rewrite <- Zlt_Qlt.
  by apply Z.pow_pos_nonneg.
Qed.

Lemma shiftOf_nonneg x : (0 <= shiftOf x)%Z.
Proof. unfold shiftOf. lia. Qed.

Lemma shiftOf_mono x y : (x <= y)%Q -> (shiftOf x <= shiftOf y)%Z.
Proof.
  intros Hxy. unfold shiftOf.
  pose proof (Z.log2_le_mono _ _ (Qfloor_resp_le x y Hxy)). lia.
Qed.

Lemma roundScaled_above x :
  (0 <= x)%Q -> (roundScaled x <= inject_Z (2 ^ (53 + shiftOf x)))%Q.
Proof.
  intros Hx. unfold roundScaled.
  pose proof (shiftOf_nonneg x) as Hs.
  pose proof (inject_Z_pow2_pos _ Hs) as Hg.
  assert (x < inject_Z (2 ^ (53 + shiftOf x)))%Q as Hlt.
  { eapply Qlt_le_trans; [apply Qlt_floor|].
    rewrite <- Zle_Qle.
    assert (0 <= Qfloor x)%Z as Hf.
    { rewrite <- (Qfloor_Z 0). by apply Qfloor_resp_le. }
    destruct (Z.eq_dec (Qfloor x) 0%Z) as [E|E].
    - rewrite E. cbn [Z.add].
      assert (2 ^ 0 <= 2 ^ (53 + shiftOf x))%Z; [apply Z.pow_le_mono_r; lia|].
      change (2 ^ 0)%Z with 1%Z in *. lia.
    - assert (0 < Qfloor x)%Z as Hpos by lia.
      destruct (Z.log2_spec _ Hpos) as [_ Hup].
      assert (2 ^ Z.succ (Z.log2 (Qfloor x)) <= 2 ^ (53 + shiftOf x))%Z;
        [apply Z.pow_le_mono_r; unfold shiftOf; lia|lia]. }
  rewrite Z.pow_add_r, inject_Z_mult by lia.
  apply Qmult_le_compat_r; [|by apply Qlt_le_weak].
  rewrite <- Zle_Qle. rewrite <- (roundHalfEven_Z (2 ^ 53)).
  apply roundHalfEven_mono. apply Qle_shift_div_r; [done|].
  rewrite <- inject_Z_mult, <- Z.pow_add_r by lia. by apply Qlt_le_weak.
Qed.

Lemma roundScaled_below x :
  (1 <= shiftOf x)%Z -> (inject_Z (2 ^ (52 + shiftOf x)) <= roundScaled x)%Q.
Proof.
  intros Hs. unfold roundScaled.
  assert (0 <= shiftOf x)%Z as Hs0 by lia.
  pose proof (inject_Z_pow2_pos _ Hs0) as Hg.
  assert (inject_Z (2 ^ (52 + shiftOf x)) <= x)%Q as Hle.
  { eapply Qle_trans; [|apply Qfloor_le]. rewrite <- Zle_Qle.
    assert (shiftOf x = Z.log2 (Qfloor x) - 52)%Z as E by (unfold shiftOf in *; lia).
    assert (0 < Qfloor x)%Z as Hpos.
    { destruct (Z.le_gt_cases (Qfloor x) 0) as [Hn|]; [|lia].
      rewrite (Z.log2_nonpos _ Hn) in E. lia. }
    destruct (Z.log2_spec _ Hpos) as [Hlow _].
    replace (52 + shiftOf x)%Z with (Z.log2 (Qfloor x)) by lia. done. }
  rewrite Z.pow_add_r, inject_Z_mult by lia.
  apply Qmult_le_compat_r; [|by apply Qlt_le_weak].
  rewrite <- Zle_Qle. rewrite <- (roundHalfEven_Z (2 ^ 52)) at 1.
  apply roundHalfEven_mono. apply Qle_shift_div_l; [done|].
  by rewrite <- inject_Z_mult, <- Z.pow_add_r by lia.
Qed.

Lemma roundScaled_mono x y :
  (0 <= x)%Q -> (x <= y)%Q -> (roundScaled x <= roundScaled y)%Q.
Proof.
  intros Hx Hxy. pose proof (shiftOf_mono x y Hxy) as Hs.
  pose proof (shiftOf_nonneg x) as Hs0.
  destruct (Z.eq_dec (shiftOf x) (shiftOf y)) as [E|E].
  - unfold roundScaled. rewrite E.
    assert (0 <= shiftOf y)%Z as Hsy by lia.
    pose proof (inject_Z_pow2_pos _ Hsy) as Hg.
    apply Qmult_le_compat_r; [|by apply Qlt_le_weak].
    rewrite <- Zle_Qle. apply roundHalfEven_mono.
    apply Qle_shift_div_l; [done|].
    rewrite Qmult_comm, Qmult_div_r; [done|].
    intros H0; rewrite H0 in Hg; by apply Qlt_irrefl in Hg.
  - eapply Qle_trans; [by apply roundScaled_above|].
    eapply Qle_trans; [|apply roundScaled_below; lia].
    rewrite <- Zle_Qle. apply Z.pow_le_mono_r; lia.
Qed.

Lemma roundScaled_nonneg x : (0 <= x)%Q -> (0 <= roundScaled x)%Q.
Proof.
  intros Hx. unfold roundScaled.
  pose proof (inject_Z_pow2_pos _ (shiftOf_nonneg x)) as Hg.
  apply Qmult_le_0_compat; [|by apply Qlt_le_weak].
  change 0%Q with (inject_Z 0). rewrite <- Zle_Qle.
  rewrite <- (roundHalfEven_Z 0). apply roundHalfEven_mono.
  apply Qle_shift_div_l; [done|]. by rewrite Qmult_0_l.
Qed.

Lemma scale_pos : (0 < inject_Z scale)%Q.
Proof. by apply inject_Z_pow2_pos. Qed.

Lemma roundMagnitude_scaled q :
  (roundMagnitude q == roundScaled (q * inject_Z scale) / inject_Z scale)%Q.
Proof. unfold roundMagnitude. by rewrite Qred_correct. Qed.

Lemma roundMagnitude_nonneg q : (0 <= q)%Q -> (0 <= roundMagnitude q)%Q.
Proof.
  intros Hq. rewrite roundMagnitude_scaled.
  apply Qle_shift_div_l; [apply scale_pos|]. rewrite Qmult_0_l.
  apply roundScaled_nonneg, Qmult_le_0_compat; [done|apply Qlt_le_weak, scale_pos].
Qed.

Lemma roundMagnitude_mono p q :
  (0 <= p)%Q -> (p <= q)%Q -> (roundMagnitude p <= roundMagnitude q)%Q.
Proof.
  intros Hp Hpq. rewrite !roundMagnitude_scaled.
  pose proof scale_pos as Hs.
  apply Qmult_le_compat_r; [|by apply Qlt_le_weak, Qinv_lt_0_compat].
  apply roundScaled_mono.
  - apply Qmult_le_0_compat; [done|by apply Qlt_le_weak].
  - apply Qmult_le_compat_r; [done|by apply Qlt_le_weak].
Qed.

(** Rounding to nearest is monotone. *)
Lemma round_mono p q : (p <= q)%Q -> (round p <= round q)%Q.
Proof.
  intros Hpq. unfold round.
  destruct (Qle_bool 0 p) eqn:Ep, (Qle_bool 0 q) eqn:Eq.
  - apply Qle_bool_iff in Ep. by apply roundMagnitude_mono.
  - apply Qle_bool_iff in Ep. exfalso.
    assert (0 <= q)%Q as H by lra. apply Qle_bool_iff in H. congruence.
  - apply Qle_bool_iff in Eq.
    assert (~ (0 <= p)%Q) as Hn by (rewrite <- Qle_bool_iff; congruence).
    pose proof (roundMagnitude_nonneg (- p)) as H1.
    pose proof (roundMagnitude_nonneg q Eq) as H2. lra.
  - assert (~ (0 <= p)%Q) as Hn by (rewrite <- Qle_bool_iff; congruence).
    assert (~ (0 <= q)%Q) as Hn' by (rewrite <- Qle_bool_iff; congruence).
    pose proof (roundMagnitude_mono (- q) (- p)) as H. lra.
Qed.

#[global] Instance round_proper : Proper (Qeq ==> Qeq) round.
Proof.
  intros p q Hpq. apply Qle_antisym; apply round_mono; rewrite Hpq; apply Qle_refl.
Qed.

(** The numbers of binary64 in [1/2, 1) are the multiples of 2^-53, so the
    largest one below 1 is 1 - 2^-53. *)
Lemma representable_below_one q :
  representable q -> (q < 1)%Q -> (q <= maxDraw)%Q.
Proof.
  intros Hq H1.
  destruct (Qlt_le_dec q (1 # 2)) as [Hhalf|Hhalf].
  { apply Qlt_le_weak. eapply Qlt_le_trans; [done|]. by vm_compute. }
  unfold representable, round in Hq.
  assert (Qle_bool 0 q = true) as E by (apply Qle_bool_iff; lra).
  rewrite E in Hq. clear E.
  rewrite roundMagnitude_scaled in Hq.
  set (x := (q * inject_Z scale)%Q) in *.
  assert (shiftOf x = 1021%Z) as Hshift.
  { unfold shiftOf.
    assert (Z.log2 (Qfloor x) = 1073%Z) as ->; [|done].
    apply Z.log2_unique; [done|].
    pose proof scale_pos as Hs.
    split.
    - rewrite <- (Qfloor_Z (2 ^ 1073)). apply Qfloor_resp_le. unfold x.
      assert (inject_Z (2 ^ 1073) == (1 # 2) * inject_Z scale)%Q as ->.
      { unfold scale. change 1074%Z with (1 + 1073)%Z.
        rewrite Z.pow_add_r, inject_Z_mult by done.
        change (inject_Z (2 ^ 1)) with 2%Q. field. }
      apply Qmult_le_compat_r; [done|by apply Qlt_le_weak].
    - rewrite Zlt_Qlt. eapply Qle_lt_trans; [apply Qfloor_le|]. unfold x.
      change (Z.succ 1073) with 1074%Z. fold scale.
      rewrite <- (Qmult_1_l (inject_Z scale)) at 2.
      by apply Qmult_lt_compat_r. }
  unfold roundScaled in Hq. rewrite Hshift in Hq.
  set (k := roundHalfEven (x / inject_Z (2 ^ 1021))) in *.
  pose proof scale_pos as Hs.
  assert (inject_Z scale == inject_Z (2 ^ 1021) * inject_Z (2 ^ 53))%Q as Hsplit.
  { unfold scale. change 1074%Z with (1021 + 53)%Z.
    by rewrite Z.pow_add_r, inject_Z_mult. }
  pose proof (inject_Z_pow2_pos 1021 ltac:(done)) as Hg.
  pose proof (inject_Z_pow2_pos 53 ltac:(done)) as Hh.
  assert (q == inject_Z k / inject_Z (2 ^ 53))%Q as Hk.
  { rewrite <- Hq, Hsplit. field. split; lra. }
  assert (k < 2 ^ 53)%Z as Hlt.
  { rewrite Zlt_Qlt. apply (Qmult_lt_r _ _ (/ inject_Z (2 ^ 53)));
      [by apply Qinv_lt_0_compat|].
    fold (Qdiv (inject_Z k) (inject_Z (2 ^ 53))). rewrite <- Hk.
    rewrite Qmult_inv_r; [done|lra]. }
  assert (k <= 2 ^ 53 - 1)%Z as Hle by lia.
  rewrite Zle_Qle in Hle. rewrite Hk.
  apply Qle_shift_div_r; [done|].
  eapply Qle_trans; [exact Hle|]. by vm_compute.
Qed.

End RoundingFacts.

Lemma round_between (lo hi q : Q) :
  Binary64.round lo = lo -> Binary64.round hi = hi ->
  (lo <= q <= hi)%Q -> (lo <= Binary64.round q <= hi)%Q.
Proof.
  intros Hlo Hhi [H1 H2]. split.
  - apply round_mono in H1. by rewrite Hlo in H1.
  - apply round_mono in H2. by rewrite Hhi in H2.
Qed.

(** [round_in lo hi]: a rounded value lies between two binary64 numbers that
    enclose the exact one. *)
Ltac round_in lo hi :=
  apply (round_between lo hi);
  [vm_compute; reflexivity|vm_compute; reflexivity|try lra].

Lemma pause_range (base spread r : Q) :
  Binary64.round 0 = 0%Q -> Binary64.round spread = spread ->
  Binary64.round base = base -> Binary64.round (base + spread) = (base + spread)%Q ->
  (0 <= spread)%Q -> (0 <= r < 1)%Q ->
  (base <= Binary64.add base (Binary64.mul r spread) <= base + spread)%Q.
Proof.
  intros H0 Hs Hb Hbs Hspread [Hr0 Hr1]. unfold Binary64.add, Binary64.mul.
  assert (0 <= Binary64.round (r * spread) <= spread)%Q as [Hm0 Hm1].
  { apply round_between; [done|done|]. split; [by apply Qmult_le_0_compat|].
    rewrite <- (Qmult_1_l spread) at 2.
    apply Qmult_le_compat_r; [by apply Qlt_le_weak|done]. }
  apply round_between; [done|done|]. lra.
Qed.

Lemma comma_pause_range (r : Q) :
  (0 <= r < 1)%Q -> (350 <= Binary64.add 350 (Binary64.mul r 150) <= 500)%Q.
Proof.
  intros Hr.
  pose proof (pause_range 350 150 r eq_refl eq_refl eq_refl eq_refl) as H.
  assert (0 <= 150)%Q as Hspread by done.
  specialize (H Hspread Hr). lra.
Qed.

Lemma sentence_pause_range (r : Q) :
  (0 <= r < 1)%Q -> (500 <= Binary64.add 500 (Binary64.mul r 200) <= 700)%Q.
Proof.
  intros Hr.
  pose proof (pause_range 500 200 r eq_refl eq_refl eq_refl eq_refl) as H.
  assert (0 <= 200)%Q as Hspread by done.
  specialize (H Hspread Hr). lra.
Qed.

Lemma jitter_range (r : Q) :
  (0 <= r < 1)%Q ->
  (-30 <= Binary64.mul (Binary64.sub r 0.5) 60 <= 30)%Q.
Proof.
  intros Hr. unfold Binary64.mul, Binary64.sub.
  assert (- (1 # 2) <= Binary64.round (r - 0.5) <= 1 # 2)%Q as Hs
    by (round_in (- (1 # 2))%Q (1 # 2)%Q).
  round_in (-30)%Q 30%Q.
Qed.

(** A draw that is a binary64 number is at most [maxDraw], and the jitter
    computed from [maxDraw] rounds to a number below 30. *)
Lemma jitter_below (r : Q) :
  Binary64.representable r -> (r < 1)%Q ->
  (Binary64.mul (Binary64.sub r 0.5) 60 < 30)%Q.
Proof.
  intros Hrep Hr. pose proof (representable_below_one r Hrep Hr) as Hmax.
  unfold Binary64.mul, Binary64.sub.
  assert (Binary64.round (r - 0.5) <= Binary64.round (maxDraw - 0.5))%Q as Hs
    by (apply round_mono; lra).
  eapply Qle_lt_trans.
  - apply (round_mono _ (Binary64.round (maxDraw - 0.5) * 60)). lra.
  - by vm_compute.
Qed.

Lemma keystroke_range (jitter : Q) :
  (-30 <= jitter <= 30)%Q ->
  (65 <= Binary64.add 95 jitter <= 125)%Q
  /\ (365 <= Binary64.add (Binary64.add 95 jitter) 300 <= 425)%Q.
Proof.
  intros Hj. unfold Binary64.add.
  assert (65 <= Binary64.round (95 + jitter) <= 125)%Q as Hb
    by (round_in 65%Q 125%Q).
  split; [done|]. round_in 365%Q 425%Q.
Qed.

(** C7, as the code has it: for every character and all draws in [0,1),
    the typing delay is at least 50; for a comma it is in [350, 500], and for
    one of . ? ! it is in [500, 700], the upper ends included, since the
    rounded sums reach them at the largest draws; for any other character
    the jitter, (draw - 0.5) * 60 rounded, is in [-30, 30], and below 30 when
    the draw is a binary64 number, and the delay is max(50, 95 + jitter),
    plus 300 exactly when the second draw is below the number that 0.04
    stands for. *)
Theorem typing_delay_bounds (random : nat -> Q) (i : nat) (c : jsstring) :
  (forall n, 0 <= random n < 1)%Q ->
  isCharacter c ->
  let d := (getTypingDelay random c i).1 in
  (50 <= d)%Q
  /\ (c = comma -> (350 <= d <= 500)%Q)
  /\ (c = fullStop \/ c = questionMark \/ c = exclamationMark -> (500 <= d <= 700)%Q)
  /\ (c <> comma -> ~ (c = fullStop \/ c = questionMark \/ c = exclamationMark) ->
      let jitter := Binary64.mul (Binary64.sub (random i) 0.5) 60 in
      (-30 <= jitter <= 30)%Q
      /\ (Binary64.representable (random i) -> (jitter < 30)%Q)
      /\ ((random (S i) < Binary64.round 0.04)%Q ->
          (d == Binary64.add (Qmax 50 (Binary64.add 95 jitter)) 300)%Q)
      /\ (~ (random (S i) < Binary64.round 0.04)%Q ->
          (d == Qmax 50 (Binary64.add 95 jitter))%Q)).
Proof.
  intros Hr Hc.
  pose proof (Hr i) as Hi. pose proof (Hr (S i)) as Hj.
  pose proof (sentenceEnd_includes c Hc) as Hend.
  unfold fullStop, questionMark, exclamationMark in *.
  unfold getTypingDelay, JsString.strictEq.
  destruct (bool_decide (c = comma)) eqn:Hcomma.
  - apply bool_decide_eq_true in Hcomma. subst c.
    cbv [mbind mret rand_bind rand_ret Math_random fst snd].
    pose proof (comma_pause_range (random i) Hi) as Hd.
    split; [lra|]. split; [done|]. split; [|done].
    intros [|[|]]; discriminate.
  - apply bool_decide_eq_false in Hcomma.
    destruct (JsString.includes sentenceEnd c) eqn:Hincl.
    + cbv [mbind mret rand_bind rand_ret Math_random fst snd].
      pose proof (sentence_pause_range (random i) Hi) as Hd.
      split; [lra|]. split; [done|]. split; [done|].
      intros _ Hno. exfalso. apply Hno. by apply Hend.
    + assert (~ (c = fullStop \/ c = questionMark \/ c = exclamationMark)) as Hno.
      { intros H. apply Hend in H. congruence. }
      cbv [mbind mret rand_bind rand_ret Math_random fst snd].
      pose proof (jitter_range (random i) Hi) as Hjit.
      destruct (keystroke_range _ Hjit) as [Hbase Hlong].
      assert (Qmax 50 (Binary64.add 95 (Binary64.mul (Binary64.sub (random i) 0.5) 60))
              == Binary64.add 95 (Binary64.mul (Binary64.sub (random i) 0.5) 60))%Q
        as Hmax by (apply Q.max_r; lra).
      destruct (Qltb (random (S i)) (Binary64.round 0.04)) eqn:Hlt.
      * apply Qltb_lt in Hlt.
        split; [lra|]. split; [done|]. split; [done|]. intros _ _.
        split; [done|]. split; [intros ?; apply jitter_below; [done|lra]|].
        split; [|done]. intros _.
        unfold Binary64.add at 3. rewrite Hmax. reflexivity.
      * apply Qltb_ge in Hlt.
        split; [rewrite Hmax; lra|]. split; [done|]. split; [done|]. intros _ _.
        split; [done|]. split; [intros ?; apply jitter_below; [done|lra]|].
        split; [intros ?; lra|done].
Qed.

(** ** The streaming renderer *)

Lemma chars_concat (s : jsstring) : concat (JsString.chars s) = s.
Proof.
  assert (forall n (s : jsstring), length s < n -> concat (JsString.chars s) = s) as H.
  { induction n as [|n IH]; intros s' Hn; [lia|].
    destruct s' as [|u [|v rest]]; [done|done|].
    change (JsString.chars (u :: v :: rest))
      with (if JsString.isHighSurrogate u && JsString.isLowSurrogate v
            then [u; v] :: JsString.chars rest
            else [u] :: JsString.chars (v :: rest)).
    cbn [length] in Hn.
    destruct (JsString.isHighSurrogate u && JsString.isLowSurrogate v);
      cbn [concat app]; (rewrite IH; [done|cbn [length]; lia]). }
  by apply (H (S (length s))), Nat.lt_succ_diag_r.
Qed.

Lemma textContent_text (cs : list jsstring) :
  textContent (map TextNode cs) = concat cs.
Proof.
  unfold textContent. induction cs as [|c cs IH]; [done|].
  cbn. by rewrite IH.
Qed.

Lemma insertBefore_typed (c : jsstring) (typed : list jsstring) :
  insertBefore (TextNode c) CursorSpan (map TextNode typed ++ [CursorSpan])
  = Some (map TextNode (typed ++ [c]) ++ [CursorSpan]).
Proof.
  induction typed as [|t typed IH]; cbn.
  - by rewrite decide_True.
  - rewrite decide_False by done. by rewrite IH.
Qed.

Lemma remove_cursor_typed (typed : list jsstring) :
  filter (fun n => n ≠ CursorSpan) (map TextNode typed ++ [CursorSpan])
  = map TextNode typed.
Proof.
  rewrite filter_app, filter_cons_False, filter_nil, app_nil_r by (by intros ?).
  induction typed as [|t typed IH]; [done|].
  cbn [map]. rewrite filter_cons_True by done. by rewrite IH.
Qed.

Lemma no_cursor_typed (typed : list jsstring) : CursorSpan ∉ map TextNode typed.
Proof. intros (c & Hc & _)%list_elem_of_fmap. done. Qed.

Lemma delete_insert_same {A} (l : list A) (i : nat) (x : A) :
  delete i (<[i:=x]> l) = delete i l.
Proof.
  by rewrite !delete_take_drop, take_insert_ge, drop_insert_lt by lia.
Qed.

Section Rendering.

Variable random : nat -> Q.

Lemma typeCharacter_typing element first typed c s :
  typing element first typed s ->
  exists d s',
    typeCharacter random element c s = Some (d, s')
    /\ typing element first (typed ++ [c]) s'
    /\ chatHistory (transcript s') = chatHistory (transcript s)
    /\ session s' = session s /\ requests s' = requests s
    /\ pending s' = pending s /\ portrait s' = portrait s.
Proof.
  intros Hty. unfold typeCharacter, typing in *. rewrite Hty. cbn.
  rewrite insertBefore_typed. cbn.
  eexists _, _. split; [done|]. unfold runRand. proj.
  by rewrite lookup_insert_eq.
Qed.

Lemma firstMessage_timers i statusMessage element first rest :
  forall typed delay s,
    pending s !! i = Some (TypingFirstMessage statusMessage element rest delay) ->
    typing element first typed s ->
    exists s',
      run random s (repeat (Settle i TimerElapsed) (S (length rest))) = Some s'
      /\ typed_out element first (typed ++ rest) s'
      /\ chatHistory (transcript s') = chatHistory (transcript s)
      /\ same_contact s s'
      /\ isGenerating (session s') = false
      /\ requests s' = requests s
      /\ pending s' = delete i (pending s)
      /\ portrait s' = portrait s.
Proof.
  induction rest as [|c rest IH]; intros typed delay s Hi Hty.
  - cbn [length repeat run step]. rewrite Hi. cbn [mbind option_bind resume].
    unfold firstMessageLoop, conclude. eexists. split; [done|].
    unfold typed_out, typing, same_contact in *. proj.
    rewrite lookup_alter_eq, Hty. cbn. rewrite remove_cursor_typed, app_nil_r.
    by repeat split.
  - cbn [length repeat run step]. rewrite Hi. cbn [mbind option_bind resume].
    unfold firstMessageLoop.
    destruct (typeCharacter_typing element first typed c s Hty)
      as (d & s1 & -> & Hty1 & Hh1 & Hs1 & Hr1 & Hp1 & Hq1).
    cbn [conclude].
    edestruct (IH (typed ++ [c]) d (with_pending (fun ks => <[i:=TypingFirstMessage statusMessage element rest d]> ks) s1))
      as (s' & Hrun & Hout & Hh & Hc & Hg & Hr & Hp & Hq).
    { proj. rewrite Hp1. apply list_lookup_insert_eq. by eapply lookup_lt_Some. }
    { exact Hty1. }
    exists s'. split; [exact Hrun|]. rewrite <- app_assoc in Hout.
    split; [exact Hout|]. proj. rewrite Hp1 in Hp.
    split; [congruence|]. split.
    { unfold same_contact in *. proj. by rewrite <- Hs1. }
    split; [done|]. split; [congruence|]. split; [|congruence].
    rewrite Hp. apply delete_insert_same.
Qed.

Lemma run_app s es1 es2 :
  run random s (es1 ++ es2) = s1 ← run random s es1; run random s1 es2.
Proof.
  revert s. induction es1 as [|e es1 IH]; intros s; [done|].
  cbn [app run]. destruct (step random s e) as [s1|]; [|done]. cbn. apply IH.
Qed.

Lemma chunk_timers i element first rest :
  forall typed delay s,
    pending s !! i = Some (TypingChunk element rest delay) ->
    typing element first typed s ->
    exists s',
      run random s (repeat (Settle i TimerElapsed) (S (length rest))) = Some s'
      /\ typing element first (typed ++ rest) s'
      /\ pending s' = <[i:=AwaitingChunk element]> (pending s)
      /\ chatHistory (transcript s') = chatHistory (transcript s)
      /\ session s' = session s
      /\ requests s' = requests s.
Proof.
  induction rest as [|c rest IH]; intros typed delay s Hi Hty.
  - cbn [length repeat run step]. rewrite Hi. cbn [mbind option_bind resume].
    unfold chunkLoop, conclude. eexists. split; [done|].
    rewrite app_nil_r. by repeat split.
  - cbn [length repeat run step]. rewrite Hi. cbn [mbind option_bind resume].
    unfold chunkLoop.
    destruct (typeCharacter_typing element first typed c s Hty)
      as (d & s1 & -> & Hty1 & Hh1 & Hs1 & Hr1 & Hp1 & _).
    cbn [conclude].
    edestruct (IH (typed ++ [c]) d
                 (with_pending (fun ks => <[i:=TypingChunk element rest d]> ks) s1))
      as (s' & Hrun & Hout & Hp & Hh & Hs & Hr).
    { proj. rewrite Hp1. apply list_lookup_insert_eq. by eapply lookup_lt_Some. }
    { exact Hty1. }
    exists s'. split; [exact Hrun|]. rewrite <- app_assoc in Hout.
    split; [exact Hout|]. proj. rewrite Hp1 in Hp.
    split; [by rewrite Hp, list_insert_insert_eq|].
    split; [congruence|]. split; congruence.
Qed.

Lemma chunk_run i element first text typed s :
  pending s !! i = Some (AwaitingChunk element) ->
  typing element first typed s ->
  exists s',
    run random s (chunkEvents i text) = Some s'
    /\ typing element first (typed ++ JsString.chars text) s'
    /\ pending s' = pending s
    /\ chatHistory (transcript s') = chatHistory (transcript s)
    /\ session s' = session s
    /\ requests s' = requests s.
Proof.
  intros Hi Hty. unfold chunkEvents.
  cbn [run step]. rewrite Hi. cbn [mbind option_bind resume].
  unfold chunkLoop. destruct (JsString.chars text) as [|c rest].
  - cbn [conclude length repeat run]. eexists. split; [done|].
    rewrite app_nil_r. proj. split; [done|]. split; [by apply list_insert_id|done].
  - destruct (typeCharacter_typing element first typed c s Hty)
      as (d & s1 & -> & Hty1 & Hh1 & Hs1 & Hr1 & Hp1 & _).
    cbn [conclude].
    edestruct (chunk_timers i element first rest (typed ++ [c]) d
                 (with_pending (fun ks => <[i:=TypingChunk element rest d]> ks) s1))
      as (s' & Hrun & Hout & Hp & Hh & Hs & Hr).
    { proj. rewrite Hp1. apply list_lookup_insert_eq. by eapply lookup_lt_Some. }
    { exact Hty1. }
    exists s'. split; [exact Hrun|]. rewrite <- app_assoc in Hout.
    split; [exact Hout|]. proj. rewrite Hp1 in Hp.
    split; [by rewrite Hp, list_insert_insert_eq, list_insert_id|].
    split; [congruence|]. split; congruence.
Qed.

Lemma chunks_run i element first chunks :
  forall typed s,
    pending s !! i = Some (AwaitingChunk element) ->
    typing element first typed s ->
    exists s',
      run random s (concat (map (chunkEvents i) chunks)) = Some s'
      /\ typing element first (typed ++ concat (map JsString.chars chunks)) s'
      /\ pending s' = pending s
      /\ chatHistory (transcript s') = chatHistory (transcript s)
      /\ session s' = session s
      /\ requests s' = requests s.
Proof.
  induction chunks as [|text chunks IH]; intros typed s Hi Hty.
  - exists s. cbn. rewrite app_nil_r. by repeat split.
  - cbn [map concat]. rewrite run_app.
    destruct (chunk_run i element first text typed s Hi Hty)
      as (s1 & -> & Hty1 & Hp1 & Hh1 & Hs1 & Hr1).
    cbn [mbind option_bind].
    destruct (IH (typed ++ JsString.chars text) s1) as (s' & Hrun & Hty' & Hp & Hh & Hs & Hr).
    { by rewrite Hp1. }
    { exact Hty1. }
    exists s'. split; [exact Hrun|]. rewrite <- app_assoc in Hty'.
    split; [exact Hty'|]. repeat split; congruence.
Qed.

(** A reply that streams to its end is rendered whole. *)
Lemma reply_run i chunks s :
  pending s !! i = Some AwaitingStream ->
  exists s',
    run random s (replyEvents i chunks) = Some s'
    /\ chatHistory (transcript s') = chatHistory (transcript s) ++ [created (transcript s)]
    /\ typed_out (created (transcript s)) false (concat (map JsString.chars chunks)) s'
    /\ same_contact s s'
    /\ isGenerating (session s') = false
    /\ requests s' = requests s
    /\ pending s' = delete i (pending s).
Proof.
  intros Hi. unfold replyEvents.
  cbn [run step]. rewrite Hi. cbn [mbind option_bind resume].
  unfold openReply. proj. cbn [conclude]. rewrite run_app.
  set (s1 := with_pending _ _).
  destruct (chunks_run i (created (transcript s)) false chunks [] s1)
    as (s2 & -> & Hty & Hp & Hh & Hs & Hr).
  { subst s1. proj. apply list_lookup_insert_eq. by eapply lookup_lt_Some. }
  { subst s1. unfold typing. proj. by rewrite lookup_insert_eq. }
  cbn [mbind option_bind run step]. rewrite Hp.
  assert (pending s1 !! i = Some (AwaitingChunk (created (transcript s)))) as ->.
  { subst s1. proj. apply list_lookup_insert_eq. by eapply lookup_lt_Some. }
  cbn [mbind option_bind resume conclude]. eexists. split; [done|].
  unfold typed_out, typing, same_contact in *. proj.
  rewrite lookup_alter_eq, Hty, Hh, Hs, Hr, Hp. subst s1. proj. cbn.
  rewrite remove_cursor_typed.
  repeat split; try done. apply delete_insert_same.
Qed.

(** The first message of a profile that arrives is rendered whole. *)
Lemma firstMessage_run i statusMessage profile s :
  pending s !! i = Some (AwaitingProfile statusMessage) ->
  statusMessage ∈ chatHistory (transcript s) ->
  exists s',
    run random s (firstMessageEvents i profile) = Some s'
    /\ chatHistory (transcript s')
       = filter (fun x => x ≠ statusMessage) (chatHistory (transcript s))
         ++ [created (transcript s)]
    /\ typed_out (created (transcript s)) true
         (JsString.chars (first_message profile)) s'
    /\ isFirstMessage (session s') = false
    /\ isGenerating (session s') = false
    /\ pending s' = delete i (pending s) ++ [AwaitingImage].
Proof.
  intros Hi Hin. unfold firstMessageEvents.
  cbn [run step]. rewrite Hi. cbn [mbind option_bind resume].
  unfold generateNpcAndStartChat_try, removeChild. proj.
  rewrite decide_True by done. proj.
  match goal with
  | |- context [firstMessageLoop random _ _ _ ?st] => set (s1 := st)
  end.
  assert (typing (created (transcript s)) true [] s1) as Hty.
  { subst s1. unfold typing. proj. by rewrite lookup_alter_eq, lookup_insert_eq. }
  assert (i < length (pending s)) as Hlt by (by eapply lookup_lt_Some).
  unfold firstMessageLoop. destruct (JsString.chars (first_message profile)) as [|c rest].
  - cbn [conclude length repeat run]. eexists. split; [done|].
    unfold typed_out, typing in *. proj.
    rewrite lookup_alter_eq, Hty. subst s1. proj. cbn.
    repeat split; try done.
    rewrite !delete_take_drop, take_app_le, drop_app_le by lia. by rewrite app_assoc.
  - destruct (typeCharacter_typing (created (transcript s)) true [] c s1 Hty)
      as (d & s2 & -> & Hty1 & Hh1 & Hs1 & Hr1 & Hp1 & _).
    cbn [conclude].
    edestruct (firstMessage_timers i statusMessage (created (transcript s)) true rest [c] d
                 (with_pending (fun ks => <[i:=TypingFirstMessage statusMessage
                                                (created (transcript s)) rest d]> ks) s2))
      as (s' & Hrun & Hout & Hh & Hc & Hg & Hr & Hp & _).
    { proj. rewrite Hp1. apply list_lookup_insert_eq.
      subst s1. proj. rewrite length_app. lia. }
    { exact Hty1. }
    exists s'. split; [exact Hrun|]. unfold same_contact in Hc. proj.
    destruct Hc as (Hc1 & _).
    rewrite Hh, Hh1, Hc1, Hs1, Hp, Hp1. subst s1. proj.
    split; [done|]. split; [exact Hout|]. split; [done|]. split; [done|].
    rewrite delete_insert_same.
    rewrite !delete_take_drop, take_app_le, drop_app_le by lia. by rewrite app_assoc.
Qed.

End Rendering.

(** ** The renderer in any run *)

Section RenderingInvariant.

Variable random : nat -> Q.

Lemma conclude_rendering i k catch chunks r :
  mid_ok i k r -> isTextFlow k = true -> catch_frame catch ->
  (forall s, pending (catch s) = pending s) ->
  (forall k', r.2 = Awaiting k' ->
     rendering_ok (npcProfile (session r.1)) chunks (transcript r.1) k') ->
  inv_rendering chunks (conclude i catch (setLoading false) r).
Proof.
  destruct r as [s1 o]. unfold mid_ok. cbn [fst snd].
  intros (_ & _ & _ & Hf & Hi & Ho) Hk Hc Hcp Hok k'. unfold conclude.
  destruct o as [k1| |].
  - destruct Ho as [Hk1 _]. proj. unfold textFlows in *.
    rewrite (filter_insert_unit _ _ i k k1); [|done|by rewrite Hk|by rewrite Hk1|done].
    intros [= <-]. by apply Hok.
  - proj. unfold textFlows in *.
    by rewrite (filter_delete_unit _ _ i k); [|done|by rewrite Hk|done].
  - proj. rewrite Hcp. proj. unfold textFlows in *.
    by rewrite (filter_delete_unit _ _ i k); [|done|by rewrite Hk|done].
Qed.

Lemma typeCharacter_shows element first typed c s :
  shows (transcript s) first element typed ->
  exists d s',
    typeCharacter random element c s = Some (d, s')
    /\ shows (transcript s') first element (typed ++ [c])
    /\ session s' = session s.
Proof.
  intros [Hty Hlast].
  destruct (typeCharacter_typing random element first typed c s Hty)
    as (d & s' & Hstep & Hty' & Hh & Hs & _).
  exists d, s'. split; [done|]. split; [|done]. split; [done|]. by rewrite Hh.
Qed.

Lemma firstMessageLoop_rendering statusMessage element chars chunks p typed s :
  npcProfile (session s) = Some p ->
  shows (transcript s) true element typed ->
  typed ++ chars = JsString.chars (first_message p) ->
  forall k',
    (firstMessageLoop random statusMessage element chars s).2 = Awaiting k' ->
    rendering_ok
      (npcProfile (session (firstMessageLoop random statusMessage element chars s).1))
      chunks
      (transcript (firstMessageLoop random statusMessage element chars s).1) k'.
Proof.
  intros Hp Hsh Heq k'. unfold firstMessageLoop.
  destruct chars as [|c rest]; [done|].
  destruct (typeCharacter_shows element true typed c s Hsh) as (d & s' & -> & Hsh' & Hs).
  cbn [fst snd]. intros [= <-]. cbn [rendering_ok].
  exists p, (typed ++ [c]). rewrite Hs. split; [done|]. split; [done|].
  by rewrite <- app_assoc.
Qed.

Lemma chunkLoop_rendering element chars chunks profile typed s :
  shows (transcript s) false element typed ->
  typed ++ chars = concat (map JsString.chars chunks) ->
  forall k',
    (chunkLoop random element chars s).2 = Awaiting k' ->
    rendering_ok profile chunks (transcript (chunkLoop random element chars s).1) k'.
Proof.
  intros Hsh Heq k'. unfold chunkLoop.
  destruct chars as [|c rest].
  - cbn [fst snd]. intros [= <-]. cbn [rendering_ok]. rewrite app_nil_r in Heq. by subst.
  - destruct (typeCharacter_shows element false typed c s Hsh) as (d & s' & -> & Hsh' & Hs).
    cbn [fst snd]. intros [= <-]. cbn [rendering_ok].
    exists (typed ++ [c]). split; [done|]. by rewrite <- app_assoc.
Qed.

Lemma catch_pending_first statusMessage s :
  pending (generateNpcAndStartChat_catch statusMessage s) = pending s.
Proof. unfold generateNpcAndStartChat_catch, removeChild. by case_decide. Qed.

Lemma catch_pending_dialogue s : pending (handleChatSubmit_catch s) = pending s.
Proof. done. Qed.

Lemma flow_rendering chunks i k s :
  Inv s -> inv_rendering chunks s -> pending s !! i = Some k -> isTextFlow k = true ->
  rendering_ok (npcProfile (session s)) chunks (transcript s) k.
Proof.
  intros HI Hr Hi Hk. apply Hr.
  by destruct (text_flow_entry _ _ _ HI Hi Hk) as (_ & _ & _ & Hf & _).
Qed.

Lemma resume_rendering chunks i k r s s' :
  Inv s -> inv_rendering chunks s -> pending s !! i = Some k ->
  resume random i k r s = Some s' ->
  inv_rendering (yield (Settle i r) chunks) s'.
Proof.
  intros HI Hren Hi.
  destruct k; destruct r; unfold resume; try done;
    (intros Heq; apply (inj Some) in Heq; subst s'); cbn [yield];
    try pose proof (flow_rendering chunks _ _ _ HI Hren Hi eq_refl) as Hok;
    try (destruct (text_flow_entry _ _ _ HI Hi eq_refl)
           as (Ht & Hs & Hg & Hf & _ & Hflow); cbn [flow_ok] in Hflow).
  - (* the profile arrives *)
    eapply conclude_rendering;
      [by apply generateNpcAndStartChat_try_mid|done
      |apply generateNpcAndStartChat_catch_frame|apply catch_pending_first|].
    destruct Hflow as [_ Hin].
    unfold generateNpcAndStartChat_try. destruct parsed as [|profile]; [done|].
    unfold removeChild. proj. rewrite decide_True by done. proj.
    apply (firstMessageLoop_rendering _ _ _ _ profile []); [done| |done].
    split; proj.
    + by rewrite lookup_alter_eq, lookup_insert_eq.
    + apply last_snoc.
  - eapply conclude_rendering;
      [by apply generateNpcAndStartChat_try_mid|done
      |apply generateNpcAndStartChat_catch_frame|apply catch_pending_first|done].
  - destruct Hok as (p & typed & Hp & Hsh & Heq).
    eapply conclude_rendering;
      [apply firstMessageLoop_mid; unfold loop_entry; destruct Hflow; by auto 10
      |done|apply generateNpcAndStartChat_catch_frame|apply catch_pending_first
      |by eapply firstMessageLoop_rendering].
  - eapply conclude_rendering;
      [by apply sendMessage_mid|done
      |apply handleChatSubmit_catch_frame|apply catch_pending_dialogue|].
    unfold sendMessage. destruct (chat (session s)); cbn [fst snd]; [|done].
    by intros k' [= <-].
  - eapply conclude_rendering;
      [by apply openReply_mid|done
      |apply handleChatSubmit_catch_frame|apply catch_pending_dialogue|].
    unfold openReply. proj. intros k' [= <-]. cbn [rendering_ok map concat].
    split; proj; [by rewrite lookup_insert_eq|apply last_snoc].
  - eapply conclude_rendering;
      [unfold mid_ok; proj; by auto 10
      |done|apply handleChatSubmit_catch_frame|apply catch_pending_dialogue|done].
  - cbn [rendering_ok] in Hok.
    eapply conclude_rendering;
      [apply chunkLoop_mid; unfold loop_entry; destruct Hflow; by auto 10
      |done|apply handleChatSubmit_catch_frame|apply catch_pending_dialogue
      |eapply chunkLoop_rendering; [exact Hok|]].
    rewrite map_app, concat_app. cbn [map concat]. by rewrite app_nil_r.
  - eapply conclude_rendering;
      [unfold mid_ok; proj; split; [by apply numbered_altered|]; by auto 10
      |done|apply handleChatSubmit_catch_frame|apply catch_pending_dialogue|done].
  - eapply conclude_rendering;
      [unfold mid_ok; proj; by auto 10
      |done|apply handleChatSubmit_catch_frame|apply catch_pending_dialogue|done].
  - destruct Hok as (typed & Hsh & Heq).
    eapply conclude_rendering;
      [apply chunkLoop_mid; unfold loop_entry; destruct Hflow; by auto 10
      |done|apply handleChatSubmit_catch_frame|apply catch_pending_dialogue
      |by eapply chunkLoop_rendering].
  - intros k. unfold generateNpcImage_resume.
    destruct generatedImages as [|[bytes|] rest]; proj; unfold textFlows;
      (rewrite (filter_delete_other _ _ i AwaitingImage); [apply Hren|done|cbn; tauto]).
  - intros k. unfold generateNpcImage_resume. proj. unfold textFlows.
    rewrite (filter_delete_other _ _ i AwaitingImage); [apply Hren|done|cbn; tauto].
Qed.

Lemma step_rendering chunks s e s' :
  Inv s -> inv_rendering chunks s -> step random s e = Some s' ->
  inv_rendering (yield e chunks) s'.
Proof.
  intros HI Hren. destruct e as [value| |i r]; cbn [step].
  - intros [= <-]. exact Hren.
  - intros [= <-]. cbn [yield]. unfold handleChatSubmit.
    destruct (isGenerating (session s)) eqn:Hg; [done|].
    destruct (JsString.trim (inputValue (form s))) as [|u input]; [done|].
    destruct HI as [_ _ Hb]. pose proof (idle_no_text_flow _ _ _ Hb Hg) as Hidle.
    proj. destruct (isFirstMessage (session s)).
    + unfold generateNpcAndStartChat. proj. intros k. proj. unfold textFlows in *.
      rewrite filter_snoc_unit; [|done|done]. by intros [= <-].
    + destruct (chat (session s)).
      * unfold runRand. proj. intros k. proj. unfold textFlows in *.
        rewrite filter_snoc_unit; [|done|done]. by intros [= <-].
      * intros k. proj. unfold textFlows in *. by rewrite Hidle.
  - destruct (pending s !! i) as [k|] eqn:Hi; [|done]. cbn [mbind option_bind].
    by apply resume_rendering.
Qed.

Lemma run_rendering es :
  forall chunks s s',
    Inv s -> inv_rendering chunks s -> run random s es = Some s' ->
    inv_rendering (streamedFrom chunks es) s'.
Proof.
  induction es as [|e es IH]; intros chunks s s' HI Hren; cbn [run streamedFrom].
  - by intros [= <-].
  - destruct (step random s e) as [s1|] eqn:Hstep; [|done]. cbn [mbind option_bind].
    apply IH; [by eapply step_inv|by eapply step_rendering].
Qed.

Lemma initial_rendering : inv_rendering [] initial.
Proof. by intros k. Qed.

(** A reply whose stream ends shows the chunks it yielded. *)
Lemma reply_completes chunks i element s :
  Inv s -> inv_rendering chunks s ->
  pending s !! i = Some (AwaitingChunk element) ->
  exists s',
    step random s (Settle i StreamDone) = Some s'
    /\ lastMessage s'
       = Some {| sender := npc; streaming := false; firstNpcReply := false;
                 paragraph := map TextNode (concat (map JsString.chars chunks)) |}.
Proof.
  intros HI Hren Hi.
  destruct (flow_rendering chunks _ _ _ HI Hren Hi eq_refl) as [Hel Hlast].
  cbn [step]. rewrite Hi. cbn [mbind option_bind resume conclude].
  eexists. split; [done|]. unfold lastMessage. proj. rewrite Hlast. cbn.
  rewrite lookup_alter_eq, Hel. cbn. by rewrite remove_cursor_typed.
Qed.

(** A first message whose last timer elapses shows the whole message. *)
Lemma first_message_completes chunks i statusMessage element delay s :
  Inv s -> inv_rendering chunks s ->
  pending s !! i = Some (TypingFirstMessage statusMessage element [] delay) ->
  exists s' p,
    npcProfile (session s) = Some p
    /\ step random s (Settle i TimerElapsed) = Some s'
    /\ lastMessage s'
       = Some {| sender := npc; streaming := false; firstNpcReply := true;
                 paragraph := map TextNode (JsString.chars (first_message p)) |}.
Proof.
  intros HI Hren Hi.
  destruct (flow_rendering chunks _ _ _ HI Hren Hi eq_refl)
    as (p & typed & Hp & [Hel Hlast] & Heq).
  rewrite app_nil_r in Heq. subst typed.
  cbn [step]. rewrite Hi. cbn [mbind option_bind resume firstMessageLoop conclude].
  eexists _, p. split; [done|]. split; [done|]. unfold lastMessage. proj.
  rewrite Hlast. cbn. rewrite lookup_alter_eq, Hel. cbn. by rewrite remove_cursor_typed.
Qed.

End RenderingInvariant.

(** ** Trimming *)

Lemma trimStart_idem (s : jsstring) :
  JsString.trimStart (JsString.trimStart s) = JsString.trimStart s.
Proof.
  induction s as [|u s IH]; [done|]. cbn.
  destruct (JsString.isWhiteSpace u) eqn:E; [done|]. cbn. by rewrite E.
Qed.

Lemma trimStart_head (s : jsstring) u rest :
  JsString.trimStart s = u :: rest -> JsString.isWhiteSpace u = false.
Proof.
  induction s as [|v s IH]; [done|]. cbn.
  destruct (JsString.isWhiteSpace v) eqn:E; [done|]. by intros [= <- _].
Qed.

Lemma trimStart_fixed (s : jsstring) u rest :
  s = u :: rest -> JsString.isWhiteSpace u = false -> JsString.trimStart s = s.
Proof. intros -> E. cbn. by rewrite E. Qed.

Lemma trimStart_suffix (s : jsstring) : exists w, s = w ++ JsString.trimStart s.
Proof.
  induction s as [|u s [w IH]]; [by exists []|]. cbn.
  destruct (JsString.isWhiteSpace u).
  - exists (u :: w). cbn. by rewrite <- IH.
  - by exists [].
Qed.

Lemma trimEnd_prefix (s : jsstring) : exists w, s = JsString.trimEnd s ++ w.
Proof.
  unfold JsString.trimEnd. destruct (trimStart_suffix (rev s)) as [w Hw].
  exists (rev w). rewrite <- rev_app_distr, <- Hw. by rewrite rev_involutive.
Qed.

Lemma trim_idem (s : jsstring) : JsString.trim (JsString.trim s) = JsString.trim s.
Proof.
  unfold JsString.trim.
  set (y := JsString.trimStart s).
  assert (JsString.trimStart (JsString.trimEnd y) = JsString.trimEnd y) as ->.
  { destruct (trimEnd_prefix y) as [w Hw].
    destruct (JsString.trimEnd y) as [|u z] eqn:E; [done|].
    eapply trimStart_fixed; [done|].
    apply (trimStart_head s u (z ++ w)). fold y. by rewrite Hw. }
  unfold JsString.trimEnd at 1. unfold JsString.trimEnd.
  by rewrite rev_involutive, trimStart_idem.
Qed.

Lemma isBlank_app (v w : jsstring) : isBlank (v ++ w) = isBlank v && isBlank w.
Proof. apply forallb_app. Qed.

Lemma isBlank_rev (w : jsstring) : isBlank (rev w) = isBlank w.
Proof.
  induction w as [|u w IH]; [done|]. cbn [rev]. rewrite isBlank_app, IH.
  cbn. by rewrite andb_true_r, andb_comm.
Qed.

Lemma trimStart_blank (w s : jsstring) :
  isBlank w = true -> JsString.trimStart (w ++ s) = JsString.trimStart s.
Proof.
  induction w as [|u w IH]; [done|]. cbn.
  intros [Hu Hw]%andb_true_iff. rewrite Hu. by apply IH.
Qed.

Lemma trimStart_split (s : jsstring) :
  exists w, s = w ++ JsString.trimStart s /\ isBlank w = true.
Proof.
  induction s as [|u s (w & IH & Hw)]; [by exists []|]. cbn.
  destruct (JsString.isWhiteSpace u) eqn:E.
  - exists (u :: w). split; [cbn [app]; by rewrite <- IH|].
    unfold isBlank in *. cbn [forallb]. by rewrite E.
  - by exists [].
Qed.

Lemma trimEnd_split (s : jsstring) :
  exists w, s = JsString.trimEnd s ++ w /\ isBlank w = true.
Proof.
  unfold JsString.trimEnd. destruct (trimStart_split (rev s)) as (w & Hs & Hw).
  exists (rev w). rewrite isBlank_rev. split; [|done].
  rewrite <- rev_app_distr, <- Hs. by rewrite rev_involutive.
Qed.

(** What [trim] returns for a string of white space: the empty string. *)
Lemma trim_blank (s : jsstring) : isBlank s = true -> JsString.trim s = [].
Proof.
  intros Hs. unfold JsString.trim.
  rewrite <- (app_nil_r s), trimStart_blank by done. done.
Qed.

(** What [trim] returns otherwise: the text between the white space at the
    two ends. *)
Lemma trim_between (before text after : jsstring) :
  isBlank before = true -> isBlank after = true -> hasNoOuterSpace text = true ->
  JsString.trim (before ++ text ++ after) = text.
Proof.
  intros Hb Ha Ht. unfold hasNoOuterSpace in Ht.
  destruct text as [|u rest] eqn:Htext; [done|].
  destruct (rev (u :: rest)) as [|v tser] eqn:Hrev; [done|].
  apply andb_true_iff in Ht as [Hu Hv]. apply negb_true_iff in Hu, Hv.
  unfold JsString.trim. rewrite trimStart_blank by done.
  rewrite (trimStart_fixed _ u (rest ++ after)) by done.
  unfold JsString.trimEnd. rewrite rev_app_distr.
  rewrite trimStart_blank by (by rewrite isBlank_rev).
  rewrite Hrev, (trimStart_fixed _ v tser) by done.
  by rewrite <- Hrev, rev_involutive.
Qed.

(** Every string is of one of the two kinds. *)
Lemma trim_cases (s : jsstring) :
  isBlank s = true
  \/ exists before text after,
       s = before ++ text ++ after
       /\ isBlank before = true /\ isBlank after = true
       /\ hasNoOuterSpace text = true.
Proof.
  destruct (trimStart_split s) as (before & Hs & Hb).
  destruct (trimEnd_split (JsString.trimStart s)) as (after & Hy & Ha).
  fold (JsString.trim s) in Hy.
  destruct (JsString.trim s) as [|u rest] eqn:Htrim.
  - left. rewrite Hs, Hy, !isBlank_app, Hb, Ha. done.
  - right. exists before, (u :: rest), after.
    split; [by rewrite Hs at 1; rewrite Hy|]. split; [done|]. split; [done|].
    unfold hasNoOuterSpace.
    assert (JsString.isWhiteSpace u = false) as Hu.
    { apply (trimStart_head s u (rest ++ after)). by rewrite Hy. }
    destruct (rev (u :: rest)) as [|v tser] eqn:Hrev.
    { apply (f_equal (@length _)) in Hrev. rewrite length_rev in Hrev. done. }
    assert (JsString.isWhiteSpace v = false) as Hv.
    { apply (trimStart_head (rev (JsString.trimStart s)) v tser).
      rewrite <- Hrev, <- Htrim. unfold JsString.trim, JsString.trimEnd.
      by rewrite rev_involutive. }
    by rewrite Hu, Hv.
Qed.

(** ** The claims *)

Section Claims.

Variable random : nat -> Q.

Lemma run_reachable s es s' :
  reachable random s -> run random s es = Some s' -> reachable random s'.
Proof.
  revert s. induction es as [|e es IH]; intros s Hs; cbn [run].
  - by intros [= <-].
  - destruct (step random s e) as [s1|] eqn:E; [|done]. cbn.
    apply IH. by eapply reachable_step.
Qed.

Lemma run_inv es s : run random initial es = Some s -> Inv s.
Proof.
  intros H. eapply reachable_inv, run_reachable; [apply reachable_initial|exact H].
Qed.

Lemma firstMessageLoop_rest statusMessage element chars s :
  pending (firstMessageLoop random statusMessage element chars s).1 = pending s
  /\ portrait (firstMessageLoop random statusMessage element chars s).1 = portrait s.
Proof.
  unfold firstMessageLoop. destruct chars as [|c rest]; [done|].
  destruct (typeCharacter random element c s) as [[d s']|] eqn:E; [|done].
  by apply typeCharacter_Some in E as (m & cs & _ & _ & ->).
Qed.

(** The turn at which the profile arrives. *)
Lemma contact_step i statusMessage profile s s' :
  Inv s -> pending s !! i = Some (AwaitingProfile statusMessage) ->
  step random s (Settle i (GenerateContentFulfilled (Parsed profile))) = Some s' ->
  isFirstMessage (session s) = true
  /\ isFirstMessage (session s') = false
  /\ npcProfile (session s') = Some profile
  /\ chat (session s')
     = Some {| chatId := S (length (requests s));
               chatSystemInstruction := systemInstructionFor profile |}
  /\ requests s'
     = requests s
       ++ [GenerateImages (enhancedPrompt (image_prompt profile));
           ChatsCreate (systemInstructionFor profile)]
  /\ AwaitingImage ∈ pending s'
  /\ loaderHidden (portrait s') = false.
Proof.
  intros HI Hi. cbn [step]. rewrite Hi. cbn [mbind option_bind resume].
  intros Heq. apply (inj Some) in Heq. subst s'.
  destruct (text_flow_entry _ _ _ HI Hi eq_refl) as (Ht & Hs & Hg & Hf & _ & Hfirst & Hin).
  split; [done|].
  destruct (conclude_frame i (generateNpcAndStartChat_catch statusMessage)
              (generateNpcAndStartChat_try random statusMessage (Some (Parsed profile)) s)
              (generateNpcAndStartChat_catch_frame _)) as [Hc Hr].
  revert Hc Hr. unfold generateNpcAndStartChat_try, removeChild. proj.
  rewrite decide_True by done. proj.
  match goal with
  | |- context [firstMessageLoop random ?a ?b ?c ?d] =>
      destruct (firstMessageLoop_frame random a b c d) as [Fs Fr];
      pose proof (firstMessageLoop_rest a b c d) as Fp;
      generalize dependent (firstMessageLoop random a b c d)
  end.
  intros r Fs Fr Fp (Hc1 & Hc2 & Hc3) Hr.
  rewrite Fs in Hc1, Hc2, Hc3. rewrite Fr in Hr. proj.
  split; [done|]. split; [done|].
  split; [rewrite Hc2; do 3 f_equal; rewrite length_app; cbn; lia|].
  split; [by rewrite Hr, <- app_assoc|].
  destruct Fp as [Fp1 Fp2]. proj.
  assert (i < length (pending s)) as Hlt by (by eapply lookup_lt_Some).
  destruct r as [s1 [k| |]]; cbn [conclude fst] in *.
  - proj. rewrite Fp1, Fp2. split; [|done].
    rewrite insert_app_l by done. apply elem_of_app. right. by left.
  - proj. rewrite Fp1, Fp2. split; [|done].
    rewrite delete_take_drop, take_app_le, drop_app_le by lia.
    rewrite app_assoc. apply elem_of_app. right. by left.
  - unfold generateNpcAndStartChat_catch, removeChild.
    case_decide; proj; rewrite Fp1, Fp2; (split; [|done]);
      rewrite delete_take_drop, take_app_le, drop_app_le by lia;
      rewrite app_assoc; apply elem_of_app; right; by left.
Qed.

(** In dialogue an accepted submission starts its thinking time. *)
Lemma dialogue_submit s c :
  isGenerating (session s) = false ->
  isFirstMessage (session s) = false ->
  chat (session s) = Some c ->
  JsString.trim (inputValue (form s)) <> [] ->
  exists s',
    step random s Submit = Some s'
    /\ pending s'
       = pending s
         ++ [Thinking (JsString.trim (inputValue (form s)))
               (getThinkingTime random (JsString.trim (inputValue (form s))) (draws s)).1]
    /\ requests s' = requests s
    /\ session s' = set_isGenerating true (session s)
    /\ chatHistory (transcript s')
       = chatHistory (transcript s) ++ [created (transcript s)]
    /\ elements (transcript s') !! created (transcript s)
       = Some {| sender := user; streaming := false; firstNpcReply := false;
                 paragraph := [TextNode (JsString.trim (inputValue (form s)))] |}.
Proof.
  intros Hg Hfirst Hchat Hin. cbn [step]. unfold handleChatSubmit.
  rewrite Hg. destruct (JsString.trim (inputValue (form s))) as [|u input]; [done|].
  proj. rewrite Hfirst, Hchat. unfold runRand. proj.
  eexists. split; [done|]. proj. by rewrite lookup_insert_eq.
Qed.

(** After its thinking time the message goes to the chat session. *)
Lemma thinking_step i userInput thinkingTime c s :
  pending s !! i = Some (Thinking userInput thinkingTime) ->
  chat (session s) = Some c ->
  exists s',
    step random s (Settle i TimerElapsed) = Some s'
    /\ requests s' = requests s ++ [SendMessageStream c userInput]
    /\ session s' = session s
    /\ transcript s' = transcript s
    /\ pending s' = <[i:=AwaitingStream]> (pending s).
Proof.
  intros Hi Hchat. cbn [step]. rewrite Hi. cbn [mbind option_bind resume].
  unfold sendMessage. rewrite Hchat. cbn [conclude]. by eexists.
Qed.

(** C9: in every reachable state, once the first-message flag is cleared
    the chat session and the profile are both there; so the test of line
    279 succeeds for an accepted submission, and the call of line 286 finds
    the session it is made on. *)
Theorem dialogue_has_chat_and_profile es s :
  run random initial es = Some s ->
  isFirstMessage (session s) = false ->
  is_Some (chat (session s))
  /\ is_Some (npcProfile (session s))
  /\ (isGenerating (session s) = false ->
      JsString.trim (inputValue (form s)) <> [] ->
      exists thinkingTime,
        pending (handleChatSubmit random s)
        = pending s ++ [Thinking (JsString.trim (inputValue (form s))) thinkingTime])
  /\ (forall i userInput thinkingTime,
        pending s !! i = Some (Thinking userInput thinkingTime) ->
        exists c s',
          chat (session s) = Some c
          /\ step random s (Settle i TimerElapsed) = Some s'
          /\ requests s' = requests s ++ [SendMessageStream c userInput]).
Proof.
  intros Hrun Hfirst. destruct (run_inv _ _ Hrun) as [_ Hs _].
  unfold inv_session in Hs. rewrite Hfirst in Hs.
  destruct Hs as ([c Hchat] & Hprofile & _).
  split; [by exists c|]. split; [done|]. split.
  - intros Hg Hin.
    destruct (dialogue_submit s c Hg Hfirst Hchat Hin) as (s' & Hstep & Hp & _).
    cbn [step] in Hstep. apply (inj Some) in Hstep. rewrite Hstep. by eexists.
  - intros i userInput thinkingTime Hi.
    destruct (thinking_step i userInput thinkingTime c s Hi Hchat)
      as (s' & Hstep & Hr & _).
    by exists c, s'.
Qed.

(** C5: a submission made while the busy flag is set changes nothing: the
    turn ends in the state it began in, so the transcript, the session
    variables, the pending work and the calls made are all as before. *)
Theorem busy_submission_ignored s :
  isGenerating (session s) = true ->
  step random s Submit = Some s.
Proof.
  intros Hg. cbn [step]. unfold handleChatSubmit. by rewrite Hg.
Qed.

(** The first submission asks for a profile. *)
Lemma first_submit s :
  isGenerating (session s) = false ->
  isFirstMessage (session s) = true ->
  JsString.trim (inputValue (form s)) <> [] ->
  exists s',
    step random s Submit = Some s'
    /\ pending s' = pending s ++ [AwaitingProfile (S (created (transcript s)))]
    /\ requests s'
       = requests s
         ++ [GenerateContent (npcGenerationPrompt (JsString.trim (inputValue (form s))))]
    /\ session s' = set_isGenerating true (session s)
    /\ chatHistory (transcript s')
       = chatHistory (transcript s)
         ++ [created (transcript s); S (created (transcript s))]
    /\ created (transcript s') = S (S (created (transcript s)))
    /\ elements (transcript s') !! created (transcript s)
       = Some {| sender := user; streaming := false; firstNpcReply := false;
                 paragraph := [TextNode (JsString.trim (inputValue (form s)))] |}.
Proof.
  intros Hg Hfirst Hin. cbn [step]. unfold handleChatSubmit.
  rewrite Hg. destruct (JsString.trim (inputValue (form s))) as [|u input]; [done|].
  proj. rewrite Hfirst. unfold generateNpcAndStartChat. proj.
  eexists. split; [done|]. proj. rewrite <- app_assoc.
  rewrite lookup_insert_ne by lia. by rewrite lookup_insert_eq.
Qed.

(** What a submission does with the trimmed input, when the page is not
    busy. *)
Lemma submit_trimmed s :
  isGenerating (session s) = false ->
  (JsString.trim (inputValue (form s)) = [] -> step random s Submit = Some s)
  /\ (JsString.trim (inputValue (form s)) <> [] ->
      exists s' later,
        step random s Submit = Some s'
        /\ chatHistory (transcript s')
           = chatHistory (transcript s) ++ created (transcript s) :: later
        /\ elements (transcript s') !! created (transcript s)
           = Some {| sender := user; streaming := false; firstNpcReply := false;
                     paragraph := [TextNode (JsString.trim (inputValue (form s)))] |}
        /\ (isFirstMessage (session s) = true ->
            requests s'
            = requests s
              ++ [GenerateContent
                    (npcGenerationPrompt (JsString.trim (inputValue (form s))))])
        /\ (isFirstMessage (session s) = false ->
            forall c, chat (session s) = Some c ->
            requests s' = requests s
            /\ exists s'',
                 step random s' (Settle (length (pending s)) TimerElapsed) = Some s''
                 /\ requests s''
                    = requests s
                      ++ [SendMessageStream c (JsString.trim (inputValue (form s)))])).
Proof.
  intros Hg. split.
  - intros Hin. cbn [step]. unfold handleChatSubmit. by rewrite Hg, Hin.
  - intros Hin. destruct (isFirstMessage (session s)) eqn:Hfirst.
    + destruct (first_submit s Hg Hfirst Hin) as (s' & Hstep & _ & Hr & _ & Hh & _ & He).
      exists s', [S (created (transcript s))]. by repeat split.
    + destruct (chat (session s)) as [c|] eqn:Hchat.
      * destruct (dialogue_submit s c Hg Hfirst Hchat Hin)
          as (s' & Hstep & Hp & Hr & Hs & Hh & He).
        exists s', []. split; [done|]. split; [done|]. split; [done|].
        split; [done|]. intros _ c' [= <-]. split; [done|].
        destruct (thinking_step (length (pending s))
                    (JsString.trim (inputValue (form s)))
                    (getThinkingTime random (JsString.trim (inputValue (form s)))
                       (draws s)).1 c s')
          as (s'' & Hstep' & Hr' & _).
        { rewrite Hp. by apply list_lookup_middle. }
        { by rewrite Hs. }
        exists s''. split; [done|]. by rewrite Hr', Hr.
      * revert Hin. cbn [step]. unfold handleChatSubmit. rewrite Hg.
        destruct (JsString.trim (inputValue (form s))) as [|u input]; [done|].
        intros _. proj. rewrite Hfirst, Hchat.
        eexists _, []. split; [done|]. proj. rewrite lookup_insert_eq.
        by repeat split.
Qed.

(** C10: when the page is not busy, a submission whose input is empty or
    white space only changes nothing at all: the state after it is the state
    before it, transcript, requests and session included.  Every other
    input is some [text] that neither starts nor ends with white space,
    between two runs of white space; its submission puts [text], without
    them, in the transcript as a user message, and sends that same [text]:
    inside the profile prompt, between its two fixed parts, before contact,
    and to the chat session (after the thinking time) in dialogue. *)
Theorem blank_submission_ignored s :
  isGenerating (session s) = false ->
  (isBlank (inputValue (form s)) = true -> step random s Submit = Some s)
  /\ (forall before text after,
      inputValue (form s) = before ++ text ++ after ->
      isBlank before = true -> isBlank after = true ->
      hasNoOuterSpace text = true ->
      exists s' later,
        step random s Submit = Some s'
        /\ chatHistory (transcript s')
           = chatHistory (transcript s) ++ created (transcript s) :: later
        /\ elements (transcript s') !! created (transcript s)
           = Some {| sender := user; streaming := false; firstNpcReply := false;
                     paragraph := [TextNode text] |}
        /\ (isFirstMessage (session s) = true ->
            requests s'
            = requests s ++ [GenerateContent (promptBeforeInput ++ text ++ promptAfterInput)])
        /\ (isFirstMessage (session s) = false ->
            forall c, chat (session s) = Some c ->
            requests s' = requests s
            /\ exists s'',
                 step random s' (Settle (length (pending s)) TimerElapsed) = Some s''
                 /\ requests s'' = requests s ++ [SendMessageStream c text]))
  /\ (isBlank (inputValue (form s)) = true
      \/ exists before text after,
           inputValue (form s) = before ++ text ++ after
           /\ isBlank before = true /\ isBlank after = true
           /\ hasNoOuterSpace text = true).
Proof.
  intros Hg. destruct (submit_trimmed s Hg) as [Hignored Haccepted].
  split; [|split].
  - intros Hblank. by apply Hignored, trim_blank.
  - intros before text after Hin Hb Ha Ht.
    pose proof (trim_between before text after Hb Ha Ht) as Htrim.
    rewrite <- Hin in Htrim. rewrite Htrim in Haccepted.
    apply Haccepted. intros ->. done.
  - apply trim_cases.
Qed.

(** C3: when the profile request is rejected, or its response does not
    parse, the placeholder leaves the transcript, one message with the
    fixed failure text is appended (and nothing else changes there), no
    chat session exists and none was asked for, the page is still awaiting
    first contact, and the busy flag is cleared with no text flow pending;
    so a text typed and submitted afterwards asks for a profile again. *)
Theorem profile_failure_recovers es s i statusMessage r :
  run random initial es = Some s ->
  pending s !! i = Some (AwaitingProfile statusMessage) ->
  r = GenerateContentRejected \/ r = GenerateContentFulfilled SyntaxError ->
  exists s',
    step random s (Settle i r) = Some s'
    /\ statusMessage ∈ chatHistory (transcript s)
    /\ chatHistory (transcript s')
       = filter (fun x => x ≠ statusMessage) (chatHistory (transcript s))
         ++ [created (transcript s)]
    /\ (statusMessage ∉ chatHistory (transcript s'))
    /\ elements (transcript s')
       = (<[created (transcript s) :=
             {| sender := npc; streaming := false; firstNpcReply := false;
                paragraph := [TextNode connectionLostText] |}]>
            (elements (transcript s)))
    /\ elements (transcript s) !! created (transcript s) = None
    /\ chat (session s') = None
    /\ npcProfile (session s') = None
    /\ requests s' = requests s
    /\ count isChatsCreate (requests s') = 0
    /\ isFirstMessage (session s') = true
    /\ isGenerating (session s') = false
    /\ textFlows (pending s') = []
    /\ (forall value,
          JsString.trim value <> [] ->
          exists s'',
            run random s' [UserTypes value; Submit] = Some s''
            /\ requests s''
               = requests s
                 ++ [GenerateContent (npcGenerationPrompt (JsString.trim value))]).
Proof.
  intros Hrun Hi Hr. pose proof (run_inv _ _ Hrun) as HI.
  destruct (text_flow_entry _ _ _ HI Hi eq_refl)
    as ([Hh He] & Hs & Hg & Hf & _ & Hfirst & Hin).
  unfold inv_session in Hs. rewrite Hfirst in Hs. destruct Hs as (Hchat & Hprof & Hcount).
  assert (statusMessage ≠ created (transcript s)) as Hne.
  { apply Hh in Hin. lia. }
  assert (elements (transcript s) !! created (transcript s) = None) as Hfresh.
  { destruct (elements (transcript s) !! created (transcript s)) eqn:E; [|done].
    assert (created (transcript s) < created (transcript s)); [|lia].
    apply He. by rewrite E. }
  cbn [step]. rewrite Hi. cbn [mbind option_bind].
  assert (textFlows (delete i (pending s)) = []) as Hidle.
  { unfold textFlows in *. by eapply filter_delete_unit. }
  assert (forall s0 value,
            isGenerating (session s0) = false ->
            isFirstMessage (session s0) = true ->
            requests s0 = requests s ->
            JsString.trim value <> [] ->
            exists s'',
              run random s0 [UserTypes value; Submit] = Some s''
              /\ requests s''
                 = requests s
                   ++ [GenerateContent (npcGenerationPrompt (JsString.trim value))])
    as Hretry.
  { intros s0 value Hg0 Hf0 Hr0 Hv. cbn [run step mbind option_bind].
    match goal with
    | |- context [handleChatSubmit random ?st] =>
        destruct (first_submit st Hg0 Hf0 Hv) as (s'' & Hstep & _ & Hreq & _)
    end.
    cbn [step] in Hstep. apply (inj Some) in Hstep. rewrite Hstep.
    exists s''. split; [done|]. rewrite Hreq. proj. by rewrite Hr0. }
  destruct Hr as [-> | ->]; cbn [resume generateNpcAndStartChat_try conclude];
    unfold generateNpcAndStartChat_catch, removeChild; proj;
    rewrite decide_True by done; proj;
    (eexists; split; [done|]); proj;
    (split; [done|]); (split; [done|]);
    (split; [rewrite elem_of_app, list_elem_of_filter, list_elem_of_singleton; tauto|]);
    do 8 (split; [done|]); (split; [done|]);
    intros value Hv; by apply Hretry.
Qed.

(** The settling of the image request: whatever the outcome, only the
    portrait region and the list of pending work change, and the loading
    indicator ends hidden; without a usable image the placeholder is shown
    with the fixed caption and the image is left as it was. *)
Lemma image_step i r s :
  pending s !! i = Some AwaitingImage ->
  imageSettled r = true ->
  exists s',
    step random s (Settle i r) = Some s'
    /\ session s' = session s
    /\ transcript s' = transcript s
    /\ form s' = form s
    /\ signal s' = signal s
    /\ requests s' = requests s
    /\ draws s' = draws s
    /\ pending s' = delete i (pending s)
    /\ loaderHidden (portrait s') = true
    /\ (imageFailed r = true ->
        placeholderHidden (portrait s') = false
        /\ placeholderCaption (portrait s') = Some portraitFailedText
        /\ imageHidden (portrait s') = imageHidden (portrait s)
        /\ imageSrc (portrait s') = imageSrc (portrait s)).
Proof.
  intros Hi Hr. cbn [step]. rewrite Hi. cbn [mbind option_bind].
  destruct r as [| | | | | | | |[|[bytes|] rest]|]; try done;
    cbn [resume]; unfold generateNpcImage_resume; proj;
    (eexists; split; [done|]); proj; repeat split; done.
Qed.

Lemma assignsProfile_true s e s' :
  assignsProfile s e s' = true ->
  exists i statusMessage profile,
    e = Settle i (GenerateContentFulfilled (Parsed profile))
    /\ pending s !! i = Some (AwaitingProfile statusMessage).
Proof.
  unfold assignsProfile. destruct e as [| |i [[|profile]| | | | | | | | |]]; try done.
  destruct (pending s !! i) as [[statusMessage| | | | | |]|] eqn:E; try done.
  intros _. by exists i, statusMessage, profile.
Qed.

Lemma sendsMessage_true s e :
  sendsMessage s e = true ->
  exists i userInput thinkingTime,
    e = Settle i TimerElapsed
    /\ pending s !! i = Some (Thinking userInput thinkingTime).
Proof.
  unfold sendsMessage. destruct e as [| |i []]; try done.
  destruct (pending s !! i) as [[| |userInput thinkingTime| | | |]|] eqn:E; try done.
  intros _. by exists i, userInput, thinkingTime.
Qed.

Lemma turns_contact es :
  forall s s',
    Inv s -> run random s es = Some s' ->
    turns random establishesContact s es
    = (if isFirstMessage (session s)
       then (if isFirstMessage (session s') then 0 else 1)
       else 0)
    /\ (isFirstMessage (session s) = false -> isFirstMessage (session s') = false).
Proof.
  induction es as [|e es IH]; intros s s' HI; cbn [run turns].
  - intros [= <-]. split; [|done]. by destruct (isFirstMessage (session s)).
  - destruct (step random s e) as [s1|] eqn:Hstep; [|done]. cbn [mbind option_bind].
    intros Hrun. pose proof (step_inv _ _ _ _ HI Hstep) as HI1.
    destruct (IH s1 s' HI1 Hrun) as [Hturns Hmono]. rewrite Hturns.
    unfold establishesContact.
    destruct (step_effect _ _ _ _ HI Hstep)
      as [(Hf & _) _|_ _ _ _ (Hf & _) _|i sid p _ _ Hf0 Hf1 _ _ _|i u t c _ _ _ _ (Hf & _) _];
      try (rewrite Hf in *; destruct (isFirstMessage (session s)); cbn; by auto).
    rewrite Hf0, Hf1 in *. rewrite (Hmono eq_refl). by split.
Qed.

Lemma turns_profile es :
  forall s s',
    Inv s -> run random s es = Some s' ->
    turns random assignsProfile s es
    + match npcProfile (session s) with Some _ => 1 | None => 0 end
    = match npcProfile (session s') with Some _ => 1 | None => 0 end.
Proof.
  induction es as [|e es IH]; intros s s' HI; cbn [run turns].
  - by intros [= <-].
  - destruct (step random s e) as [s1|] eqn:Hstep; [|done]. cbn [mbind option_bind].
    intros Hrun. pose proof (step_inv _ _ _ _ HI Hstep) as HI1.
    rewrite <- (IH s1 s' HI1 Hrun).
    destruct (assignsProfile s e s1) eqn:Ha.
    + apply assignsProfile_true in Ha as (i & sid & p & -> & Hi).
      destruct (contact_step _ _ _ _ _ HI Hi Hstep) as (Hf0 & _ & Hp & _).
      destruct HI as [_ Hs _]. unfold inv_session in Hs. rewrite Hf0 in Hs.
      destruct Hs as (_ & Hnone & _). rewrite Hnone, Hp. lia.
    + destruct (step_effect _ _ _ _ HI Hstep)
        as [(_ & _ & Hp) _|_ _ _ _ (_ & _ & Hp) _|i sid p He Hi _ _ _ _ _
           |i u t c _ _ _ _ (_ & _ & Hp) _];
        try (rewrite Hp; lia).
      subst e. unfold assignsProfile in Ha. by rewrite Hi in Ha.
Qed.

(** C4: along any run from the loaded page, the assignment of line 158
    runs at most once, exactly when a profile exists at the end; a profile
    that exists is left as it is by every turn, which never runs the
    assignment again; and a turn that makes a profile exist is the arrival
    of a parsed profile response, whose value it stores. *)
Theorem profile_assigned_once es s :
  run random initial es = Some s ->
  turns random assignsProfile initial es
  = match npcProfile (session s) with Some _ => 1 | None => 0 end
  /\ (forall e s' p,
        step random s e = Some s' ->
        npcProfile (session s) = Some p ->
        npcProfile (session s') = Some p /\ assignsProfile s e s' = false)
  /\ (forall e s' p,
        step random s e = Some s' ->
        npcProfile (session s) = None ->
        npcProfile (session s') = Some p ->
        exists i statusMessage,
          e = Settle i (GenerateContentFulfilled (Parsed p))
          /\ pending s !! i = Some (AwaitingProfile statusMessage)).
Proof.
  intros Hrun. pose proof (run_inv _ _ Hrun) as HI.
  split; [|split].
  - pose proof (turns_profile es initial s initial_inv Hrun) as H.
    cbn [initial session npcProfile] in H. lia.
  - intros e s' p Hstep Hp.
    assert (isFirstMessage (session s) = false) as Hfirst.
    { destruct HI as [_ Hs _]. unfold inv_session in Hs.
      destruct (isFirstMessage (session s)); [|done].
      destruct Hs as (_ & Hnone & _). congruence. }
    destruct (step_effect _ _ _ _ HI Hstep)
      as [(_ & _ & Hp') _|_ _ _ _ (_ & _ & Hp') _|i sid p' _ _ Hf0 _ _ _ _
         |i u t c _ _ _ _ (_ & _ & Hp') _];
      try congruence; (split; [congruence|]).
    all: destruct (assignsProfile s e s') eqn:Ha; [|done].
    all: apply assignsProfile_true in Ha as (j & sid' & p'' & -> & Hj).
    all: destruct (contact_step _ _ _ _ _ HI Hj Hstep) as (Hf0 & _); congruence.
  - intros e s' p Hstep Hnone Hp.
    destruct (step_effect _ _ _ _ HI Hstep)
      as [(_ & _ & Hp') _|_ _ _ _ (_ & _ & Hp') _|i sid p' He Hi _ _ Hp' _ _
         |i u t c _ _ _ _ (_ & _ & Hp') _];
      try congruence.
    exists i, sid. split; [|done]. congruence.
Qed.

(** C2: along any run from the loaded page the state machine leaves
    [AWAITING_FIRST_CONTACT] at most once, exactly when the page ends in
    dialogue, and only at the arrival of a parsed profile response.  In
    dialogue every turn keeps the flag cleared and the chat session the
    same, makes no profile request and creates no chat session (one was
    created in all), and makes one [sendMessageStream] call exactly when it
    resumes a submission after its thinking time; an accepted submission is
    so forwarded, with its text, to the existing session. *)
Theorem contact_once_then_forward es s :
  run random initial es = Some s ->
  turns random establishesContact initial es
  = (if isFirstMessage (session s) then 0 else 1)
  /\ (isFirstMessage (session s) = true ->
      forall e s',
        step random s e = Some s' ->
        isFirstMessage (session s') = false ->
        exists i statusMessage profile,
          e = Settle i (GenerateContentFulfilled (Parsed profile))
          /\ pending s !! i = Some (AwaitingProfile statusMessage))
  /\ (isFirstMessage (session s) = false ->
      count isChatsCreate (requests s) = 1
      /\ (forall e s',
            step random s e = Some s' ->
            isFirstMessage (session s') = false
            /\ chat (session s') = chat (session s)
            /\ count isGenerateContent (requests s')
               = count isGenerateContent (requests s)
            /\ count isChatsCreate (requests s') = 1
            /\ count isSendMessageStream (requests s')
               = count isSendMessageStream (requests s)
                 + (if sendsMessage s e then 1 else 0))
      /\ (isGenerating (session s) = false ->
          JsString.trim (inputValue (form s)) <> [] ->
          exists c s2,
            chat (session s) = Some c
            /\ run random s [Submit; Settle (length (pending s)) TimerElapsed] = Some s2
            /\ requests s2
               = requests s
                 ++ [SendMessageStream c (JsString.trim (inputValue (form s)))]
            /\ chat (session s2) = Some c)).
Proof.
  intros Hrun. pose proof (run_inv _ _ Hrun) as HI.
  split; [|split].
  - by destruct (turns_contact es initial s initial_inv Hrun) as [-> _].
  - intros Hfirst e s' Hstep Hfirst'.
    destruct (step_effect _ _ _ _ HI Hstep)
      as [(Hf & _) _|_ _ _ _ (Hf & _) _|i sid p He Hi _ _ _ _ _
         |i u t c _ _ _ _ (Hf & _) _];
      try congruence.
    by exists i, sid, p.
  - intros Hfirst.
    assert (exists c, chat (session s) = Some c
                      /\ count isChatsCreate (requests s) = 1) as (c & Hchat & Hcount).
    { destruct HI as [_ Hs _]. unfold inv_session in Hs. rewrite Hfirst in Hs.
      destruct Hs as ([c Hc] & _ & Hn). by exists c. }
    split; [done|]. split.
    + intros e s' Hstep. pose proof (step_inv _ _ _ _ HI Hstep) as HI'.
      assert (isFirstMessage (session s') = false
              /\ chat (session s') = chat (session s)) as [Hf' Hc'].
      { destruct (step_effect _ _ _ _ HI Hstep)
          as [(Hf & Hc & _) _|_ _ _ _ (Hf & Hc & _) _|i sid p _ _ Hf0 _ _ _ _
             |i u t c' _ _ _ _ (Hf & Hc & _) _];
          split; congruence. }
      split; [done|]. split; [done|].
      assert (count isChatsCreate (requests s') = 1) as Hcount'.
      { destruct HI' as [_ Hs _]. unfold inv_session in Hs. rewrite Hf' in Hs.
        by destruct Hs as (_ & _ & Hn). }
      destruct (sendsMessage s e) eqn:Hsend.
      * apply sendsMessage_true in Hsend as (i & u & t & -> & Hi).
        destruct (thinking_step i u t c s Hi Hchat) as (s'' & Hstep' & Hr & _).
        rewrite Hstep in Hstep'. apply (inj Some) in Hstep'. subst s''.
        rewrite Hr, !count_snoc in *. cbn in *. lia.
      * destruct (step_effect _ _ _ _ HI Hstep)
          as [_ Hr|_ _ Hf0 _ _ _|i sid p _ _ Hf0 _ _ _ _
             |i u t c' He Hi _ _ _ _];
          try congruence.
        -- rewrite Hr. split; [done|]. split; [done|lia].
        -- subst e. unfold sendsMessage in Hsend. by rewrite Hi in Hsend.
    + intros Hg Hin.
      destruct (dialogue_submit s c Hg Hfirst Hchat Hin)
        as (s1 & Hstep & Hp & Hr & Hs & _).
      destruct (thinking_step (length (pending s))
                  (JsString.trim (inputValue (form s)))
                  (getThinkingTime random (JsString.trim (inputValue (form s)))
                     (draws s)).1 c s1)
        as (s2 & Hstep' & Hr' & Hs' & _).
      { rewrite Hp. by apply list_lookup_middle. }
      { by rewrite Hs. }
      exists c, s2. split; [done|]. split.
      { cbn [run]. rewrite Hstep. cbn [mbind option_bind]. by rewrite Hstep'. }
      split; [by rewrite Hr', Hr|]. by rewrite Hs', Hs.
Qed.

Lemma lastMessage_snoc s history element m :
  chatHistory (transcript s) = history ++ [element] ->
  elements (transcript s) !! element = Some m ->
  lastMessage s = Some m.
Proof.
  intros Hh He. unfold lastMessage. by rewrite Hh, last_snoc.
Qed.

Lemma concat_chars (chunks : list jsstring) :
  concat (concat (map JsString.chars chunks)) = concat chunks.
Proof.
  induction chunks as [|c chunks IH]; [done|].
  cbn [map concat]. by rewrite concat_app, chars_concat, IH.
Qed.

(** C1: a first message, given whole, and a reply, given in any chunks,
    are rendered to the end of the input: the message then last in the
    transcript holds one text node for each character in order, so its text
    is the input (the concatenation of the chunks), it is no longer marked
    as streaming and the cursor is gone.  The same holds in any run of the
    page, whatever else happens in between: when the stream of a reply
    ends, the message shows the chunks the stream yielded, and when the
    last timer of a first message elapses, the message shows the first
    message of the profile. *)
Theorem streaming_render_complete i :
  (forall es s statusMessage profile,
      run random initial es = Some s ->
      pending s !! i = Some (AwaitingProfile statusMessage) ->
      exists s' m,
        run random s (firstMessageEvents i profile) = Some s'
        /\ lastMessage s' = Some m
        /\ paragraph m = map TextNode (JsString.chars (first_message profile))
        /\ textContent (paragraph m) = first_message profile
        /\ streaming m = false
        /\ (CursorSpan ∉ paragraph m))
  /\ (forall s chunks,
        pending s !! i = Some AwaitingStream ->
        exists s' m,
          run random s (replyEvents i chunks) = Some s'
          /\ lastMessage s' = Some m
          /\ paragraph m = map TextNode (concat (map JsString.chars chunks))
          /\ textContent (paragraph m) = concat chunks
          /\ streaming m = false
          /\ (CursorSpan ∉ paragraph m))
  /\ (forall es s element,
        run random initial es = Some s ->
        pending s !! i = Some (AwaitingChunk element) ->
        exists s' m,
          step random s (Settle i StreamDone) = Some s'
          /\ lastMessage s' = Some m
          /\ paragraph m = map TextNode (concat (map JsString.chars (streamed es)))
          /\ textContent (paragraph m) = concat (streamed es)
          /\ streaming m = false
          /\ (CursorSpan ∉ paragraph m))
  /\ (forall es s statusMessage element delay,
        run random initial es = Some s ->
        pending s !! i = Some (TypingFirstMessage statusMessage element [] delay) ->
        exists s' m p,
          npcProfile (session s) = Some p
          /\ step random s (Settle i TimerElapsed) = Some s'
          /\ lastMessage s' = Some m
          /\ paragraph m = map TextNode (JsString.chars (first_message p))
          /\ textContent (paragraph m) = first_message p
          /\ streaming m = false
          /\ (CursorSpan ∉ paragraph m)).
Proof.
  split; [|split; [|split]].
  - intros es s statusMessage profile Hrun Hi.
    pose proof (run_inv _ _ Hrun) as HI.
    destruct (text_flow_entry _ _ _ HI Hi eq_refl) as (_ & _ & _ & _ & _ & _ & Hin).
    destruct (firstMessage_run random i statusMessage profile s Hi Hin)
      as (s' & Hrun' & Hh & Hout & _).
    eexists s', _. split; [done|].
    split; [by eapply lastMessage_snoc|]. cbn [paragraph streaming].
    split; [done|]. split; [by rewrite textContent_text, chars_concat|].
    split; [done|apply no_cursor_typed].
  - intros s chunks Hi.
    destruct (reply_run random i chunks s Hi) as (s' & Hrun' & Hh & Hout & _).
    eexists s', _. split; [done|].
    split; [by eapply lastMessage_snoc|]. cbn [paragraph streaming].
    split; [done|]. split; [by rewrite textContent_text, concat_chars|].
    split; [done|apply no_cursor_typed].
  - intros es s element Hrun Hi.
    pose proof (run_inv _ _ Hrun) as HI.
    pose proof (run_rendering random es [] initial s initial_inv initial_rendering Hrun)
      as Hren.
    destruct (reply_completes random (streamed es) i element s HI Hren Hi)
      as (s' & Hstep & Hlast).
    eexists s', _. split; [done|]. split; [done|]. cbn [paragraph streaming].
    split; [done|]. split; [by rewrite textContent_text, concat_chars|].
    split; [done|apply no_cursor_typed].
  - intros es s statusMessage element delay Hrun Hi.
    pose proof (run_inv _ _ Hrun) as HI.
    pose proof (run_rendering random es [] initial s initial_inv initial_rendering Hrun)
      as Hren.
    destruct (first_message_completes random (streamed es) i statusMessage element
                delay s HI Hren Hi) as (s' & p & Hp & Hstep & Hlast).
    eexists s', _, p. split; [done|]. split; [done|]. split; [done|].
    cbn [paragraph streaming].
    split; [done|]. split; [by rewrite textContent_text, chars_concat|].
    split; [done|apply no_cursor_typed].
Qed.

(** However a reply is cut into chunks, the text rendered is the same. *)
Corollary chunking_irrelevant i s chunks1 chunks2 :
  pending s !! i = Some AwaitingStream ->
  concat chunks1 = concat chunks2 ->
  exists s1 s2 m1 m2,
    run random s (replyEvents i chunks1) = Some s1
    /\ run random s (replyEvents i chunks2) = Some s2
    /\ lastMessage s1 = Some m1
    /\ lastMessage s2 = Some m2
    /\ textContent (paragraph m1) = textContent (paragraph m2).
Proof.
  intros Hi Heq.
  destruct (reply_run random i chunks1 s Hi) as (s1 & Hrun1 & Hh1 & Hout1 & _).
  destruct (reply_run random i chunks2 s Hi) as (s2 & Hrun2 & Hh2 & Hout2 & _).
  eexists s1, s2, _, _. split; [done|]. split; [done|].
  split; [by eapply lastMessage_snoc|]. split; [by eapply lastMessage_snoc|].
  cbn [paragraph]. by rewrite !textContent_text, !concat_chars.
Qed.

Lemma resume_enabled i k r s : awaits k r = true -> is_Some (resume random i k r s).
Proof. destruct k, r; try done; intros _; by eexists. Qed.

Lemma firstMessage_timers_partial i statusMessage element first n :
  forall rest typed delay s,
    n <= length rest ->
    pending s !! i = Some (TypingFirstMessage statusMessage element rest delay) ->
    typing element first typed s ->
    exists s' delay',
      run random s (repeat (Settle i TimerElapsed) n) = Some s'
      /\ pending s'
         = <[i:=TypingFirstMessage statusMessage element (drop n rest) delay']> (pending s)
      /\ typing element first (typed ++ take n rest) s'
      /\ chatHistory (transcript s') = chatHistory (transcript s)
      /\ session s' = session s
      /\ requests s' = requests s
      /\ portrait s' = portrait s.
Proof.
  induction n as [|n IH]; intros rest typed delay s Hn Hi Hty.
  - exists s, delay. cbn [repeat run take drop]. rewrite app_nil_r.
    split; [done|]. split; [by rewrite list_insert_id|done].
  - destruct rest as [|c rest]; [cbn in Hn; lia|]. cbn [length] in Hn.
    cbn [repeat run step]. rewrite Hi. cbn [mbind option_bind resume].
    unfold firstMessageLoop.
    destruct (typeCharacter_typing random element first typed c s Hty)
      as (d & s1 & -> & Hty1 & Hh1 & Hs1 & Hr1 & Hp1 & Hq1).
    cbn [conclude].
    edestruct (IH rest (typed ++ [c]) d
                 (with_pending
                    (fun ks => <[i:=TypingFirstMessage statusMessage element rest d]> ks) s1))
      as (s' & d' & Hrun & Hp & Hty' & Hh & Hs & Hr & Hq).
    { lia. }
    { proj. rewrite Hp1. apply list_lookup_insert_eq. by eapply lookup_lt_Some. }
    { exact Hty1. }
    exists s', d'. split; [exact Hrun|]. proj. cbn [take drop].
    rewrite <- app_assoc in Hty'. rewrite Hp1 in Hp.
    split; [by rewrite Hp, list_insert_insert_eq|]. split; [exact Hty'|].
    repeat split; congruence.
Qed.

(** The turn at which the profile arrives, when its first message has a
    first character. *)
Lemma contact_typing i statusMessage profile c rest s :
  pending s !! i = Some (AwaitingProfile statusMessage) ->
  statusMessage ∈ chatHistory (transcript s) ->
  JsString.chars (first_message profile) = c :: rest ->
  exists s' delay,
    step random s (Settle i (GenerateContentFulfilled (Parsed profile))) = Some s'
    /\ pending s'
       = <[i:=TypingFirstMessage statusMessage (created (transcript s)) rest delay]>
           (pending s ++ [AwaitingImage])
    /\ typing (created (transcript s)) true [c] s'
    /\ chatHistory (transcript s')
       = filter (fun x => x ≠ statusMessage) (chatHistory (transcript s))
         ++ [created (transcript s)]
    /\ isFirstMessage (session s') = false
    /\ isGenerating (session s') = isGenerating (session s).
Proof.
  intros Hi Hin Hchars. cbn [step]. rewrite Hi. cbn [mbind option_bind resume].
  unfold generateNpcAndStartChat_try, removeChild. proj.
  rewrite decide_True by done. proj. rewrite Hchars.
  match goal with
  | |- context [firstMessageLoop random _ _ _ ?st] => set (s1 := st)
  end.
  assert (typing (created (transcript s)) true [] s1) as Hty.
  { subst s1. unfold typing. proj. by rewrite lookup_alter_eq, lookup_insert_eq. }
  unfold firstMessageLoop.
  destruct (typeCharacter_typing random (created (transcript s)) true [] c s1 Hty)
    as (d & s2 & -> & Hty1 & Hh1 & Hs1 & Hr1 & Hp1 & _).
  cbn [conclude]. eexists _, d. split; [done|]. proj.
  rewrite Hp1, Hh1, Hs1. subst s1. by proj.
Qed.

(** The image request may settle, in any way, at any moment while the
    first message is typed: the message is typed to its end all the same,
    and the loading indicator ends hidden. *)
Lemma interrupted_first_message i statusMessage profile c rest n r s :
  pending s !! i = Some (AwaitingProfile statusMessage) ->
  statusMessage ∈ chatHistory (transcript s) ->
  JsString.chars (first_message profile) = c :: rest ->
  n <= length rest ->
  imageSettled r = true ->
  exists s' m,
    run random s
      (Settle i (GenerateContentFulfilled (Parsed profile))
       :: repeat (Settle i TimerElapsed) n
       ++ Settle (length (pending s)) r
       :: repeat (Settle i TimerElapsed) (S (length rest) - n)) = Some s'
    /\ lastMessage s' = Some m
    /\ paragraph m = map TextNode (JsString.chars (first_message profile))
    /\ streaming m = false
    /\ isFirstMessage (session s') = false
    /\ isGenerating (session s') = false
    /\ loaderHidden (portrait s') = true
    /\ (imageFailed r = true ->
        placeholderHidden (portrait s') = false
        /\ placeholderCaption (portrait s') = Some portraitFailedText).
Proof.
  intros Hi Hin Hchars Hn Hr.
  assert (i < length (pending s)) as Hlt by (by eapply lookup_lt_Some).
  destruct (contact_typing i statusMessage profile c rest s Hi Hin Hchars)
    as (s1 & d & Hstep1 & Hp1 & Hty1 & Hh1 & Hf1 & _).
  destruct (firstMessage_timers_partial i statusMessage (created (transcript s)) true n
              rest [c] d s1 Hn)
    as (s2 & d2 & Hrun2 & Hp2 & Hty2 & Hh2 & Hs2 & _).
  { rewrite Hp1. apply list_lookup_insert_eq. rewrite length_app. lia. }
  { exact Hty1. }
  destruct (image_step (length (pending s)) r s2)
    as (s3 & Hstep3 & Hs3 & Ht3 & _ & _ & _ & _ & Hp3 & Hl3 & Hfail3).
  { rewrite Hp2, Hp1, !list_lookup_insert_ne by lia. by apply list_lookup_middle. }
  { exact Hr. }
  destruct (firstMessage_timers random i statusMessage (created (transcript s)) true
              (drop n rest) ([c] ++ take n rest) d2 s3)
    as (s4 & Hrun4 & Hout4 & Hh4 & Hc4 & Hg4 & _ & _ & Hq4).
  { rewrite Hp3, list_lookup_delete_lt by lia.
    rewrite Hp2. apply list_lookup_insert_eq. rewrite Hp1, length_insert, length_app. lia. }
  { unfold typing. rewrite Ht3. exact Hty2. }
  rewrite <- app_assoc, take_drop in Hout4.
  exists s4. eexists. split.
  { cbn [run]. rewrite Hstep1. cbn [mbind option_bind].
    rewrite run_app, Hrun2. cbn [mbind option_bind run]. rewrite Hstep3.
    cbn [mbind option_bind].
    replace (S (length rest) - n) with (S (length (drop n rest)))
      by (rewrite length_drop; lia).
    exact Hrun4. }
  split.
  { eapply lastMessage_snoc; [|exact Hout4]. by rewrite Hh4, Ht3, Hh2, Hh1. }
  cbn [paragraph streaming]. rewrite Hchars.
  split; [done|]. split; [done|].
  destruct Hc4 as (Hc4 & _). split; [by rewrite Hc4, Hs3, Hs2|].
  split; [done|]. rewrite Hq4. split; [done|].
  intros Hfail. by destruct (Hfail3 Hfail) as (? & ? & _).
Qed.

(** C8: the portrait request is made in the turn in which the profile
    arrives, and that same turn goes on to create the chat session and to
    leave [AWAITING_FIRST_CONTACT], with the image still pending.  When the
    image request settles, whatever the outcome, only the portrait region
    and the list of pending work change and the loading indicator ends
    hidden, and without a usable image the placeholder is shown with the
    fixed caption.  With the image pending every suspended text flow can be
    resumed; and if the image request settles, in any way, at any moment
    while the first message is typed, the message is typed to its end all
    the same. *)
Theorem portrait_failure_isolated es s i :
  run random initial es = Some s ->
  (forall statusMessage profile s',
      pending s !! i = Some (AwaitingProfile statusMessage) ->
      step random s (Settle i (GenerateContentFulfilled (Parsed profile))) = Some s' ->
      requests s'
      = requests s
        ++ [GenerateImages (enhancedPrompt (image_prompt profile));
            ChatsCreate (systemInstructionFor profile)]
      /\ AwaitingImage ∈ pending s'
      /\ loaderHidden (portrait s') = false
      /\ is_Some (chat (session s'))
      /\ isFirstMessage (session s') = false)
  /\ (forall r,
        pending s !! i = Some AwaitingImage ->
        imageSettled r = true ->
        exists s',
          step random s (Settle i r) = Some s'
          /\ session s' = session s
          /\ transcript s' = transcript s
          /\ form s' = form s
          /\ signal s' = signal s
          /\ requests s' = requests s
          /\ draws s' = draws s
          /\ pending s' = delete i (pending s)
          /\ loaderHidden (portrait s') = true
          /\ (imageFailed r = true ->
              placeholderHidden (portrait s') = false
              /\ placeholderCaption (portrait s') = Some portraitFailedText
              /\ imageHidden (portrait s') = imageHidden (portrait s)
              /\ imageSrc (portrait s') = imageSrc (portrait s)))
  /\ (forall j k r,
        pending s !! i = Some AwaitingImage ->
        pending s !! j = Some k ->
        isTextFlow k = true ->
        awaits k r = true ->
        is_Some (step random s (Settle j r)))
  /\ (forall statusMessage profile n r,
        pending s !! i = Some (AwaitingProfile statusMessage) ->
        n < length (JsString.chars (first_message profile)) ->
        imageSettled r = true ->
        exists s' m,
          run random s
            (Settle i (GenerateContentFulfilled (Parsed profile))
             :: repeat (Settle i TimerElapsed) n
             ++ Settle (length (pending s)) r
             :: repeat (Settle i TimerElapsed)
                  (length (JsString.chars (first_message profile)) - n)) = Some s'
          /\ lastMessage s' = Some m
          /\ paragraph m = map TextNode (JsString.chars (first_message profile))
          /\ streaming m = false
          /\ isFirstMessage (session s') = false
          /\ isGenerating (session s') = false
          /\ loaderHidden (portrait s') = true
          /\ (imageFailed r = true ->
              placeholderHidden (portrait s') = false
              /\ placeholderCaption (portrait s') = Some portraitFailedText)).
Proof.
  intros Hrun. pose proof (run_inv _ _ Hrun) as HI.
  split; [|split; [|split]].
  - intros statusMessage profile s' Hi Hstep.
    destruct (contact_step _ _ _ _ _ HI Hi Hstep)
      as (_ & Hf & _ & Hc & Hr & Hp & Hl).
    split; [done|]. split; [done|]. split; [done|]. split; [|done].
    rewrite Hc. by eexists.
  - intros r Hi Hr. by apply image_step.
  - intros j k r _ Hj _ Ha. cbn [step]. rewrite Hj. cbn [mbind option_bind].
    by apply resume_enabled.
  - intros statusMessage profile n r Hi Hn Hr.
    destruct (text_flow_entry _ _ _ HI Hi eq_refl) as (_ & _ & _ & _ & _ & _ & Hin).
    destruct (JsString.chars (first_message profile)) as [|c rest] eqn:Hchars;
      [cbn in Hn; lia|].
    cbn [length] in Hn. rewrite <- Hchars.
    replace (length (JsString.chars (first_message profile)) - n)
      with (S (length rest) - n) by (by rewrite Hchars).
    apply (interrupted_first_message i statusMessage profile c rest n r s);
      [done|done|done|lia|done].
Qed.

End Claims.

Lemma dialogue_has_chat_and_profile_witness :
  is_Some (chat (session (sampleState contactMade)))
  /\ is_Some (npcProfile (session (sampleState contactMade))).
Proof.
  assert (run sampleRandom initial contactMade = Some (sampleState contactMade)) as Hrun
    by (vm_compute; reflexivity).
  destruct (dialogue_has_chat_and_profile sampleRandom contactMade
              (sampleState contactMade) Hrun eq_refl) as (Hc & Hp & _).
  exact (conj Hc Hp).
Defined.

Lemma busy_submission_ignored_witness :
  isGenerating (session (sampleState firstSubmission)) = true
  /\ step sampleRandom (sampleState firstSubmission) Submit
     = Some (sampleState firstSubmission).
Proof.
  split; [reflexivity|].
  apply (busy_submission_ignored sampleRandom (sampleState firstSubmission)).
  reflexivity.
Defined.

Lemma blank_submission_ignored_witness :
  (isBlank sampleBlank = true
   /\ inputValue (form (sampleState blankTyped)) = sampleBlank
   /\ step sampleRandom (sampleState blankTyped) Submit
      = Some (sampleState blankTyped))
  /\ (exists s' later,
        step sampleRandom (sampleState greetingTyped) Submit = Some s'
        /\ chatHistory (transcript s') = 0 :: later
        /\ elements (transcript s') !! 0
           = Some {| sender := user; streaming := false; firstNpcReply := false;
                     paragraph := [TextNode sampleHello] |}
        /\ requests s'
           = [GenerateContent (promptBeforeInput ++ sampleHello ++ promptAfterInput)])
  /\ (exists c s' s'',
        chat (session (sampleState spacedQuestionTyped)) = Some c
        /\ step sampleRandom (sampleState spacedQuestionTyped) Submit = Some s'
        /\ elements (transcript s') !! 3
           = Some {| sender := user; streaming := false; firstNpcReply := false;
                     paragraph := [TextNode sampleQuestion] |}
        /\ step sampleRandom s' (Settle 1 TimerElapsed) = Some s''
        /\ requests s''
           = requests (sampleState spacedQuestionTyped)
             ++ [SendMessageStream c sampleQuestion]).
Proof.
  split; [|split].
  - split; [reflexivity|]. split; [vm_compute; reflexivity|].
    assert (isGenerating (session (sampleState blankTyped)) = false) as Hg
      by (vm_compute; reflexivity).
    destruct (blank_submission_ignored sampleRandom (sampleState blankTyped) Hg)
      as [H _].
    apply H. vm_compute. reflexivity.
  - assert (isGenerating (session (sampleState greetingTyped)) = false) as Hg
      by (vm_compute; reflexivity).
    assert (inputValue (form (sampleState greetingTyped))
            = [0x20%N] ++ sampleHello ++ [0x20%N]) as Hin
      by (vm_compute; reflexivity).
    assert (isFirstMessage (session (sampleState greetingTyped)) = true) as Hfirst
      by (vm_compute; reflexivity).
    assert (chatHistory (transcript (sampleState greetingTyped)) = []) as Hh0
      by (vm_compute; reflexivity).
    assert (created (transcript (sampleState greetingTyped)) = 0) as Hc0
      by (vm_compute; reflexivity).
    assert (requests (sampleState greetingTyped) = []) as Hr0
      by (vm_compute; reflexivity).
    destruct (blank_submission_ignored sampleRandom (sampleState greetingTyped) Hg)
      as (_ & H & _).
    destruct (H [0x20%N] sampleHello [0x20%N] Hin eq_refl eq_refl eq_refl)
      as (s' & later & Hstep & Hh & He & Hfirst' & _).
    exists s', later. split; [exact Hstep|].
    rewrite Hh0, Hc0 in Hh. rewrite Hc0 in He.
    split; [exact Hh|]. split; [exact He|].
    specialize (Hfirst' Hfirst). rewrite Hr0 in Hfirst'. exact Hfirst'.
  - assert (isGenerating (session (sampleState spacedQuestionTyped)) = false) as Hg
      by (vm_compute; reflexivity).
    assert (inputValue (form (sampleState spacedQuestionTyped))
            = [0x0A; 0x20]%N ++ sampleQuestion ++ [0x3000%N]) as Hin
      by (vm_compute; reflexivity).
    assert (isFirstMessage (session (sampleState spacedQuestionTyped)) = false)
      as Hfirst by (vm_compute; reflexivity).
    assert (created (transcript (sampleState spacedQuestionTyped)) = 3) as Hc0
      by (vm_compute; reflexivity).
    assert (length (pending (sampleState spacedQuestionTyped)) = 1) as Hp0
      by (vm_compute; reflexivity).
    assert (exists c, chat (session (sampleState spacedQuestionTyped)) = Some c)
      as [c Hchat] by (vm_compute; eexists; reflexivity).
    destruct (blank_submission_ignored sampleRandom (sampleState spacedQuestionTyped) Hg)
      as (_ & H & _).
    destruct (H [0x0A; 0x20]%N sampleQuestion [0x3000%N] Hin eq_refl eq_refl eq_refl)
      as (s' & later & Hstep & _ & He & _ & Hd).
    destruct (Hd Hfirst c Hchat) as (_ & s'' & Hstep' & Hr).
    exists c, s', s''. split; [exact Hchat|]. split; [exact Hstep|].
    rewrite Hc0 in He. rewrite Hp0 in Hstep'.
    split; [exact He|]. split; [exact Hstep'|exact Hr].
Defined.

Lemma sample_awaiting_profile :
  run sampleRandom initial firstSubmission = Some (sampleState firstSubmission)
  /\ pending (sampleState firstSubmission) !! 0 = Some (AwaitingProfile 1).
Proof. split; vm_compute; reflexivity. Defined.

Lemma sample_in_dialogue :
  run sampleRandom initial contactMade = Some (sampleState contactMade)
  /\ pending (sampleState contactMade) !! 0 = Some AwaitingImage.
Proof. split; vm_compute; reflexivity. Defined.

Lemma sample_awaiting_stream :
  run sampleRandom initial secondSubmission = Some (sampleState secondSubmission)
  /\ pending (sampleState secondSubmission) !! 1 = Some AwaitingStream.
Proof. split; vm_compute; reflexivity. Defined.

Lemma streaming_render_complete_witness :
  (exists s' m,
     run sampleRandom (sampleState firstSubmission) (firstMessageEvents 0 sampleProfile)
     = Some s'
     /\ lastMessage s' = Some m
     /\ textContent (paragraph m) = sampleFirstMessage
     /\ streaming m = false)
  /\ (exists s' m,
       run sampleRandom (sampleState secondSubmission)
         (replyEvents 1 [sampleName; sampleActivity]) = Some s'
       /\ lastMessage s' = Some m
       /\ textContent (paragraph m) = sampleName ++ sampleActivity
       /\ streaming m = false).
Proof.
  destruct (streaming_render_complete sampleRandom 0) as [Hfirst _].
  destruct (streaming_render_complete sampleRandom 1) as (_ & Hreply & _).
  destruct sample_awaiting_profile as [Hrun Hi].
  destruct sample_awaiting_stream as [_ Hj].
  split.
  - destruct (Hfirst firstSubmission (sampleState firstSubmission) 1 sampleProfile Hrun Hi)
      as (s' & m & H1 & H2 & _ & H3 & H4 & _).
    exists s', m. exact (conj H1 (conj H2 (conj H3 H4))).
  - destruct (Hreply (sampleState secondSubmission) [sampleName; sampleActivity] Hj)
      as (s' & m & H1 & H2 & _ & H3 & H4 & _).
    exists s', m. split; [exact H1|]. split; [exact H2|]. split; [|exact H4].
    rewrite H3. cbn [concat]. by rewrite app_nil_r.
Defined.

Lemma contact_once_then_forward_witness :
  turns sampleRandom establishesContact initial contactMade = 1
  /\ exists c s2,
       chat (session (sampleState contactMade)) = Some c
       /\ run sampleRandom (sampleState contactMade) [Submit; Settle 1 TimerElapsed]
          = Some s2
       /\ requests s2
          = requests (sampleState contactMade) ++ [SendMessageStream c sampleQuestion].
Proof.
  destruct sample_in_dialogue as [Hrun _].
  destruct (contact_once_then_forward sampleRandom contactMade
              (sampleState contactMade) Hrun) as (Hturns & _ & Hdialogue).
  assert (isFirstMessage (session (sampleState contactMade)) = false) as Hfirst
    by (vm_compute; reflexivity).
  assert (isGenerating (session (sampleState contactMade)) = false) as Hg
    by (vm_compute; reflexivity).
  assert (JsString.trim (inputValue (form (sampleState contactMade))) = sampleQuestion)
    as Hin by (vm_compute; reflexivity).
  assert (length (pending (sampleState contactMade)) = 1) as Hlen
    by (vm_compute; reflexivity).
  split; [by rewrite Hturns, Hfirst|].
  destruct (Hdialogue Hfirst) as (_ & _ & Hforward).
  rewrite Hin, Hlen in Hforward.
  destruct (Hforward Hg) as (c & s2 & Hc & Hr & Hq & _).
  { vm_compute. discriminate. }
  exists c, s2. exact (conj Hc (conj Hr Hq)).
Defined.

Lemma profile_failure_recovers_witness :
  exists s',
    step sampleRandom (sampleState firstSubmission) (Settle 0 GenerateContentRejected)
    = Some s'
    /\ chatHistory (transcript s') = [0; 2]
    /\ chat (session s') = None
    /\ isFirstMessage (session s') = true
    /\ isGenerating (session s') = false.
Proof.
  destruct sample_awaiting_profile as [Hrun Hi].
  destruct (profile_failure_recovers sampleRandom firstSubmission
              (sampleState firstSubmission) 0 1 GenerateContentRejected Hrun Hi)
    as (s' & Hstep & _ & Hh & _ & _ & _ & Hc & _ & _ & _ & Hf & Hg & _ & _).
  { by left. }
  exists s'. split; [exact Hstep|]. split; [|exact (conj Hc (conj Hf Hg))].
  rewrite Hh. vm_compute. reflexivity.
Defined.

Lemma profile_assigned_once_witness :
  turns sampleRandom assignsProfile initial contactMade = 1.
Proof.
  destruct sample_in_dialogue as [Hrun _].
  destruct (profile_assigned_once sampleRandom contactMade
              (sampleState contactMade) Hrun) as [Hturns _].
  rewrite Hturns. vm_compute. reflexivity.
Defined.

Lemma portrait_failure_isolated_witness :
  exists s',
    step sampleRandom (sampleState contactMade) (Settle 0 GenerateImagesRejected)
    = Some s'
    /\ session s' = session (sampleState contactMade)
    /\ transcript s' = transcript (sampleState contactMade)
    /\ loaderHidden (portrait s') = true
    /\ placeholderCaption (portrait s') = Some portraitFailedText.
Proof.
  destruct sample_in_dialogue as [Hrun Hi].
  destruct (portrait_failure_isolated sampleRandom contactMade
              (sampleState contactMade) 0 Hrun) as (_ & Himage & _).
  destruct (Himage GenerateImagesRejected Hi eq_refl)
    as (s' & Hstep & Hs & Ht & _ & _ & _ & _ & _ & Hl & Hfail).
  destruct (Hfail eq_refl) as (_ & Hcaption & _).
  exists s'. exact (conj Hstep (conj Hs (conj Ht (conj Hl Hcaption)))).
Defined.

Lemma sampleRandom_range : forall n, (0 <= sampleRandom n < 1)%Q.
Proof. intros n. split; vm_compute; [discriminate|reflexivity]. Defined.


Lemma typing_delay_bounds_witness :
  (350 <= (getTypingDelay sampleRandom comma 0%nat).1 <= 500)%Q.
Proof.
  destruct (typing_delay_bounds sampleRandom 0 comma sampleRandom_range eq_refl)
    as (_ & H & _).
  exact (H eq_refl).
Defined.

(** C7, as the specification words it, fails: it puts the delay of a comma
    in [350, 500) and that of a sentence end in [500, 700) for every draw in
    [0,1).  At the draw 1 - 2^-53, the largest binary64 number below 1, the
    rounded sums are exactly 500 and 700. *)
Lemma typing_delay_reaches_upper_end :
  (forall n, 0 <= maxDraws n < 1)%Q
  /\ Binary64.representable maxDraw
  /\ isCharacter comma /\ isCharacter fullStop
  /\ (getTypingDelay maxDraws comma 0%nat).1 = 500%Q
  /\ (getTypingDelay maxDraws fullStop 0%nat).1 = 700%Q
  /\ ~ (350 <= (getTypingDelay maxDraws comma 0%nat).1 < 500)%Q
  /\ ~ (500 <= (getTypingDelay maxDraws fullStop 0%nat).1 < 700)%Q.
Proof.
  assert ((getTypingDelay maxDraws comma 0%nat).1 = 500%Q) as Hcomma
    by (vm_compute; reflexivity).
  assert ((getTypingDelay maxDraws fullStop 0%nat).1 = 700%Q) as Hend
    by (vm_compute; reflexivity).
  split; [intros n; split; vm_compute; [discriminate|reflexivity]|].
  split; [by vm_compute|]. split; [reflexivity|]. split; [reflexivity|].
  split; [exact Hcomma|]. split; [exact Hend|].
  rewrite Hcomma, Hend. split; intros [_ H]; by vm_compute in H.
Qed.

(** The same sums in the Standard Library's model of IEEE 754 arithmetic:
    [SFmul] and [SFadd] at precision 53 return the numbers [Binary64] does,
    and 350 + (1 - 2^-53) * 150 is the number 500 there too. *)
Example pauses_at_maxDraw_SpecFloat :
  Binary64.ofSpecFloat maxDraw64 = Some maxDraw
  /\ Binary64.ofSpecFloat (Binary64.SFmul64 maxDraw64 (S754_finite false 150 0))
     = Some (Binary64.mul maxDraw 150)
  /\ Binary64.ofSpecFloat
       (Binary64.SFadd64 (S754_finite false 350 0)
          (Binary64.SFmul64 maxDraw64 (S754_finite false 150 0)))
     = Some 500%Q
  /\ Binary64.ofSpecFloat (Binary64.SFmul64 maxDraw64 (S754_finite false 200 0))
     = Some (Binary64.mul maxDraw 200)
  /\ Binary64.ofSpecFloat
       (Binary64.SFadd64 (S754_finite false 500 0)
          (Binary64.SFmul64 maxDraw64 (S754_finite false 200 0)))
     = Some 700%Q.
Proof. repeat split; vm_compute; reflexivity. Qed.

(** And the delay of a keystroke at the draw nearest to one tenth, where the
    difference and the jitter are negative: 95 + (0.1 - 0.5) * 60 is 71 in
    both. *)
Example keystroke_at_tenth_SpecFloat :
  let jitter64 :=
    Binary64.SFmul64 (Binary64.SFsub64 tenthDraw64 (S754_finite false 1 (-1)))
      (S754_finite false 60 0) in
  Binary64.ofSpecFloat tenthDraw64 = Some tenthDraw
  /\ Binary64.ofSpecFloat jitter64
     = Some (Binary64.mul (Binary64.sub tenthDraw 0.5) 60)
  /\ Binary64.ofSpecFloat (Binary64.SFadd64 (S754_finite false 95 0) jitter64)
     = Some (Binary64.add 95 (Binary64.mul (Binary64.sub tenthDraw 0.5) 60))
  /\ Binary64.add 95 (Binary64.mul (Binary64.sub tenthDraw 0.5) 60) = 71%Q
  /\ Binary64.round 0.04 = (5764607523034235 # 144115188075855872)%Q.
Proof. repeat split; vm_compute; reflexivity. Qed.

(** * Further properties of the page *)

(** ** The turns in a state that satisfies the invariants *)

Section TurnFacts.

Variable random : nat -> Q.

Lemma typeCharacter_cursor e c s :
  cursorIn (elements (transcript s)) e ->
  exists d s', typeCharacter random e c s = Some (d, s').
Proof.
  intros (m & Hm & Hc). unfold typeCharacter. rewrite Hm. cbn.
  destruct (insertBefore_cursor (TextNode c) _ Hc) as (cs & -> & _). cbn.
  unfold runRand. by eexists _, _.
Qed.

Lemma typeCharacter_pending e c s d s' :
  typeCharacter random e c s = Some (d, s') -> pending s' = pending s.
Proof. by intros (m & cs & _ & _ & ->)%typeCharacter_Some. Qed.

Lemma typed_first_intro i k statusMessage element chars s :
  pending s !! i = Some k -> textFlows (pending s) = [k] -> isTextFlow k = true ->
  cursorIn (elements (transcript s)) element ->
  typed_first random i statusMessage element s chars
    (conclude i (generateNpcAndStartChat_catch statusMessage) (setLoading false)
       (firstMessageLoop random statusMessage element chars s)).
Proof.
  intros Hi Hf Hk Hc. unfold firstMessageLoop. destruct chars as [|c rest].
  - cbn [conclude]. apply typed_first_end.
    unfold textFlows in *. by rewrite (filter_delete_unit _ _ i k); [|done|by rewrite Hk|done].
  - destruct (typeCharacter_cursor element c s Hc) as (d & s1 & E). rewrite E.
    cbn [conclude]. eapply typed_first_char; [done|].
    unfold textFlows in *.
    by rewrite (filter_insert_unit _ _ i k); [|done|by rewrite Hk|done|done].
Qed.

Lemma typed_chunk_intro i k element chars s :
  pending s !! i = Some k -> textFlows (pending s) = [k] -> isTextFlow k = true ->
  cursorIn (elements (transcript s)) element ->
  typed_chunk random i element s chars
    (conclude i handleChatSubmit_catch (setLoading false)
       (chunkLoop random element chars s)).
Proof.
  intros Hi Hf Hk Hc. unfold chunkLoop. destruct chars as [|c rest].
  - cbn [conclude]. apply typed_chunk_end.
    unfold textFlows in *.
    by rewrite (filter_insert_unit _ _ i k); [|done|by rewrite Hk|done|done].
  - destruct (typeCharacter_cursor element c s Hc) as (d & s1 & E). rewrite E.
    cbn [conclude]. eapply typed_chunk_char; [done|].
    unfold textFlows in *.
    by rewrite (filter_insert_unit _ _ i k); [|done|by rewrite Hk|done|done].
Qed.

Lemma contact_try statusMessage profile s :
  statusMessage ∈ chatHistory (transcript s) ->
  generateNpcAndStartChat_try random statusMessage (Some (Parsed profile)) s
  = firstMessageLoop random statusMessage (contact statusMessage profile s).1
      (JsString.chars (first_message profile)) (contact statusMessage profile s).2.
Proof.
  intros Hin. unfold generateNpcAndStartChat_try, removeChild, contact. proj.
  by rewrite decide_True by done.
Qed.

Lemma catch_removed statusMessage s :
  statusMessage ∈ chatHistory (transcript s) ->
  generateNpcAndStartChat_catch statusMessage s
  = (addMessageToUI connectionLostText npc false
       (removed statusMessage (set_signal SignalEmpty s))).2.
Proof.
  intros Hin. unfold generateNpcAndStartChat_catch, removeChild. proj.
  by rewrite decide_True by done.
Qed.

Lemma step_turn s e s' : Inv s -> step random s e = Some s' -> turn random s e s'.
Proof.
  intros HI. destruct e as [value| |i r]; cbn [step].
  - intros [= <-]. apply turn_types.
  - intros [= <-]. destruct HI as [Ht Hs Hb]. unfold handleChatSubmit.
    destruct (isGenerating (session s)) eqn:Hg; [by apply turn_busy|].
    destruct (JsString.trim (inputValue (form s))) as [|u input] eqn:Hin;
      [by apply turn_blank|].
    pose proof (idle_no_text_flow _ _ _ Hb Hg) as Hidle.
    proj. destruct (isFirstMessage (session s)) eqn:Hfirst.
    + apply (turn_first random s (u :: input)); try done.
      unfold textFlows in *. by rewrite filter_snoc_unit.
    + unfold inv_session in Hs. rewrite Hfirst in Hs. destruct Hs as ([c Hc] & _ & _).
      rewrite Hc. apply (turn_say random s (u :: input) c); try done.
      unfold textFlows in *. by rewrite filter_snoc_unit.
  - destruct (pending s !! i) as [k|] eqn:Hi; [|done]. cbn [mbind option_bind].
    destruct (isTextFlow k) eqn:Hk.
    + destruct (text_flow_entry _ _ _ HI Hi Hk) as (Ht & Hs & Hg & Hf & _ & Hok).
      assert (flowing s i k) as Hfl by done.
      assert (textFlows (delete i (pending s)) = []) as Hdel.
      { unfold textFlows in *.
        by rewrite (filter_delete_unit _ _ i k); [|done|by rewrite Hk|done]. }
      assert (forall k', isTextFlow k' = true ->
                textFlows (<[i := k']> (pending s)) = [k']) as Hins.
      { intros k' Hk'. unfold textFlows in *.
        by rewrite (filter_insert_unit _ _ i k); [|done|by rewrite Hk|by rewrite Hk'|done]. }
      destruct k; try done; destruct r; unfold resume; try done;
        (intros Heq; apply (inj Some) in Heq; subst s'); cbn [flow_ok] in Hok.
      * destruct Hok as [Hfirst Hin]. destruct parsed as [|profile].
        -- cbn [generateNpcAndStartChat_try conclude].
           rewrite catch_removed by done.
           change (removed statusMessage
                     (set_signal SignalEmpty
                        (with_pending (delete i) (set_signal SignalEmpty s))))
             with (removed statusMessage
                     (set_signal SignalEmpty (with_pending (delete i) s))).
           by eapply turn_profile_failed; eauto.
        -- eapply turn_contact; [done|done|done|].
           rewrite contact_try by done.
           apply (typed_first_intro _ (AwaitingProfile statusMessage)); unfold contact; proj.
           ++ by apply lookup_app_l_Some.
           ++ unfold textFlows in *. rewrite filter_snoc_other; [done|cbn; tauto].
           ++ done.
           ++ eexists. rewrite lookup_alter_eq, lookup_insert_eq. cbn.
              split; [done|]. apply list_elem_of_singleton. done.
      * destruct Hok as [Hfirst Hin].
        cbn [generateNpcAndStartChat_try conclude].
        rewrite catch_removed by done.
        by eapply turn_profile_failed; eauto.
      * destruct Hok as [Hfirst Hc]. eapply turn_first_typed; [done|done|].
        by eapply typed_first_intro.
      * unfold inv_session in Hs. rewrite Hok in Hs. destruct Hs as ([c Hc] & _ & _).
        unfold sendMessage. rewrite Hc. cbn [conclude].
        eapply turn_thought; eauto.
      * unfold openReply. proj. cbn [conclude]. eapply turn_stream_open; eauto.
      * cbn [conclude]. by eapply turn_stream_refused.
      * destruct Hok as [Hfirst Hc]. eapply turn_chunk; [done|done|].
        by eapply typed_chunk_intro.
      * destruct Hok as [Hfirst Hc]. cbn [conclude]. by eapply turn_stream_done.
      * destruct Hok as [Hfirst Hc]. cbn [conclude]. by eapply turn_stream_broken.
      * destruct Hok as [Hfirst Hc]. eapply turn_chunk_typed; [done|done|].
        by eapply typed_chunk_intro.
    + destruct k; try done.
      assert (textFlows (delete i (pending s)) = textFlows (pending s)) as Hdel.
      { unfold textFlows. rewrite (filter_delete_other _ _ i AwaitingImage); [done|done|cbn; tauto]. }
      destruct r; unfold resume; try done;
        (intros Heq; apply (inj Some) in Heq; subst s'); by apply (turn_image random s i).
Qed.

End TurnFacts.

(** Reduce what a state built by the functions of the page shows. *)
Ltac view :=
  unfold contact, removed, echo, setInputValue, generateNpcAndStartChat,
    handleChatSubmit_catch in *;
  cbn [session transcript form signal portrait requests draws pending
       with_session with_transcript with_form set_signal with_portrait call
       set_draws with_pending elements created chatHistory
       isFirstMessage chat npcProfile isGenerating
       set_isFirstMessage set_chat set_npcProfile set_isGenerating
       updateElement finishStreaming addFirstNpcReplyClass
       generateNpcImage addMessageToUI setLoading
       inputValue inputDisabled inputPlaceholder buttonDisabled
       placeholderHidden placeholderCaption loaderHidden imageHidden imageSrc
       fst snd] in *.

Lemma generateNpcImage_resume_portrait r s :
  exists p, generateNpcImage_resume r s = with_portrait (fun _ => p) s.
Proof.
  unfold generateNpcImage_resume. destruct r as [[|[b|] rest]|]; by eexists.
Qed.

Ltac turn_cases H :=
  destruct H;
  repeat match goal with
  | |- context [generateNpcImage_resume ?r ?s] =>
      let E := fresh "E" in
      destruct (generateNpcImage_resume_portrait r s) as [? E]; rewrite E; clear E
  | H : flowing _ _ _ |- _ => destruct H as (? & ? & ?)
  | H : typed_first _ _ _ _ _ _ _ |- _ => inversion H; subst; clear H
  | H : typed_chunk _ _ _ _ _ _ |- _ => inversion H; subst; clear H
  | H : typeCharacter _ _ _ _ = Some _ |- _ =>
      apply typeCharacter_Some in H as (? & ? & ? & ? & ->)
  end.

Section DisplayFacts.

Variable random : nat -> Q.

Lemma turn_form_locked s e s' : turn random s e s' -> form_locked s -> form_locked s'.
Proof.
  intros H [H1 H2]. turn_cases H; unfold form_locked in *; view; done.
Qed.

Lemma initial_form_locked : form_locked initial.
Proof. done. Qed.

Lemma reachable_form_locked s : reachable random s -> form_locked s.
Proof.
  induction 1 as [|s e s' Hs IH Hstep]; [apply initial_form_locked|].
  eapply turn_form_locked; [|done]. eapply step_turn; [|done]. by apply (reachable_inv random).
Qed.

Lemma turn_placeholder s e s' :
  turn random s e s' -> placeholder_ok s -> placeholder_ok s'.
Proof.
  intros H. unfold placeholder_ok.
  turn_cases H; view;
    repeat match goal with
    | H : textFlows _ = _ |- _ => rewrite H
    | H : isFirstMessage _ = _ |- _ => rewrite H
    end; cbn [contactFlow]; view; auto.
Qed.

Lemma reachable_placeholder s : reachable random s -> placeholder_ok s.
Proof.
  induction 1 as [|s e s' Hs IH Hstep]; [by left|].
  eapply turn_placeholder; [|done]. eapply step_turn; [|done].
  by apply (reachable_inv random).
Qed.

Lemma turn_signal s e s' : turn random s e s' -> signal_ok s -> signal_ok s'.
Proof.
  intros H. unfold signal_ok.
  turn_cases H; view;
    repeat match goal with
    | H : textFlows _ = _ |- _ => rewrite H
    | H : isFirstMessage _ = _ |- _ => rewrite H
    end; view; auto.
Qed.

Lemma reachable_signal s : reachable random s -> signal_ok s.
Proof.
  induction 1 as [|s e s' Hs IH Hstep]; [by right|].
  eapply turn_signal; [|done]. eapply step_turn; [|done].
  by apply (reachable_inv random).
Qed.

Lemma imageFlows_insert ks i k k' :
  ks !! i = Some k -> isAwaitingImage k = false -> isAwaitingImage k' = false ->
  imageFlows (<[i := k']> ks) = imageFlows ks.
Proof.
  intros Hi Hk Hk'. unfold imageFlows.
  rewrite insert_take_drop by (by eapply lookup_lt_Some).
  rewrite <- (take_drop_middle ks i k Hi) at 3.
  rewrite !filter_app, !filter_cons_False; [done|rewrite ?Hk, ?Hk'; cbn; tauto..].
Qed.

Lemma imageFlows_delete ks i k :
  ks !! i = Some k -> isAwaitingImage k = false ->
  imageFlows (delete i ks) = imageFlows ks.
Proof.
  intros Hi Hk. unfold imageFlows.
  apply (filter_delete_other _ _ i k); [done|rewrite Hk; cbn; tauto].
Qed.

Lemma imageFlows_snoc ks k :
  imageFlows (ks ++ [k]) = imageFlows ks ++ (if isAwaitingImage k then [k] else []).
Proof.
  unfold imageFlows. rewrite filter_app. f_equal.
  destruct (isAwaitingImage k) eqn:E.
  - rewrite filter_cons_True; [done|rewrite E; cbn; tauto].
  - rewrite filter_cons_False; [done|rewrite E; cbn; tauto].
Qed.

Lemma imageFlows_settled ks i :
  ks !! i = Some AwaitingImage -> imageFlows ks = [AwaitingImage] ->
  imageFlows (delete i ks) = [].
Proof.
  intros Hi Hf. unfold imageFlows in *.
  by apply (filter_delete_unit _ _ i AwaitingImage).
Qed.

Lemma imageFlows_elem ks i :
  ks !! i = Some AwaitingImage -> AwaitingImage ∈ imageFlows ks.
Proof.
  intros Hi. apply list_elem_of_filter. split; [done|]. by eapply list_elem_of_lookup_2.
Qed.

Lemma imageFlows_only ks k : k ∈ imageFlows ks -> k = AwaitingImage.
Proof. intros [Hk _]%list_elem_of_filter. by destruct k. Qed.

Ltac image_flows :=
  repeat match goal with
  | H : pending ?s !! ?i = Some ?k
    |- context [imageFlows (<[?i := ?k']> (pending ?s ++ [?x]))] =>
      rewrite (imageFlows_insert (pending s ++ [x]) i k k'
                 (lookup_app_l_Some _ _ _ _ H) eq_refl eq_refl)
  | H : pending ?s !! ?i = Some ?k
    |- context [imageFlows (delete ?i (pending ?s ++ [?x]))] =>
      rewrite (imageFlows_delete (pending s ++ [x]) i k
                 (lookup_app_l_Some _ _ _ _ H) eq_refl)
  | H : pending ?s !! ?i = Some ?k
    |- context [imageFlows (<[?i := ?k']> (pending ?s))] =>
      rewrite (imageFlows_insert (pending s) i k k' H eq_refl eq_refl)
  | H : pending ?s !! ?i = Some ?k
    |- context [imageFlows (delete ?i (pending ?s))] =>
      rewrite (imageFlows_delete (pending s) i k H eq_refl)
  | |- context [imageFlows (_ ++ [_])] =>
      rewrite imageFlows_snoc; cbn [isAwaitingImage]; rewrite ?app_nil_r
  end.

Lemma turn_portrait s e s' : turn random s e s' -> portrait_ok s -> portrait_ok s'.
Proof.
  intros H. unfold portrait_ok.
  destruct H;
  repeat match goal with
  | H : flowing _ _ _ |- _ => destruct H as (? & ? & ?)
  | H : typed_first _ _ _ _ _ _ _ |- _ => inversion H; subst; clear H
  | H : typed_chunk _ _ _ _ _ _ |- _ => inversion H; subst; clear H
  | H : typeCharacter _ _ _ _ = Some _ |- _ =>
      apply typeCharacter_Some in H as (? & ? & ? & ? & ->)
  end; view;
    repeat match goal with
    | H : isFirstMessage _ = _ |- _ => rewrite H
    end; view; image_flows; auto.
  - by intros [-> ->].
  - by intros [-> ->].
  - pose proof (imageFlows_elem _ _ H) as Hin.
    assert (session (generateNpcImage_resume
                       match r with
                       | GenerateImagesFulfilled generatedImages => Some generatedImages
                       | _ => None
                       end (with_pending (delete i) s)) = session s) as ->.
    { by destruct (generateNpcImage_resume_portrait
                     match r with
                     | GenerateImagesFulfilled generatedImages => Some generatedImages
                     | _ => None
                     end (with_pending (delete i) s)) as [p ->]. }
    assert (pending (generateNpcImage_resume
                       match r with
                       | GenerateImagesFulfilled generatedImages => Some generatedImages
                       | _ => None
                       end (with_pending (delete i) s)) = delete i (pending s)) as ->.
    { by destruct (generateNpcImage_resume_portrait
                     match r with
                     | GenerateImagesFulfilled generatedImages => Some generatedImages
                     | _ => None
                     end (with_pending (delete i) s)) as [p ->]. }
    destruct (isFirstMessage (session s)).
    { intros [Hnil _]. rewrite Hnil in Hin. by apply elem_of_nil in Hin. }
    destruct (imageFlows (pending s)) as [|k [|k' ks]] eqn:Hfl;
      [by apply elem_of_nil in Hin| |done].
    apply list_elem_of_singleton in Hin. subst k.
    rewrite (imageFlows_settled _ _ H Hfl). intros Hp.
    destruct r as [| | | | | | | |[|[b|] rest]|];
      unfold generateNpcImage_resume; view; rewrite Hp; cbn; eauto.
Qed.

Lemma reachable_portrait s : reachable random s -> portrait_ok s.
Proof.
  induction 1 as [|s e s' Hs IH Hstep]; [done|].
  eapply turn_portrait; [|done]. eapply step_turn; [|done].
  by apply (reachable_inv random).
Qed.

End DisplayFacts.

Section SessionFacts.

Variable random : nat -> Q.

Lemma filter_snoc_false {A} (p : A -> bool) (l : list A) (x : A) :
  p x = false -> filter (fun r => p r) (l ++ [x]) = filter (fun r => p r) l.
Proof. intros E. apply filter_snoc_other. rewrite E. cbn. tauto. Qed.

Lemma filter_snoc_true {A} (p : A -> bool) (l : list A) (x : A) :
  p x = true -> filter (fun r => p r) (l ++ [x]) = filter (fun r => p r) l ++ [x].
Proof.
  intros E. rewrite filter_app. f_equal. rewrite filter_cons_True; [done|].
  rewrite E. cbn. tauto.
Qed.

Lemma turn_contact_ok s e s' :
  turn random s e s' -> Inv s -> contact_ok s -> contact_ok s'.
Proof.
  intros H [_ Hs _]. unfold contact_ok, inv_session in *.
  turn_cases H; view;
    repeat match goal with
    | H : isFirstMessage _ = _ |- _ => rewrite H in *
    end; view; rewrite ?filter_snoc_false by done; auto.
  all: destruct Hs as (_ & -> & _); intros (_ & Hgi & Hcc);
    (split; [by eexists|]);
    rewrite (filter_snoc_true isGenerateImages) by done;
    rewrite (filter_snoc_true isChatsCreate) by done;
    rewrite (filter_snoc_false isChatsCreate) by done;
    by rewrite Hgi, Hcc.
Qed.

Lemma reachable_contact_ok s : reachable random s -> contact_ok s.
Proof.
  induction 1 as [|s e s' Hs IH Hstep]; [done|].
  pose proof (reachable_inv random s Hs) as HI.
  eapply turn_contact_ok; [|done|done]. by eapply step_turn.
Qed.

(** *** Timers *)

Lemma typeCharacter_delay e c s d s' :
  typeCharacter random e c s = Some (d, s') ->
  d = (getTypingDelay random c (draws s)).1.
Proof.
  unfold typeCharacter.
  destruct (elements (transcript s) !! e) as [m|]; [|done]. cbn.
  destruct (insertBefore (TextNode c) CursorSpan (paragraph m)) as [cs|]; [|done].
  cbn. by intros [= <- _].
Qed.

Lemma getTypingDelay_range (c : jsstring) (i : nat) :
  (forall n, 0 <= random n < 1)%Q ->
  (50 <= (getTypingDelay random c i).1 <= 700)%Q.
Proof.
  intros Hr. pose proof (Hr i) as Hi.
  pose proof (comma_pause_range (random i) Hi) as Hcomma.
  pose proof (sentence_pause_range (random i) Hi) as Hend.
  pose proof (jitter_range (random i) Hi) as Hjit.
  destruct (keystroke_range _ Hjit) as [Hbase Hlong].
  unfold getTypingDelay.
  destruct (JsString.strictEq c comma);
    [cbv [mbind mret rand_bind rand_ret Math_random fst snd]; lra|].
  destruct (JsString.includes sentenceEnd c);
    [cbv [mbind mret rand_bind rand_ret Math_random fst snd]; lra|].
  cbv [mbind mret rand_bind rand_ret Math_random fst snd].
  destruct (Qltb (random (S i)) (Binary64.round 0.04)); [lra|].
  rewrite Q.max_r; lra.
Qed.

Lemma getThinkingTime_range (userInput : jsstring) (i : nat) :
  (0 <= random i < 1)%Q ->
  (600 <= (getThinkingTime random userInput i).1 <= 4000)%Q.
Proof.
  intros [H0 H1].
  set (L := inject_Z (Z.of_nat (length userInput))).
  assert (0 <= L)%Q as HL.
  { unfold L. change 0%Q with (inject_Z 0). rewrite <- Zle_Qle. lia. }
  assert ((getThinkingTime random userInput i).1
          = Qmin (600 + L * 40 + random i * 500) 4000) as -> by done.
  destruct (Q.min_spec (600 + L * 40 + random i * 500) 4000) as [[Hlt ->]|[Hle ->]];
    split; try lra; nra.
Qed.

Lemma turn_timers s e s' :
  (forall n, 0 <= random n < 1)%Q ->
  turn random s e s' -> timers_ok s -> timers_ok s'.
Proof.
  intros Hr H. unfold timers_ok.
  destruct H;
  repeat match goal with
  | |- context [generateNpcImage_resume ?r ?s] =>
      let E := fresh "E" in
      destruct (generateNpcImage_resume_portrait r s) as [? E]; rewrite E; clear E
  | H : flowing _ _ _ |- _ => destruct H as (? & ? & ?)
  | H : typed_first _ _ _ _ _ _ _ |- _ => inversion H; subst; clear H
  | H : typed_chunk _ _ _ _ _ _ |- _ => inversion H; subst; clear H
  | H : typeCharacter _ _ _ _ = Some _ |- _ =>
      let D := fresh "D" in
      pose proof (typeCharacter_delay _ _ _ _ _ H) as D;
      apply typeCharacter_Some in H as (? & ? & ? & ? & ->)
  end; view; intros Hf;
    repeat first
      [ apply Forall_insert | apply Forall_delete | apply Forall_app; split
      | apply Forall_cons; split | apply Forall_nil ];
    try done; cbn [timer_ok]; subst;
    try apply getTypingDelay_range; try apply getThinkingTime_range; auto.
Qed.

Lemma reachable_timers s :
  (forall n, 0 <= random n < 1)%Q -> reachable random s -> timers_ok s.
Proof.
  intros Hr. induction 1 as [|s e s' Hs IH Hstep]; [by apply Forall_nil|].
  eapply turn_timers; [done| |done]. eapply step_turn; [|done].
  by apply (reachable_inv random).
Qed.

End SessionFacts.

Section HistoryFacts.

Variable random : nat -> Q.

Lemma omap_ext_in {A B} (f g : A -> option B) (l : list A) :
  (forall x, x ∈ l -> f x = g x) -> omap f l = omap g l.
Proof.
  induction l as [|a l IH]; intros H; [done|]. cbn.
  rewrite (H a) by left. rewrite IH; [done|]. intros x Hx. apply H. by right.
Qed.

Lemma userTexts_added els n (h : list nat) (m : MessageElement) :
  numbered els n h ->
  omap (userText (<[n := m]> els)) (h ++ [n])
  = omap (userText els) h
    ++ match sender m with
       | user => [textContent (paragraph m)]
       | npc => []
       end.
Proof.
  intros [Hh _]. rewrite omap_app. f_equal.
  - apply omap_ext_in. intros x Hx. unfold userText.
    rewrite lookup_insert_ne; [done|]. apply Hh in Hx. lia.
  - cbn. unfold userText. rewrite lookup_insert_eq. cbn. by destruct (sender m).
Qed.

Lemma userTexts_updated els (h : list nat) e (m m' : MessageElement) :
  els !! e = Some m -> sender m = npc -> sender m' = npc ->
  omap (userText (<[e := m']> els)) h = omap (userText els) h.
Proof.
  intros Hm Hs Hs'. apply omap_ext_in. intros x _. unfold userText.
  destruct (decide (x = e)) as [->|Hne].
  - rewrite lookup_insert_eq, Hm. cbn. by rewrite Hs, Hs'.
  - by rewrite lookup_insert_ne.
Qed.

Lemma userTexts_altered els (h : list nat) e (f : MessageElement -> MessageElement) :
  (forall m, sender (f m) = sender m
             /\ textContent (paragraph (f m)) = textContent (paragraph m)) ->
  omap (userText (alter f e els)) h = omap (userText els) h.
Proof.
  intros Hf. apply omap_ext_in. intros x _. unfold userText.
  destruct (decide (x = e)) as [->|Hne].
  - rewrite lookup_alter_eq. destruct (els !! e) as [m|]; [|done]. cbn.
    by destruct (Hf m) as [-> ->].
  - by rewrite lookup_alter_ne.
Qed.

Lemma userTexts_removed els (h : list nat) e :
  userText els e = None ->
  omap (userText els) (filter (fun x => x ≠ e) h) = omap (userText els) h.
Proof.
  intros He. induction h as [|a h IH]; [done|].
  destruct (decide (a = e)) as [->|Hne].
  - rewrite filter_cons_False by (by intros ?). cbn. by rewrite He.
  - rewrite filter_cons_True by done. cbn. by rewrite IH.
Qed.

Lemma textContent_without_cursor children :
  textContent (filter (fun n => n ≠ CursorSpan) children) = textContent children.
Proof.
  unfold textContent. induction children as [|c cs IH]; [done|].
  destruct c as [data|].
  - rewrite filter_cons_True by done. cbn. by rewrite IH.
  - rewrite filter_cons_False by (by intros ?). cbn. by rewrite IH.
Qed.

Lemma insertBefore_Some_ref (n ref : Node) (children cs : list Node) :
  insertBefore n ref children = Some cs -> ref ∈ children.
Proof.
  revert cs. induction children as [|c rest IH]; intros cs; cbn; [done|].
  case_decide as Hc.
  - intros _. subst c. by left.
  - destruct (insertBefore n ref rest) as [cs'|] eqn:E; [|done].
    intros _. right. by eapply IH.
Qed.

Lemma textContent_setTextContent text : textContent (setTextContent text) = text.
Proof. destruct text; [done|]. unfold textContent. cbn. by rewrite app_nil_r. Qed.

Lemma userTexts_fresh (els els' : gmap nat MessageElement) n (h : list nat)
    (m : MessageElement) :
  numbered els n h ->
  (forall x, x < n -> els' !! x = els !! x) ->
  els' !! n = Some m ->
  omap (userText els') (h ++ [n])
  = omap (userText els) h
    ++ match sender m with
       | user => [textContent (paragraph m)]
       | npc => []
       end.
Proof.
  intros [Hh _] Hold Hnew. rewrite omap_app. f_equal.
  - apply omap_ext_in. intros x Hx. unfold userText. by rewrite Hold by auto.
  - cbn. unfold userText. rewrite Hnew. cbn. by destruct (sender m).
Qed.

Lemma typed_is_character (els : gmap nat MessageElement) x (m : MessageElement) n cs :
  no_user_cursor els ->
  els !! x = Some m ->
  insertBefore n CursorSpan (paragraph m) = Some cs ->
  sender m = npc.
Proof.
  intros HU Hm Hcs. destruct (sender m) eqn:E; [|done].
  exfalso. eapply HU; [done|done|]. by eapply insertBefore_Some_ref.
Qed.

Lemma status_no_userText (els : gmap nat MessageElement) statusMessage :
  (exists m : MessageElement, els !! statusMessage = Some m /\ sender m = npc) ->
  userText els statusMessage = None.
Proof. intros (m & Hm & Hs). unfold userText. rewrite Hm. cbn. by rewrite Hs. Qed.

Ltac fresh_lookup :=
  intros;
  repeat first [rewrite lookup_insert_ne by lia | rewrite lookup_alter_ne by lia];
  rewrite ?lookup_alter_eq, ?lookup_insert_eq; try done.

Lemma turn_userTexts s e s' :
  turn random s e s' -> Inv s -> senders_ok s ->
  userTexts (transcript s') = userTexts (transcript s) ++ acceptedAt s e.
Proof.
  intros H [Ht _ _] [HU HS]. unfold inv_transcript in Ht.
  unfold userTexts.
  turn_cases H; view; cbn [acceptedAt]; rewrite ?app_nil_r; try done;
    repeat match goal with
    | H : isGenerating _ = _ |- _ => rewrite H
    | H : JsString.trim _ = _ |- _ => rewrite H
    | H : textFlows (pending s) = _ |- _ => rewrite H in HS
    end; rewrite ?app_nil_r; try done.
  - rewrite (userTexts_added _ _ _ _ (numbered_added _ _ _ _ Ht)).
    rewrite (userTexts_added _ _ _ _ Ht). cbn [sender paragraph]. rewrite app_nil_r.
    rewrite textContent_setTextContent. by destruct userInput.
  - rewrite (userTexts_added _ _ _ _ Ht). cbn [sender paragraph].
    rewrite textContent_setTextContent. by destruct userInput.
  - rewrite (userTexts_added _ _ _ _ (numbered_removed _ _ _ _ Ht)). cbn.
    rewrite app_nil_r. by apply userTexts_removed, status_no_userText.
  - match goal with
    | H : insertBefore _ _ (paragraph ?x) = Some ?x0 |- _ =>
        rewrite (userTexts_fresh (elements (transcript s)) _ _ _
                   {| sender := sender x; streaming := streaming x;
                      firstNpcReply := firstNpcReply x; paragraph := x0 |}
                   (numbered_removed _ _ _ _ Ht)); [|fresh_lookup..]
    end.
    match goal with
    | H : alter _ _ _ !! _ = Some _ |- _ =>
        rewrite lookup_alter_eq, lookup_insert_eq in H; cbn in H; injection H as <-
    end.
    cbn. rewrite app_nil_r.
    by apply userTexts_removed, status_no_userText.
  - erewrite (userTexts_fresh (elements (transcript s)) _ _ _ _
                (numbered_removed _ _ _ _ Ht)); [|fresh_lookup..].
    cbn. rewrite app_nil_r. by apply userTexts_removed, status_no_userText.
  - match goal with
    | H : insertBefore _ _ (paragraph ?x) = Some _ |- _ =>
        assert (sender x = npc) as Hnpc by (by eapply typed_is_character)
    end.
    by eapply userTexts_updated.
  - apply userTexts_altered. intros m. cbn. split; [done|].
    apply textContent_without_cursor.
  - by rewrite (userTexts_added _ _ _ _ Ht), app_nil_r.
  - by rewrite (userTexts_added _ _ _ _ Ht), app_nil_r.
  - match goal with
    | H : insertBefore _ _ (paragraph ?x) = Some _ |- _ =>
        assert (sender x = npc) as Hnpc by (by eapply typed_is_character)
    end.
    by eapply userTexts_updated.
  - apply userTexts_altered. intros m. cbn. split; [done|].
    apply textContent_without_cursor.
  - by rewrite (userTexts_added _ _ _ _ Ht), app_nil_r.
  - match goal with
    | H : insertBefore _ _ (paragraph ?x) = Some _ |- _ =>
        assert (sender x = npc) as Hnpc by (by eapply typed_is_character)
    end.
    by eapply userTexts_updated.
Qed.

Lemma no_user_cursor_insert els n (m : MessageElement) :
  no_user_cursor els -> (sender m = user -> CursorSpan ∉ paragraph m) ->
  no_user_cursor (<[n := m]> els).
Proof.
  intros HU Hm x m'. rewrite lookup_insert. case_decide.
  - intros [= <-]. done.
  - apply HU.
Qed.

Lemma no_user_cursor_alter els e (f : MessageElement -> MessageElement) :
  no_user_cursor els ->
  (forall m, sender (f m) = sender m
             /\ (CursorSpan ∈ paragraph (f m) -> CursorSpan ∈ paragraph m)) ->
  no_user_cursor (alter f e els).
Proof.
  intros HU Hf x m'. destruct (decide (x = e)) as [->|Hne].
  - rewrite lookup_alter_eq. destruct (els !! e) as [m|] eqn:E; [|done]. cbn.
    intros [= <-]. destruct (Hf m) as [-> Hc]. intros Hu Hin.
    by eapply HU; [done|done|apply Hc].
  - rewrite lookup_alter_ne by done. apply HU.
Qed.

Lemma turn_senders s e s' :
  turn random s e s' -> Inv s -> senders_ok s -> senders_ok s'.
Proof.
  intros H [Ht _ _] [HU HS]. unfold inv_transcript in Ht. unfold senders_ok.
  turn_cases H; view;
    repeat match goal with
    | H : textFlows _ = _ |- _ => rewrite H in *
    end; (split; [|try done]);
    repeat first
      [ done
      | apply no_user_cursor_insert; [|try done]
      | apply no_user_cursor_alter;
        [|intros m; cbn; split; [done|]; try done;
          by intros [_ ?]%list_elem_of_filter] ].
  all: cbn [sender paragraph];
    try (eexists; rewrite lookup_insert_eq; done);
    try (intros _; destruct userInput;
         [by intros ?%elem_of_nil|by intros [=]%list_elem_of_singleton]).
  all: try match goal with
       | H : alter _ _ _ !! _ = Some _ |- _ =>
           rewrite lookup_alter_eq, lookup_insert_eq in H; cbn in H;
           injection H as <-; done
       end.
  all: match goal with
       | H : insertBefore _ _ (paragraph ?x) = Some _ |- _ =>
           assert (sender x = npc) as -> by (by eapply typed_is_character); done
       end.
Qed.

Lemma initial_senders : senders_ok initial.
Proof.
  split; [|done]. intros x m Hm.
  cbn [initial transcript elements] in Hm. by rewrite lookup_empty in Hm.
Qed.

Lemma reachable_senders s : reachable random s -> senders_ok s.
Proof.
  induction 1 as [|s e s' Hs IH Hstep]; [apply initial_senders|].
  pose proof (reachable_inv random s Hs) as HI.
  eapply turn_senders; [|done|done]. by eapply step_turn.
Qed.

Lemma run_userTexts s es s' :
  reachable random s -> run random s es = Some s' ->
  userTexts (transcript s') = userTexts (transcript s) ++ accepted random s es.
Proof.
  revert s. induction es as [|e es IH]; intros s Hs; cbn [run accepted].
  - intros [= <-]. by rewrite app_nil_r.
  - destruct (step random s e) as [s1|] eqn:E; [|done]. cbn.
    intros Hrun. rewrite (IH s1); [|by eapply reachable_step|done].
    rewrite app_assoc. f_equal.
    apply (turn_userTexts s e s1).
    + apply step_turn; [by apply (reachable_inv random)|done].
    + by apply (reachable_inv random).
    + by apply reachable_senders.
Qed.

End HistoryFacts.

(** ** The thinking time *)


(** X2: with the same draw, a longer input never gets a shorter thinking
    time; the time depends on the input through its number of code units
    only. *)
Theorem thinking_time_monotone (random : nat -> Q) (i : nat) (u v : jsstring) :
  length u <= length v ->
  ((getThinkingTime random u i).1 <= (getThinkingTime random v i).1)%Q.
Proof.
  intros Hlen.
  set (Lu := inject_Z (Z.of_nat (length u))).
  set (Lv := inject_Z (Z.of_nat (length v))).
  assert (Lu <= Lv)%Q as HL.
  { unfold Lu, Lv. rewrite <- Zle_Qle. lia. }
  assert ((getThinkingTime random u i).1
          = Qmin (600 + Lu * 40 + random i * 500) 4000) as -> by done.
  assert ((getThinkingTime random v i).1
          = Qmin (600 + Lv * 40 + random i * 500) 4000) as -> by done.
  destruct (Q.min_spec (600 + Lu * 40 + random i * 500) 4000) as [[Hlt ->]|[Hle ->]];
    destruct (Q.min_spec (600 + Lv * 40 + random i * 500) 4000) as [[Hlt' ->]|[Hle' ->]];
    nra.
Qed.

(** ** The timers of the text flows *)

(** X3: every timer a text flow waits for was set within the bounds of the
    delay functions: in every reachable state a pending typing delay lies in
    [50, 700], both ends included (700 is reached, by rounding, at the
    largest draw), and a pending thinking time in [600, 4000]. *)
Theorem pending_timers_in_range (random : nat -> Q) (s : State) (i : nat)
    (k : Continuation) :
  (forall n, 0 <= random n < 1)%Q ->
  reachable random s ->
  pending s !! i = Some k ->
  match k with
  | TypingFirstMessage _ _ _ delay | TypingChunk _ _ delay => (50 <= delay <= 700)%Q
  | Thinking _ thinkingTime => (600 <= thinkingTime <= 4000)%Q
  | _ => True
  end.
Proof.
  intros Hr Hs Hi.
  pose proof (reachable_timers random s Hr Hs) as Ht.
  unfold timers_ok in Ht. rewrite Forall_lookup in Ht.
  exact (Ht i k Hi).
Qed.

(** ** The characters that are typed *)

Lemma chars_characters (s : jsstring) : Forall isCharacter (JsString.chars s).
Proof.
  assert (forall n (s : jsstring), length s < n -> Forall isCharacter (JsString.chars s))
    as H.
  { induction n as [|n IH]; intros s' Hn; [lia|].
    destruct s' as [|u [|v rest]].
    - constructor.
    - by repeat constructor.
    - change (JsString.chars (u :: v :: rest))
        with (if JsString.isHighSurrogate u && JsString.isLowSurrogate v
              then [u; v] :: JsString.chars rest
              else [u] :: JsString.chars (v :: rest)).
      destruct (JsString.isHighSurrogate u && JsString.isLowSurrogate v) eqn:E.
      + apply Forall_cons. split.
        * unfold isCharacter. cbn [JsString.chars]. by rewrite E.
        * apply IH. cbn in *. lia.
      + apply Forall_cons. split; [done|]. apply IH. cbn in *. lia. }
  apply (H (S (length s))). lia.
Qed.

Lemma turn_characters (random : nat -> Q) s e s' :
  turn random s e s' ->
  Forall characters_ok (pending s) -> Forall characters_ok (pending s').
Proof.
  intros H Hf.
  destruct H;
  repeat match goal with
  | |- context [generateNpcImage_resume ?r ?s] =>
      let E := fresh "E" in
      destruct (generateNpcImage_resume_portrait r s) as [? E]; rewrite E; clear E
  | H : flowing _ _ _ |- _ => destruct H as (? & ? & ?)
  | H : typed_first _ _ _ _ _ ?cs _ |- _ =>
      let C := fresh "C" in
      assert (Forall isCharacter cs) as C
        by first [ apply chars_characters
                 | match goal with
                   | H0 : pending _ !! _ = Some _, H1 : Forall characters_ok _ |- _ =>
                       rewrite Forall_lookup in H1; exact (H1 _ _ H0)
                   end ];
      inversion H; subst; clear H
  | H : typed_chunk _ _ _ _ ?cs _ |- _ =>
      let C := fresh "C" in
      assert (Forall isCharacter cs) as C
        by first [ apply chars_characters
                 | match goal with
                   | H0 : pending _ !! _ = Some _, H1 : Forall characters_ok _ |- _ =>
                       rewrite Forall_lookup in H1; exact (H1 _ _ H0)
                   end ];
      inversion H; subst; clear H
  | H : typeCharacter _ _ _ _ = Some _ |- _ =>
      apply typeCharacter_Some in H as (? & ? & ? & ? & ->)
  end; view;
    repeat first
      [ apply Forall_insert | apply Forall_delete | apply Forall_app; split
      | apply Forall_cons; split | apply Forall_nil ];
    try done; cbn [characters_ok];
    try match goal with
    | C : Forall isCharacter (_ :: ?rest) |- Forall isCharacter ?rest =>
        by apply Forall_cons in C as [_ ?]
    | E : _ :: ?rest = JsString.chars _, C : Forall isCharacter (JsString.chars _)
      |- Forall isCharacter ?rest =>
        rewrite <- E in C; by apply Forall_cons in C as [_ ?]
    end.
Qed.

(** X4: the strings that the loops of lines 200 and 295 hand to
    [getTypingDelay] are single characters: whatever a suspended typing loop
    still has to type is a list of strings that are each one code unit, or a
    high surrogate followed by a low one. *)
Theorem typed_characters (random : nat -> Q) (s : State) (i : nat)
    (k : Continuation) (c : jsstring) :
  reachable random s ->
  pending s !! i = Some k ->
  c ∈ match k with
      | TypingFirstMessage _ _ rest _ | TypingChunk _ rest _ => rest
      | _ => []
      end ->
  isCharacter c
  /\ ((exists u, c = [u])
      \/ exists h l, c = [h; l] /\ JsString.isHighSurrogate h = true
                     /\ JsString.isLowSurrogate l = true).
Proof.
  intros Hs Hi Hin.
  assert (Forall characters_ok (pending s)) as Hall.
  { clear Hi Hin. induction Hs as [|s e s' Hs IH Hstep]; [by constructor|].
    eapply turn_characters; [|done]. eapply step_turn; [|done].
    by apply (reachable_inv random). }
  rewrite Forall_lookup in Hall. specialize (Hall i k Hi).
  assert (isCharacter c) as Hc.
  { destruct k; try (by apply elem_of_nil in Hin); cbn [characters_ok] in Hall;
      rewrite Forall_forall in Hall; by apply Hall. }
  split; [done|]. unfold isCharacter in Hc.
  destruct c as [|u [|v rest]]; cbn [JsString.chars] in Hc; [done| |].
  - left. by exists u.
  - right.
    destruct (JsString.isHighSurrogate u) eqn:Hh; cbn [andb] in Hc;
      [|by injection Hc].
    destruct (JsString.isLowSurrogate v) eqn:Hl; [|by injection Hc].
    injection Hc as Hrest. destruct rest as [|w rest]; [by exists u, v|].
    exfalso. by destruct rest.
Qed.

(** ** The system instruction *)

Lemma trimStart_skip (u : N) (s : jsstring) :
  JsString.isWhiteSpace u = true ->
  JsString.trimStart (u :: s) = JsString.trimStart s.
Proof. intros E. cbn. by rewrite E. Qed.

(** X5: the [trim] of line 186 takes away the line feed that opens the
    template literal and the one that closes it, and nothing else: the
    system instruction between two line feeds is the template with the
    fields of the profile exactly as they were received, white space at
    their ends included. *)
Theorem system_instruction_trimmed (p : NpcProfile) :
  [0x0A%N] ++ systemInstructionFor p ++ [0x0A%N]
  = instructionBeforeName ++ name p
    ++ instructionBeforePersonality ++ personality p
    ++ instructionBeforeBackstory ++ backstory p
    ++ instructionBeforeActivity ++ current_activity p
    ++ instructionBeforeRole ++ name p
    ++ instructionAfterRole.
Proof.
  unfold systemInstructionFor, JsString.trim.
  set (middle := name p
    ++ instructionBeforePersonality ++ personality p
    ++ instructionBeforeBackstory ++ backstory p
    ++ instructionBeforeActivity ++ current_activity p
    ++ instructionBeforeRole ++ name p).
  assert (exists a b, instructionBeforeName = 0x0A%N :: a :: b
                      /\ JsString.isWhiteSpace a = false) as (a & b & Hb & Ha).
  { unfold instructionBeforeName. by eexists _, _. }
  assert (exists e z, instructionAfterRole = e ++ [z; 0x0A%N]
                      /\ JsString.isWhiteSpace z = false) as (e & z & He & Hz).
  { exists (take (length instructionAfterRole - 2) instructionAfterRole), 0x3002%N.
    split; vm_compute; reflexivity. }
  replace (name p ++ instructionBeforePersonality ++ personality p
           ++ instructionBeforeBackstory ++ backstory p
           ++ instructionBeforeActivity ++ current_activity p
           ++ instructionBeforeRole ++ name p ++ instructionAfterRole)
    with (middle ++ instructionAfterRole)
    by (unfold middle; by rewrite <- !app_assoc).
  rewrite Hb, He. cbn [app].
  rewrite trimStart_skip by done.
  rewrite (trimStart_fixed (a :: b ++ middle ++ e ++ [z; 0x0A%N]) a
             (b ++ middle ++ e ++ [z; 0x0A%N]) eq_refl Ha).
  unfold JsString.trimEnd.
  replace (a :: b ++ middle ++ e ++ [z; 0x0A%N])
    with ((a :: b ++ middle ++ e) ++ [z; 0x0A%N])
    by (cbn; by rewrite <- !app_assoc).
  rewrite rev_app_distr. change (rev [z; 0x0A%N]) with [0x0A%N; z]. cbn [app].
  rewrite trimStart_skip by done.
  rewrite (trimStart_fixed (z :: rev (a :: b ++ middle ++ e)) z _ eq_refl Hz).
  change (z :: rev (a :: b ++ middle ++ e)) with (rev [z] ++ rev (a :: b ++ middle ++ e)).
  rewrite <- rev_app_distr, rev_involutive.
  cbn. by rewrite <- !app_assoc.
Qed.

(** ** The history *)

(** X6: [addMessageToUI] puts one new element at the end of the history and
    returns it: the element was neither in the history nor known before, it
    shows the given text with the class of its sender, it has the streaming
    class and the cursor as its last child exactly when asked to, and no
    other element, nor anything outside the history, changes. *)
Theorem addMessageToUI_appends (random : nat -> Q) (text : jsstring) (who : Sender)
    (isStreaming : bool) (s : State) :
  reachable random s ->
  let element := (addMessageToUI text who isStreaming s).1 in
  let s' := (addMessageToUI text who isStreaming s).2 in
  (element ∉ chatHistory (transcript s))
  /\ elements (transcript s) !! element = None
  /\ chatHistory (transcript s') = chatHistory (transcript s) ++ [element]
  /\ (exists m,
        elements (transcript s') !! element = Some m
        /\ sender m = who
        /\ streaming m = isStreaming
        /\ textContent (paragraph m) = text
        /\ if isStreaming then last (paragraph m) = Some CursorSpan
           else CursorSpan ∉ paragraph m)
  /\ (forall x, x <> element ->
        elements (transcript s') !! x = elements (transcript s) !! x)
  /\ session s' = session s /\ form s' = form s /\ requests s' = requests s
  /\ pending s' = pending s.
Proof.
  intros Hs element s'.
  destruct (reachable_inv random s Hs) as [[Hh He] _ _].
  subst element s'. proj.
  split. { intros Hin. apply Hh in Hin. lia. }
  split.
  { destruct (elements (transcript s) !! created (transcript s)) eqn:E; [|done].
    assert (created (transcript s) < created (transcript s)); [|lia].
    apply He. by eexists. }
  split; [done|]. split.
  { eexists. rewrite lookup_insert_eq. split; [done|]. cbn [sender streaming paragraph].
    split; [done|]. split; [done|]. split.
    - destruct isStreaming.
      + unfold textContent. rewrite map_app, concat_app. cbn. rewrite app_nil_r.
        apply textContent_setTextContent.
      + apply textContent_setTextContent.
    - destruct isStreaming.
      + by rewrite last_snoc.
      + destruct text; [by intros ?%elem_of_nil|by intros [=]%list_elem_of_singleton]. }
  split; [|done]. intros x Hx. by rewrite lookup_insert_ne.
Qed.

(** ** The form *)

(** X7: in every reachable state the input and the button of the form are
    disabled exactly when [isGenerating] is set: [setLoading] is the only
    place that writes any of the three. *)
Theorem form_disabled_while_busy (random : nat -> Q) (s : State) :
  reachable random s ->
  inputDisabled (form s) = isGenerating (session s)
  /\ buttonDisabled (form s) = isGenerating (session s).
Proof. apply reachable_form_locked. Qed.

(** X8: the placeholder of the input follows the phase of the page.  While
    the profile is awaited, and still while the first message is typed, it
    reads [connectingText]: line 63 read [isFirstMessage] before line 193
    cleared it.  While a reply is thought over, awaited or typed, it reads
    [listeningText].  When the page is idle it reads [carryOnText] once
    contact is made, and [sayAnythingText] after a contact that failed. *)
Theorem placeholder_follows_phase (random : nat -> Q) (s : State) :
  reachable random s ->
  (forall i k, pending s !! i = Some k -> isTextFlow k = true ->
     inputPlaceholder (form s)
     = if contactFlow k then connectingText else listeningText)
  /\ (isGenerating (session s) = false ->
      isFirstMessage (session s) = false ->
      inputPlaceholder (form s) = carryOnText)
  /\ (isGenerating (session s) = false ->
      isFirstMessage (session s) = true ->
      requests s <> [] ->
      inputPlaceholder (form s) = sayAnythingText).
Proof.
  intros Hs. pose proof (reachable_placeholder random s Hs) as Hp.
  destruct (reachable_inv random s Hs) as [_ _ Hb]. unfold placeholder_ok in Hp.
  split; [|split].
  - intros i k Hi Hk.
    destruct (busy_lookup _ _ _ _ _ Hb Hi Hk) as (Hf & _). by rewrite Hf in Hp.
  - intros Hg Hfirst. rewrite (idle_no_text_flow _ _ _ Hb Hg), Hfirst in Hp. done.
  - intros Hg Hfirst Hr. rewrite (idle_no_text_flow _ _ _ Hb Hg), Hfirst in Hp.
    by destruct Hp.
Qed.

(** ** The signal *)

(** X9: the signal region holds the three vine strands of line 273 exactly
    while a profile is awaited; once a first call was made it is otherwise
    empty. *)
Theorem signal_animates_while_connecting (random : nat -> Q) (s : State) :
  reachable random s ->
  (signal s = SignalVines <->
   exists i statusMessage, pending s !! i = Some (AwaitingProfile statusMessage))
  /\ (requests s <> [] -> signal s = SignalVines \/ signal s = SignalEmpty).
Proof.
  intros Hs. pose proof (reachable_signal random s Hs) as Hp.
  destruct (reachable_inv random s Hs) as [_ _ Hb]. unfold signal_ok in Hp.
  split; [split|].
  - intros Hv.
    destruct (textFlows (pending s)) as [|k [|k' ks]] eqn:Hf.
    + destruct (isFirstMessage (session s)); [|congruence].
      destruct Hp as [|[? _]]; congruence.
    + assert (k ∈ textFlows (pending s)) as Hin by (rewrite Hf; by left).
      apply list_elem_of_filter in Hin as [_ Hin].
      apply list_elem_of_lookup_1 in Hin as [i Hi].
      destruct k; try congruence. by eexists _, _.
    + destruct k; congruence.
  - intros (i & statusMessage & Hi).
    destruct (busy_lookup _ _ _ _ _ Hb Hi eq_refl) as (Hf & _). by rewrite Hf in Hp.
  - intros Hr. destruct (textFlows (pending s)) as [|k [|k' ks]].
    + destruct (isFirstMessage (session s)); [|by right].
      destruct Hp as [|[_ ?]]; [by right|done].
    + destruct k; auto.
    + destruct k; auto.
Qed.

(** ** The portrait *)

Lemma portrait_loading (random : nat -> Q) (s : State) (i : nat) :
  reachable random s -> pending s !! i = Some AwaitingImage ->
  isFirstMessage (session s) = false
  /\ imageFlows (pending s) = [AwaitingImage]
  /\ portrait s = loadingView.
Proof.
  intros Hs Hi. pose proof (reachable_portrait random s Hs) as Hp.
  pose proof (imageFlows_elem _ _ Hi) as Hin. unfold portrait_ok in Hp.
  destruct (isFirstMessage (session s)).
  { destruct Hp as [Hnil _]. rewrite Hnil in Hin. by apply elem_of_nil in Hin. }
  split; [done|].
  destruct (imageFlows (pending s)) as [|k [|k' ks]]; [by apply elem_of_nil in Hin| |done].
  apply list_elem_of_singleton in Hin. by subst k.
Qed.

(** X10: after contact the portrait region is in one of three states.
    While the image request is pending the loader shows, and placeholder
    and image are hidden.  Once it has settled the loader is hidden for
    good, and either the image shows, its source a JPEG data URL, or the
    placeholder shows with the failure caption.  Before contact the region
    is as the page was loaded, and no image request is pending. *)
Theorem portrait_views (random : nat -> Q) (s : State) :
  reachable random s ->
  if isFirstMessage (session s)
  then portrait s = portrait initial /\ (AwaitingImage ∉ pending s)
  else (AwaitingImage ∈ pending s /\ portrait s = loadingView)
       \/ ((AwaitingImage ∉ pending s)
           /\ (portrait s = failedView \/ exists b, portrait s = imageView b)).
Proof.
  intros Hs. pose proof (reachable_portrait random s Hs) as Hp. unfold portrait_ok in Hp.
  assert (forall ks, imageFlows ks = [] -> AwaitingImage ∉ ks) as Hnone.
  { intros ks Hnil Hin. apply list_elem_of_lookup_1 in Hin as [i Hi].
    apply imageFlows_elem in Hi. rewrite Hnil in Hi. by apply elem_of_nil in Hi. }
  destruct (isFirstMessage (session s)).
  - destruct Hp as [Hnil Hp]. split; [done|]. by apply Hnone.
  - destruct (imageFlows (pending s)) as [|k [|k' ks]] eqn:Hf; [|left|done].
    + right. split; [by apply Hnone|done].
    + split; [|done].
      assert (k ∈ imageFlows (pending s)) as Hin by (rewrite Hf; by left).
      pose proof (imageFlows_only _ _ Hin) as ->.
      by apply list_elem_of_filter in Hin as [_ Hin].
Qed.

(** X11: when the image request is fulfilled with the bytes of a first
    image, the image is given the data URL made of these bytes and shown,
    the loader is hidden and the placeholder stays hidden; the turn touches
    nothing but the portrait region. *)
Theorem portrait_shows_image (random : nat -> Q) (s : State) (i : nat)
    (base64ImageBytes : jsstring) (others : list (option jsstring)) :
  reachable random s ->
  pending s !! i = Some AwaitingImage ->
  exists s',
    step random s (Settle i (GenerateImagesFulfilled (Some base64ImageBytes :: others)))
    = Some s'
    /\ portrait s'
       = {| placeholderHidden := true; placeholderCaption := None;
            loaderHidden := true; imageHidden := false;
            imageSrc := Some (dataUrlPrefix ++ base64ImageBytes) |}
    /\ session s' = session s
    /\ transcript s' = transcript s
    /\ form s' = form s
    /\ signal s' = signal s
    /\ requests s' = requests s
    /\ pending s' = delete i (pending s).
Proof.
  intros Hs Hi. destruct (portrait_loading random s i Hs Hi) as (_ & _ & Hp).
  cbn [step]. rewrite Hi. cbn [mbind option_bind resume].
  eexists. split; [done|]. unfold generateNpcImage_resume. view. by rewrite Hp.
Qed.

(** ** The calls that are made *)

(** X12: along any run at most one image is asked for, and only once a
    profile is there; its prompt is the image prompt of that profile
    followed by the style sentence of line 233. *)
Theorem portrait_requested_once (random : nat -> Q) (s : State) :
  reachable random s ->
  filter (fun r => isGenerateImages r) (requests s)
  = match npcProfile (session s) with
    | Some p => [GenerateImages (image_prompt p ++ styleSuffix)]
    | None => []
    end.
Proof.
  intros Hs. pose proof (reachable_contact_ok random s Hs) as Hc.
  unfold contact_ok in Hc. destruct (npcProfile (session s)) as [p|].
  - by destruct Hc as (_ & -> & _).
  - by destruct Hc as (_ & -> & _).
Qed.

(** X13: the chat session is the one that was created for the profile: in
    every reachable state there is a session exactly when there is a
    profile, [ai.chats.create] was called once, with the system instruction
    built from that profile, and the session carries that instruction. *)
Theorem chat_created_from_profile (random : nat -> Q) (s : State) :
  reachable random s ->
  match npcProfile (session s) with
  | Some p =>
      (exists c, chat (session s) = Some c
                 /\ chatSystemInstruction c = systemInstructionFor p)
      /\ filter (fun r => isChatsCreate r) (requests s)
         = [ChatsCreate (systemInstructionFor p)]
  | None =>
      chat (session s) = None
      /\ filter (fun r => isChatsCreate r) (requests s) = []
  end.
Proof.
  intros Hs. pose proof (reachable_contact_ok random s Hs) as Hc.
  unfold contact_ok in Hc. destruct (npcProfile (session s)) as [p|].
  - by destruct Hc as (? & _ & ?).
  - by destruct Hc as (? & _ & ?).
Qed.

(** ** The flows *)

(** X14: replies are never interleaved.  In every reachable state at most
    one run of [handleChatSubmit] or [generateNpcAndStartChat] is suspended,
    and one is suspended exactly when [isGenerating] is set; at most one
    run of [generateNpcImage] is suspended beside it. *)
Theorem one_flow_at_a_time (random : nat -> Q) (s : State) :
  reachable random s ->
  length (textFlows (pending s)) = (if isGenerating (session s) then 1 else 0)
  /\ length (imageFlows (pending s)) <= 1.
Proof.
  intros Hs. split.
  - destruct (reachable_inv random s Hs) as [_ _ Hb]. unfold inv_busy in Hb.
    destruct (textFlows (pending s)) as [|k [|k' ks]]; [by rewrite Hb| |done].
    by destruct Hb as [-> _].
  - pose proof (reachable_portrait random s Hs) as Hp. unfold portrait_ok in Hp.
    destruct (isFirstMessage (session s)).
    + destruct Hp as [-> _]. cbn. lia.
    + destruct (imageFlows (pending s)) as [|k [|k' ks]]; cbn; [lia|lia|done].
Qed.

(** ** Failures in the dialogue *)

(** X15: when the stream breaks in the middle of a reply, the [catch] of
    line 306 appends the fixed request to say it again and the page becomes
    idle, still in dialogue, with no call made; the reply that was being
    typed is not cleaned up: it stays in the history just above, showing
    what the stream had yielded, with its streaming class and its cursor. *)
Theorem stream_failure_keeps_partial_reply (random : nat -> Q) (es : list Event)
    (s : State) (i messageElement : nat) :
  run random initial es = Some s ->
  pending s !! i = Some (AwaitingChunk messageElement) ->
  exists s',
    step random s (Settle i StreamRejected) = Some s'
    /\ chatHistory (transcript s')
       = chatHistory (transcript s) ++ [created (transcript s)]
    /\ last (chatHistory (transcript s)) = Some messageElement
    /\ elements (transcript s') !! messageElement
       = Some {| sender := npc; streaming := true; firstNpcReply := false;
                 paragraph :=
                   map TextNode (concat (map JsString.chars (streamed es)))
                   ++ [CursorSpan] |}
    /\ elements (transcript s') !! created (transcript s)
       = Some {| sender := npc; streaming := false; firstNpcReply := false;
                 paragraph := [TextNode driftingText] |}
    /\ session s' = set_isGenerating false (session s)
    /\ isFirstMessage (session s') = false
    /\ requests s' = requests s
    /\ textFlows (pending s') = []
    /\ inputDisabled (form s') = false.
Proof.
  intros Hrun Hi.
  pose proof (run_inv random es s Hrun) as HI.
  pose proof (run_rendering random es [] initial s initial_inv initial_rendering Hrun)
    as Hren.
  destruct (flow_rendering _ _ _ _ HI Hren Hi eq_refl) as [Hel Hlast].
  destruct (text_flow_entry _ _ _ HI Hi eq_refl) as (Ht & _ & _ & Hf & _ & Hfirst & _).
  cbn [step]. rewrite Hi. cbn [mbind option_bind resume conclude].
  eexists. split; [done|]. unfold handleChatSubmit_catch. view.
  split; [done|]. split; [done|]. split.
  { rewrite lookup_insert_ne; [done|]. destruct Ht as [_ He].
    assert (messageElement < created (transcript s)); [|lia]. apply He. by eexists. }
  split; [by rewrite lookup_insert_eq|]. split; [done|]. split; [done|].
  split; [done|]. split; [|done].
  unfold textFlows in *. by rewrite (filter_delete_unit _ _ i (AwaitingChunk messageElement)).
Qed.

(** X16: when [sendMessageStream] itself is refused, no reply element is
    created: the only change to the history is the fixed request to say it
    again, appended as a new element; the page becomes idle, stays in
    dialogue with the same chat session, and makes no further call. *)
Theorem send_failure_apologises (random : nat -> Q) (s : State) (i : nat) :
  reachable random s ->
  pending s !! i = Some AwaitingStream ->
  exists s',
    step random s (Settle i SendMessageStreamRejected) = Some s'
    /\ chatHistory (transcript s')
       = chatHistory (transcript s) ++ [created (transcript s)]
    /\ elements (transcript s')
       = <[created (transcript s) :=
             {| sender := npc; streaming := false; firstNpcReply := false;
                paragraph := [TextNode driftingText] |}]> (elements (transcript s))
    /\ elements (transcript s) !! created (transcript s) = None
    /\ session s' = set_isGenerating false (session s)
    /\ isFirstMessage (session s') = false
    /\ requests s' = requests s
    /\ textFlows (pending s') = []
    /\ inputDisabled (form s') = false.
Proof.
  intros Hs Hi.
  pose proof (reachable_inv random s Hs) as HI.
  destruct (text_flow_entry _ _ _ HI Hi eq_refl) as (Ht & _ & _ & Hf & _ & Hfirst).
  cbn [flow_ok] in Hfirst.
  cbn [step]. rewrite Hi. cbn [mbind option_bind resume conclude].
  eexists. split; [done|]. unfold handleChatSubmit_catch. view.
  split; [done|]. split; [done|]. split.
  { destruct Ht as [_ He].
    destruct (elements (transcript s) !! created (transcript s)) eqn:E; [|done].
    assert (created (transcript s) < created (transcript s)); [|lia].
    apply He. by eexists. }
  split; [done|]. split; [done|]. split; [done|]. split; [|done].
  unfold textFlows in *. by rewrite (filter_delete_unit _ _ i AwaitingStream).
Qed.

(** ** The user's messages *)

(** X17: the history keeps the user's side of the conversation whole.  At
    the end of any run the messages of the user that the history shows are
    exactly the submissions that were accepted, trimmed, each once and in
    the order they were made: none is dropped, repeated, reordered or
    altered by what the character says or by a failure. *)
Theorem user_messages_are_submissions (random : nat -> Q) (es : list Event) (s : State) :
  run random initial es = Some s ->
  userTexts (transcript s) = accepted random initial es.
Proof.
  intros Hrun.
  by rewrite (run_userTexts random initial es s (reachable_initial random) Hrun).
Qed.

Lemma accepted_trimmed (random : nat -> Q) (es : list Event) (s : State) :
  Forall (fun u => u <> [] /\ JsString.trim u = u) (accepted random s es).
Proof.
  revert s. induction es as [|e es IH]; intros s; cbn [accepted]; [constructor|].
  destruct (step random s e) as [s'|]; [|constructor].
  apply Forall_app. split; [|apply IH].
  destruct e; cbn [acceptedAt]; try constructor.
  destruct (isGenerating (session s)); [constructor|].
  destruct (JsString.trim (inputValue (form s))) as [|u rest] eqn:E; [constructor|].
  repeat constructor; [done|]. rewrite <- E. apply trim_idem.
Qed.

Lemma reachable_run (random : nat -> Q) (s : State) :
  reachable random s -> exists es, run random initial es = Some s.
Proof.
  induction 1 as [|s e s' Hs [es IH] Hstep]; [by exists []|].
  exists (es ++ [e]). rewrite run_app, IH. cbn. by rewrite Hstep.
Qed.

(** X18: no message of the user in the history is empty, and none begins
    or ends with white space: each is left unchanged by [trim]. *)
Theorem user_messages_trimmed (random : nat -> Q) (s : State) :
  reachable random s ->
  Forall (fun u => u <> [] /\ JsString.trim u = u) (userTexts (transcript s)).
Proof.
  intros [es Hrun]%reachable_run.
  rewrite (run_userTexts random initial es s (reachable_initial random) Hrun).
  apply accepted_trimmed.
Qed.

(** ** The draws of a typing delay *)

Lemma sentenceEnd_substrings (c : jsstring) :
  JsString.includes sentenceEnd c = true <-> c ∈ sentenceEndSubstrings.
Proof.
  unfold sentenceEnd, sentenceEndSubstrings. split.
  - destruct c as [|a [|b [|d [|e rest]]]]; cbn;
      repeat match goal with
      | |- context [(?x =? ?y)%N] => destruct (N.eqb_spec x y); subst; cbn
      end; try done; intros _; set_solver.
  - intros Hin. repeat (apply elem_of_cons in Hin as [->|Hin]; [reflexivity|]).
    by apply elem_of_nil in Hin.
Qed.

(** X19: [getTypingDelay] reads the random source once when it takes one
    of the two punctuation pauses and twice otherwise.  Because line 95
    tests with [includes], the pause of a sentence end is taken for every
    substring of ".?!": for the three characters, but also for the empty
    string and for ".?", "?!" and ".?!"; it then is 500 + draw * 200, the
    product and the sum each rounded to binary64. *)
Theorem typing_delay_draws (random : nat -> Q) (i : nat) (c : jsstring) :
  ((getTypingDelay random c i).2 = S i <-> c = comma \/ c ∈ sentenceEndSubstrings)
  /\ ((getTypingDelay random c i).2 = S (S i)
      <-> ~ (c = comma \/ c ∈ sentenceEndSubstrings))
  /\ (c ∈ sentenceEndSubstrings ->
      (getTypingDelay random c i).1 = Binary64.add 500 (Binary64.mul (random i) 200)).
Proof.
  pose proof (sentenceEnd_substrings c) as Hsub.
  unfold getTypingDelay, JsString.strictEq.
  destruct (bool_decide (c = comma)) eqn:Hcomma.
  - apply bool_decide_eq_true in Hcomma.
    cbv [mbind mret rand_bind rand_ret Math_random fst snd].
    split; [split; auto|]. split.
    + split; [intros ?; lia|]. intros Hn. exfalso. apply Hn. by left.
    + intros Hin. subst c. exfalso. revert Hin. unfold comma, sentenceEndSubstrings.
      intros Hin. repeat (apply elem_of_cons in Hin as [Hin|Hin]; [discriminate|]).
      by apply elem_of_nil in Hin.
  - apply bool_decide_eq_false in Hcomma.
    destruct (JsString.includes sentenceEnd c) eqn:Hincl.
    + assert (c ∈ sentenceEndSubstrings) as Hin by (by apply Hsub).
      cbv [mbind mret rand_bind rand_ret Math_random fst snd].
      split; [split; auto|]. split; [|done].
      split; [intros ?; lia|]. intros Hn. exfalso. apply Hn. by right.
    + assert (c ∉ sentenceEndSubstrings) as Hnin.
      { intros Hin. apply Hsub in Hin. congruence. }
      cbv [mbind mret rand_bind rand_ret Math_random fst snd].
      destruct (Qltb (random (S i)) (Binary64.round 0.04));
        cbv [mbind mret rand_bind rand_ret Math_random fst snd];
        (split; [split; [intros ?; lia|intros [|]; done]|]);
        (split; [split; [intros _ [|]; done|done]|done]).
Qed.


(** ** The history only grows *)

Section CompleteFacts.

Lemma complete_kept_refl els : complete_kept els els.
Proof. intros x m Hm _. by exists m. Qed.

Lemma complete_kept_trans els1 els2 els3 :
  complete_kept els1 els2 -> complete_kept els2 els3 -> complete_kept els1 els3.
Proof.
  intros H12 H23 x m Hm Hc.
  destruct (H12 x m Hm Hc) as (m2 & Hm2 & Hs2 & Hp2).
  destruct (H23 x m2 Hm2) as (m3 & Hm3 & Hs3 & Hp3); [by rewrite Hp2|].
  exists m3. split; [done|]. split; congruence.
Qed.

Lemma complete_kept_fresh els n (m0 : MessageElement) :
  els !! n = None -> complete_kept els (<[n := m0]> els).
Proof.
  intros Hn x m Hm _. exists m. split; [|done].
  rewrite lookup_insert_ne; [done|]. intros ->. congruence.
Qed.

Lemma complete_kept_typed els e (m0 m1 : MessageElement) n cs :
  els !! e = Some m0 ->
  insertBefore n CursorSpan (paragraph m0) = Some cs ->
  complete_kept els (<[e := m1]> els).
Proof.
  intros He Hcs x m Hm Hc. exists m. split; [|done].
  rewrite lookup_insert_ne; [done|]. intros ->.
  rewrite He in Hm. injection Hm as <-. apply Hc. by eapply insertBefore_Some_ref.
Qed.

Lemma filter_without (children : list Node) :
  CursorSpan ∉ children -> filter (fun n => n ≠ CursorSpan) children = children.
Proof.
  induction children as [|c cs IH]; [done|]. intros Hc.
  rewrite filter_cons_True.
  - rewrite IH; [done|]. intros Hin. apply Hc. by right.
  - intros ->. apply Hc. by left.
Qed.

Lemma complete_kept_altered els e (f : MessageElement -> MessageElement) :
  (forall m, sender (f m) = sender m
             /\ (CursorSpan ∉ paragraph m -> paragraph (f m) = paragraph m)) ->
  complete_kept els (alter f e els).
Proof.
  intros Hf x m Hm Hc. destruct (decide (x = e)) as [->|Hne].
  - exists (f m). rewrite lookup_alter_eq, Hm. cbn. split; [done|].
    destruct (Hf m) as [Hs Hp]. split; [done|]. by apply Hp.
  - exists m. by rewrite lookup_alter_ne.
Qed.

End CompleteFacts.

(** X20: the history is append-only but for the placeholder.  A turn adds
    elements at the end of the history and leaves the order of the others
    alone; the only element it can take out is the placeholder of the
    profile request that settles in this turn.  A message that is complete
    - it has no cursor - keeps its sender and its children through the
    turn, and so for good. *)
Theorem history_append_only (random : nat -> Q) (s : State) (e : Event) (s' : State) :
  reachable random s ->
  step random s e = Some s' ->
  ((exists added,
      chatHistory (transcript s') = chatHistory (transcript s) ++ added)
   \/ (exists i statusMessage r added,
         e = Settle i r
         /\ pending s !! i = Some (AwaitingProfile statusMessage)
         /\ chatHistory (transcript s')
            = filter (fun x => x ≠ statusMessage) (chatHistory (transcript s))
              ++ added))
  /\ complete_kept (elements (transcript s)) (elements (transcript s')).
Proof.
  intros Hs Hstep.
  pose proof (reachable_inv random s Hs) as HI.
  pose proof (step_turn random s e s' HI Hstep) as H.
  destruct HI as [[_ He] _ _].
  assert (elements (transcript s) !! created (transcript s) = None) as Hnew.
  { destruct (elements (transcript s) !! created (transcript s)) eqn:E; [|done].
    assert (created (transcript s) < created (transcript s)); [|lia].
    apply He. by eexists. }
  assert (forall m0 : MessageElement,
            <[created (transcript s) := m0]> (elements (transcript s))
            !! S (created (transcript s)) = None) as Hnext.
  { intros m0. rewrite lookup_insert_ne by lia.
    destruct (elements (transcript s) !! S (created (transcript s))) eqn:E; [|done].
    assert (S (created (transcript s)) < created (transcript s)); [|lia].
    apply He. by eexists. }
  turn_cases H; view.
  all: split;
    [ first
        [ left; by eexists
        | left; exists []; by rewrite app_nil_r
        | left; eexists; by rewrite <- app_assoc
        | right; eexists _, _, _, _; split; [done|]; split; [done|]; done ]
    | repeat first
        [ apply complete_kept_refl
        | by eapply complete_kept_typed
        | by apply complete_kept_fresh
        | apply complete_kept_altered; intros m0; cbn; split; [done|];
          first [done | apply filter_without]
        | eapply complete_kept_trans; [|by eapply complete_kept_typed]
        | eapply complete_kept_trans; [|by apply complete_kept_fresh]
        | eapply complete_kept_trans;
          [|apply complete_kept_altered; intros m0; cbn; split; [done|];
            first [done | apply filter_without]] ] ].
Qed.


(** ** The calls of a turn *)

(** X21: the calls a turn makes are those of [callsOf] and no others, added
    to the end of the record: a first submission asks for the profile with
    the prompt built from the trimmed input, the arrival of the profile
    asks for the image and creates the chat session, the end of a thinking
    time sends the message to the chat session; typing, a submission in
    dialogue before its thinking time is over, a character typed, a chunk
    received, and every failure make no call. *)
Theorem calls_of_a_turn (random : nat -> Q) (s : State) (e : Event) (s' : State) :
  reachable random s ->
  step random s e = Some s' ->
  requests s' = requests s ++ callsOf s e.
Proof.
  intros Hs Hstep.
  pose proof (reachable_inv random s Hs) as HI.
  pose proof (step_turn random s e s' HI Hstep) as H. clear Hstep.
  turn_cases H; view; cbn [callsOf];
    repeat match goal with
    | H : isGenerating _ = _ |- _ => rewrite H
    | H : JsString.trim _ = _ |- _ => rewrite H
    | H : isFirstMessage _ = _ |- _ => rewrite H
    | H : pending _ !! _ = Some _ |- _ => rewrite H
    | H : chat _ = Some _ |- _ => rewrite H
    | H : _ = GenerateContentRejected \/ _ |- _ => destruct H as [->| ->]
    end; rewrite ?app_nil_r; try done;
    try (by destruct userInput); try (by rewrite <- app_assoc).
  destruct userInput; by rewrite app_nil_r.
Qed.

(** ** The sample runs, continued *)

Lemma sample_reachable (es : list Event) :
  run sampleRandom initial es = Some (sampleState es) ->
  reachable sampleRandom (sampleState es).
Proof.
  intros Hrun. exact (run_reachable sampleRandom initial es _ (reachable_initial _) Hrun).
Defined.

Lemma sample_typing :
  run sampleRandom initial firstTyping = Some (sampleState firstTyping)
  /\ exists c rest delay,
       pending (sampleState firstTyping) !! 0
       = Some (TypingFirstMessage 1 2 (c :: rest) delay).
Proof. split; [vm_compute; reflexivity|]. vm_compute. by eexists _, _, _. Defined.

Lemma sample_reply_started :
  run sampleRandom initial replyStarted = Some (sampleState replyStarted)
  /\ pending (sampleState replyStarted) !! 1 = Some (AwaitingChunk 4).
Proof. split; vm_compute; reflexivity. Defined.


Lemma thinking_time_monotone_witness :
  ((getThinkingTime sampleRandom sampleName 0%nat).1
   <= (getThinkingTime sampleRandom sampleQuestion 0%nat).1)%Q.
Proof.
  apply (thinking_time_monotone sampleRandom 0 sampleName sampleQuestion).
  vm_compute. lia.
Defined.

Lemma pending_timers_in_range_witness :
  exists c rest delay,
    pending (sampleState firstTyping) !! 0
    = Some (TypingFirstMessage 1 2 (c :: rest) delay)
    /\ (50 <= delay <= 700)%Q.
Proof.
  destruct sample_typing as [Hrun (c & rest & delay & Hi)].
  exists c, rest, delay. split; [exact Hi|].
  exact (pending_timers_in_range sampleRandom (sampleState firstTyping) 0 _
           sampleRandom_range (sample_reachable _ Hrun) Hi).
Defined.

Lemma typed_characters_witness :
  exists c rest delay,
    pending (sampleState firstTyping) !! 0
    = Some (TypingFirstMessage 1 2 (c :: rest) delay)
    /\ isCharacter c.
Proof.
  destruct sample_typing as [Hrun (c & rest & delay & Hi)].
  exists c, rest, delay. split; [exact Hi|].
  destruct (typed_characters sampleRandom (sampleState firstTyping) 0 _ c
              (sample_reachable _ Hrun) Hi) as [H _]; [by left|exact H].
Defined.

Lemma addMessageToUI_appends_witness :
  chatHistory (transcript (addMessageToUI sampleQuestion user false
                             (sampleState contactMade)).2)
  = chatHistory (transcript (sampleState contactMade)) ++ [3].
Proof.
  destruct sample_in_dialogue as [Hrun _].
  pose proof (addMessageToUI_appends sampleRandom sampleQuestion user false
                (sampleState contactMade) (sample_reachable _ Hrun)) as H.
  cbv zeta in H. destruct H as (_ & _ & H & _).
  rewrite H. f_equal.
Defined.

Lemma form_disabled_while_busy_witness :
  inputDisabled (form (sampleState firstSubmission)) = true
  /\ buttonDisabled (form (sampleState firstSubmission)) = true.
Proof.
  destruct sample_awaiting_profile as [Hrun _].
  destruct (form_disabled_while_busy sampleRandom (sampleState firstSubmission)
              (sample_reachable _ Hrun)) as [H1 H2].
  assert (isGenerating (session (sampleState firstSubmission)) = true) as Hg
    by (vm_compute; reflexivity).
  rewrite Hg in H1, H2. exact (conj H1 H2).
Defined.

Lemma placeholder_follows_phase_witness :
  inputPlaceholder (form (sampleState contactMade)) = carryOnText
  /\ inputPlaceholder (form (sampleState firstTyping)) = connectingText.
Proof.
  destruct sample_in_dialogue as [Hrun _].
  destruct sample_typing as [Hrun' (c & rest & delay & Hi)].
  split.
  - destruct (placeholder_follows_phase sampleRandom (sampleState contactMade)
                (sample_reachable _ Hrun)) as (_ & H & _).
    apply H; vm_compute; reflexivity.
  - destruct (placeholder_follows_phase sampleRandom (sampleState firstTyping)
                (sample_reachable _ Hrun')) as (H & _).
    exact (H 0 _ Hi eq_refl).
Defined.

Lemma signal_animates_while_connecting_witness :
  signal (sampleState firstSubmission) = SignalVines.
Proof.
  destruct sample_awaiting_profile as [Hrun Hi].
  destruct (signal_animates_while_connecting sampleRandom (sampleState firstSubmission)
              (sample_reachable _ Hrun)) as [[_ H] _].
  apply H. exists 0, 1. exact Hi.
Defined.

Lemma portrait_views_witness :
  portrait (sampleState contactMade) = loadingView.
Proof.
  destruct sample_in_dialogue as [Hrun Hi].
  pose proof (portrait_views sampleRandom (sampleState contactMade)
                (sample_reachable _ Hrun)) as H.
  assert (isFirstMessage (session (sampleState contactMade)) = false) as Hfirst
    by (vm_compute; reflexivity).
  rewrite Hfirst in H. destruct H as [[_ H]|[Hn _]]; [exact H|].
  exfalso. apply Hn. exact (list_elem_of_lookup_2 _ _ _ Hi).
Defined.

Lemma portrait_shows_image_witness :
  exists s',
    step sampleRandom (sampleState contactMade)
      (Settle 0 (GenerateImagesFulfilled [Some sampleName])) = Some s'
    /\ imageSrc (portrait s') = Some (dataUrlPrefix ++ sampleName)
    /\ imageHidden (portrait s') = false
    /\ loaderHidden (portrait s') = true.
Proof.
  destruct sample_in_dialogue as [Hrun Hi].
  destruct (portrait_shows_image sampleRandom (sampleState contactMade) 0 sampleName []
              (sample_reachable _ Hrun) Hi) as (s' & Hstep & Hp & _).
  exists s'. split; [exact Hstep|]. rewrite Hp.
  cbn [imageSrc imageHidden loaderHidden]. repeat split.
Defined.

Lemma portrait_requested_once_witness :
  filter (fun r => isGenerateImages r) (requests (sampleState contactMade))
  = [GenerateImages (sampleImagePrompt ++ styleSuffix)].
Proof.
  destruct sample_in_dialogue as [Hrun _].
  pose proof (portrait_requested_once sampleRandom (sampleState contactMade)
                (sample_reachable _ Hrun)) as H.
  assert (npcProfile (session (sampleState contactMade)) = Some sampleProfile) as Hp
    by (vm_compute; reflexivity).
  rewrite Hp in H. exact H.
Defined.

Lemma chat_created_from_profile_witness :
  exists c,
    chat (session (sampleState contactMade)) = Some c
    /\ chatSystemInstruction c = systemInstructionFor sampleProfile.
Proof.
  destruct sample_in_dialogue as [Hrun _].
  pose proof (chat_created_from_profile sampleRandom (sampleState contactMade)
                (sample_reachable _ Hrun)) as H.
  assert (npcProfile (session (sampleState contactMade)) = Some sampleProfile) as Hp
    by (vm_compute; reflexivity).
  rewrite Hp in H. destruct H as [H _]. exact H.
Defined.

Lemma one_flow_at_a_time_witness :
  length (textFlows (pending (sampleState firstSubmission))) = 1.
Proof.
  destruct sample_awaiting_profile as [Hrun _].
  destruct (one_flow_at_a_time sampleRandom (sampleState firstSubmission)
              (sample_reachable _ Hrun)) as [H _].
  assert (isGenerating (session (sampleState firstSubmission)) = true) as Hg
    by (vm_compute; reflexivity).
  rewrite Hg in H. exact H.
Defined.

Lemma stream_failure_keeps_partial_reply_witness :
  exists s' m,
    step sampleRandom (sampleState replyStarted) (Settle 1 StreamRejected) = Some s'
    /\ elements (transcript s') !! 4 = Some m
    /\ streaming m = true
    /\ textContent (paragraph m) = sampleName
    /\ isGenerating (session s') = false.
Proof.
  destruct sample_reply_started as [Hrun Hi].
  destruct (stream_failure_keeps_partial_reply sampleRandom replyStarted
              (sampleState replyStarted) 1 4 Hrun Hi)
    as (s' & Hstep & _ & _ & Hm & _ & Hs & _).
  exists s'. eexists. split; [exact Hstep|]. split; [exact Hm|].
  split; [reflexivity|]. split; [vm_compute; reflexivity|].
  rewrite Hs. reflexivity.
Defined.

Lemma send_failure_apologises_witness :
  exists s',
    step sampleRandom (sampleState secondSubmission) (Settle 1 SendMessageStreamRejected)
    = Some s'
    /\ chatHistory (transcript s')
       = chatHistory (transcript (sampleState secondSubmission)) ++ [4]
    /\ isGenerating (session s') = false.
Proof.
  destruct sample_awaiting_stream as [Hrun Hi].
  destruct (send_failure_apologises sampleRandom (sampleState secondSubmission) 1
              (sample_reachable _ Hrun) Hi)
    as (s' & Hstep & Hh & _ & _ & Hs & _).
  exists s'. split; [exact Hstep|]. split.
  - rewrite Hh. f_equal.
  - rewrite Hs. reflexivity.
Defined.

Lemma user_messages_are_submissions_witness :
  userTexts (transcript (sampleState secondSubmission))
  = [JsString.trim sampleGreeting; sampleQuestion].
Proof.
  destruct sample_awaiting_stream as [Hrun _].
  rewrite (user_messages_are_submissions sampleRandom secondSubmission
             (sampleState secondSubmission) Hrun).
  vm_compute. reflexivity.
Defined.

Lemma user_messages_trimmed_witness :
  Forall (fun u => u <> [] /\ JsString.trim u = u)
    (userTexts (transcript (sampleState secondSubmission))).
Proof.
  destruct sample_awaiting_stream as [Hrun _].
  exact (user_messages_trimmed sampleRandom (sampleState secondSubmission)
           (sample_reachable _ Hrun)).
Defined.

Lemma history_append_only_witness :
  exists s',
    step sampleRandom (sampleState firstSubmission) (Settle 0 GenerateContentRejected)
    = Some s'
    /\ complete_kept (elements (transcript (sampleState firstSubmission)))
         (elements (transcript s')).
Proof.
  destruct sample_awaiting_profile as [Hrun _].
  assert (exists s', step sampleRandom (sampleState firstSubmission)
                       (Settle 0 GenerateContentRejected) = Some s') as [s' Hstep]
    by (vm_compute; by eexists).
  exists s'. split; [exact Hstep|].
  destruct (history_append_only sampleRandom (sampleState firstSubmission) _ s'
              (sample_reachable _ Hrun) Hstep) as [_ H].
  exact H.
Defined.

Lemma calls_of_a_turn_witness :
  exists s',
    step sampleRandom (sampleState secondSubmission) (Settle 1 SendMessageStreamFulfilled)
    = Some s'
    /\ requests s' = requests (sampleState secondSubmission).
Proof.
  destruct sample_awaiting_stream as [Hrun Hi].
  assert (exists s', step sampleRandom (sampleState secondSubmission)
                       (Settle 1 SendMessageStreamFulfilled) = Some s') as [s' Hstep]
    by (vm_compute; eexists; reflexivity).
  assert (callsOf (sampleState secondSubmission) (Settle 1 SendMessageStreamFulfilled)
          = []) as Hcalls by (vm_compute; reflexivity).
  pose proof (calls_of_a_turn sampleRandom (sampleState secondSubmission) _ s'
                (sample_reachable _ Hrun) Hstep) as H.
  rewrite Hcalls, app_nil_r in H.
  exists s'. exact (conj Hstep H).
Defined.
